(** * minitable: the windowed row store, its fetch ledger and the BFF endpoints

    A shallow embedding of the client component [App] (row store, page
    fetch ledger, realtime handler, optimistic cell edit, viewport
    prefetch), of the older [Table] component, and of the two BFF routes
    [GET /api/rows] and [PATCH /api/rows/:id], followed by the properties
    the specification states about them.

    JavaScript [Map] and [Set] are stdpp's [gmap] and [gset]; a JS object
    used as a record of fields is a [gmap string jsval]; JS numbers that
    the client uses as positions and page indices are integers and are
    modelled in [Z]; an [async] function is split at its [await]s into the
    segment that runs synchronously and the continuation that runs when
    the awaited promise settles. *)

From Stdlib Require Import ZArith Ascii String List Lia.
From stdpp Require Import gmap gmultiset strings list fin_maps pretty sorting.

Open Scope Z_scope.

Set Warnings "-clear-no-such-hyp".

(** ** JavaScript values *)

Module Js.

(** The values a row field or a map key can hold here: [undefined], [null],
    an integer number, a string. *)
Inductive jsval :=
  | VUndef
  | VNull
  | VNum (z : Z)
  | VStr (s : string).

#[global] Instance jsval_eq_dec : EqDecision jsval.
Proof. solve_decision. Defined.

Definition jsval_enc (v : jsval) : (unit + unit) + (Z + string) :=
  match v with
  | VUndef => inl (inl tt)
  | VNull => inl (inr tt)
  | VNum z => inr (inl z)
  | VStr s => inr (inr s)
  end.

Definition jsval_dec (x : (unit + unit) + (Z + string)) : jsval :=
  match x with
  | inl (inl _) => VUndef
  | inl (inr _) => VNull
  | inr (inl z) => VNum z
  | inr (inr s) => VStr s
  end.

#[global] Instance jsval_countable : Countable jsval.
Proof. apply (inj_countable' jsval_enc jsval_dec). by intros []. Defined.

(** An object with string keys. *)
Abbreviation obj := (gmap string jsval).

(** [o.k]: reading an absent property gives [undefined]. *)
Definition prop (o : obj) (k : string) : jsval := default VUndef (o !! k).

(** [{...o, [k]: v}] and [o.k = v]. *)
Definition with_prop (o : obj) (k : string) (v : jsval) : obj := <[k:=v]> o.

(** The property key a value is converted to when it indexes an object. *)
Definition to_key (v : jsval) : string :=
  match v with
  | VUndef => "undefined"
  | VNull => "null"
  | VNum z => pretty z
  | VStr s => s
  end.

(** [a === b] on these values. *)
Definition strict_eq (a b : jsval) : bool := bool_decide (a = b).

End Js.

Import Js.

(** ** The client: [App] *)

Module App.

Definition PAGE_SIZE : Z := 150.

(** [type Row = Record<string, any> & { id: number }] *)
Abbreviation Row := (gmap string jsval).

Definition row_id (r : Row) : jsval := prop r "id".

(** [DEMO_ERRORS]: an object literal with the keys 2, 4 and 6, indexed by
    [row.id]. The table is what the object answers for an id that is a
    number; for an id that names a member every object inherits
    ([constructor], [toString], ...) the object of the source answers with
    that member, which this table leaves out. *)
Definition DEMO_ERRORS (id : jsval) : option string :=
  let k := to_key id in
  if String.eqb k "2" then Some "Missing brief & deadline"
  else if String.eqb k "4" then Some "No assigned owner"
  else if String.eqb k "6" then Some "Status not set — blocked"
  else None.

(** The keys of [COLUMN_LABELS], in order: the ids of the columns the grid
    renders cells for. The [id] column is drawn apart and is not one of
    them. *)
Definition COLUMN_LABELS : list string :=
  [ "marcus_error"; "tasks_name"; "compose"; "link_to_ad"; "stage"; "task_owner";
    "deadline"; "team"; "ai_services"; "purchases"; "platform"; "product";
    "localization"; "size"; "concept"; "status"; "compose_creator";
    "compose_done_date"; "attachments"; "impressions"; "test_status" ].

(** The refs and state variables of [App] that the store and the ledger
    use. [renders] is the counter behind [forceUpdate]. *)
Record state := mkState {
  rowsMapRef : gmap Z Row;
  idToIdxRef : gmap jsval Z;
  fetchedPagesRef : gset Z;
  fetchingPagesRef : gset Z;
  total : Z;
  loadedCount : Z;
  renders : nat;
  editingCell : option (jsval * string);
  editingDropdown : option (jsval * string)
}.

Definition init : state :=
  mkState ∅ ∅ ∅ ∅ 0 0 0 None None.

Definition forceUpdate (s : state) : state :=
  mkState (rowsMapRef s) (idToIdxRef s) (fetchedPagesRef s) (fetchingPagesRef s)
          (total s) (loadedCount s) (S (renders s)) (editingCell s) (editingDropdown s).

Definition set_rows (m : gmap Z Row) (s : state) : state :=
  mkState m (idToIdxRef s) (fetchedPagesRef s) (fetchingPagesRef s)
          (total s) (loadedCount s) (renders s) (editingCell s) (editingDropdown s).

Definition set_ids (m : gmap jsval Z) (s : state) : state :=
  mkState (rowsMapRef s) m (fetchedPagesRef s) (fetchingPagesRef s)
          (total s) (loadedCount s) (renders s) (editingCell s) (editingDropdown s).

Definition set_fetched (x : gset Z) (s : state) : state :=
  mkState (rowsMapRef s) (idToIdxRef s) x (fetchingPagesRef s)
          (total s) (loadedCount s) (renders s) (editingCell s) (editingDropdown s).

Definition set_fetching (x : gset Z) (s : state) : state :=
  mkState (rowsMapRef s) (idToIdxRef s) (fetchedPagesRef s) x
          (total s) (loadedCount s) (renders s) (editingCell s) (editingDropdown s).

Definition setTotal (t : Z) (s : state) : state :=
  mkState (rowsMapRef s) (idToIdxRef s) (fetchedPagesRef s) (fetchingPagesRef s)
          t (loadedCount s) (renders s) (editingCell s) (editingDropdown s).

Definition setLoadedCount (n : Z) (s : state) : state :=
  mkState (rowsMapRef s) (idToIdxRef s) (fetchedPagesRef s) (fetchingPagesRef s)
          (total s) n (renders s) (editingCell s) (editingDropdown s).

Definition close_editors (s : state) : state :=
  mkState (rowsMapRef s) (idToIdxRef s) (fetchedPagesRef s) (fetchingPagesRef s)
          (total s) (loadedCount s) (renders s) None None.

(** The row store: the position map and the reverse map. *)
Definition store (s : state) : gmap Z Row * gmap jsval Z :=
  (rowsMapRef s, idToIdxRef s).

(** What the component sends to the BFF. *)
Inductive request :=
  | GetRows (limit offset : Z)
  | PatchRow (rowId : jsval) (field : string) (value : jsval).

#[global] Instance request_eq_dec : EqDecision request.
Proof. solve_decision. Defined.

(** The page a read request is for. *)
Definition get_for (page : Z) : request := GetRows PAGE_SIZE (page * PAGE_SIZE).

(** The parsed body of a read response: [json.data] and [json.total], each
    possibly absent ([undefined] or [null]). *)
Record json := mkJson {
  j_data : option (list Row);
  j_total : option Z
}.

(** How the two awaits of [fetchPage] settle: [fetch] or [res.json()]
    rejects (no connection, a body that is not JSON), or a body is parsed.
    The component never reads [res.ok] or [res.status], so the status is
    not part of the outcome. *)
Inductive fetch_outcome :=
  | Rejected
  | Parsed (body : json).

(** *** [fetchPage] *)

(** Neither guard of [fetchPage] fires for the page. *)
Definition untracked (s : state) (page : Z) : Prop :=
  (page ∉ fetchedPagesRef s) /\ (page ∉ fetchingPagesRef s).

#[global] Instance untracked_dec (s : state) (page : Z) : Decision (untracked s page).
Proof. unfold untracked. apply _. Defined.

(** Up to the first [await]: the two guards, the in-flight mark, and the
    call of [fetch]. *)
Definition fetchPage_begin (s : state) (page : Z) : state * list request :=
  if bool_decide (page ∈ fetchedPagesRef s) then (s, [])
  else if bool_decide (page ∈ fetchingPagesRef s) then (s, [])
  else (set_fetching ({[page]} ∪ fetchingPagesRef s) s, [get_for page]).

(** The body of the [for] loop, from index [idx = offset + i] on. *)
Fixpoint fill_rows (idx : Z) (rows : list Row) (s : state) : state :=
  match rows with
  | [] => s
  | row :: rest =>
      let row :=
        match DEMO_ERRORS (row_id row) with
        | Some e => with_prop row "marcus_error" (VStr e)
        | None => row
        end in
      let s := set_rows (<[idx:=row]> (rowsMapRef s)) s in
      let s := set_ids (<[row_id row:=idx]> (idToIdxRef s)) s in
      fill_rows (idx + 1) rest s
  end.

(** After the awaits: the [try] block's remainder, or the [catch]. *)
Definition fetchPage_resume (s : state) (page : Z) (o : fetch_outcome) : state :=
  match o with
  | Parsed body =>
      let offset := page * PAGE_SIZE in
      let rows := default [] (j_data body) in
      let s := fill_rows offset rows s in
      let s := set_fetched ({[page]} ∪ fetchedPagesRef s) s in
      let s := set_fetching (fetchingPagesRef s ∖ {[page]}) s in
      let s := setTotal (default 0 (j_total body)) s in
      let s := setLoadedCount (Z.of_nat (size (rowsMapRef s))) s in
      forceUpdate s
  | Rejected => set_fetching (fetchingPagesRef s ∖ {[page]}) s
  end.

(** *** The [cell-updated] socket handler *)

Definition on_cell_updated (s : state) (updatedRow : Row) : state :=
  match idToIdxRef s !! row_id updatedRow with
  | Some idx => forceUpdate (set_rows (<[idx:=updatedRow]> (rowsMapRef s)) s)
  | None => s
  end.

(** *** [updateCell] *)

(** Up to the [await]: the optimistic patch, the two editor resets, and the
    call of [fetch] with method PATCH, which is the last thing the segment
    does. *)
Definition updateCell_begin (s : state) (rowId : jsval) (field : string) (value : jsval)
  : state * list request :=
  let s :=
    match idToIdxRef s !! rowId with
    | Some idx =>
        match rowsMapRef s !! idx with
        | Some cur => set_rows (<[idx:=with_prop cur field value]> (rowsMapRef s)) s
        | None => s
        end
    | None => s
    end in
  (close_editors s, [PatchRow rowId field value]).

(** How the PATCH settles: [fetch] rejects, or it resolves with some HTTP
    status. *)
Inductive write_outcome :=
  | WriteRejected
  | WriteStatus (code : Z).

(** After the [await]: nothing in the [try], an empty [catch]. *)
Definition updateCell_resume (s : state) (o : write_outcome) : state * list request :=
  match o with
  | WriteRejected => (s, [])
  | WriteStatus _ => (s, [])
  end.

(** *** The viewport prefetch effect *)

(** [Math.ceil(a / b)] for a positive [b]. *)
Definition ceil_div (a b : Z) : Z := - ((- a) / b).

(** The first and the last page the loop visits, when the effect does not
    return early. [virtualRows] is given by the indices of its items. *)
Definition page_window (total : Z) (virtualRows : list Z) : option (Z * Z) :=
  match virtualRows with
  | [] => None
  | fi :: _ =>
      if bool_decide (total = 0) then None
      else
        let li := List.last virtualRows fi in
        let max := ceil_div total PAGE_SIZE - 1 in
        let sp := Z.max 0 (fi / PAGE_SIZE - 1) in
        let ep := Z.min (li / PAGE_SIZE + 2) max in
        Some (sp, ep)
  end.

(** [for (let p = sp; p <= ep; p++) fetchPage(p)]: every call runs its
    synchronous segment before the next one starts. *)
Fixpoint fetch_each (pages : list Z) (s : state) : state * list request :=
  match pages with
  | [] => (s, [])
  | p :: rest =>
      let '(s1, r1) := fetchPage_begin s p in
      let '(s2, r2) := fetch_each rest s1 in
      (s2, r1 ++ r2)
  end.

Definition viewport_effect (s : state) (virtualRows : list Z) : state * list request :=
  match page_window (total s) virtualRows with
  | None => (s, [])
  | Some (sp, ep) => fetch_each (seqZ sp (ep - sp + 1)) s
  end.

(** The page indices the specification's sentence on coverage names for a
    first visible position [fi] and a last one [li]: the pages that meet
    [fi .. li], one more page on each side, clamped to
    [0 .. ceil(total/pageSize) - 1]. Written from the specification, to be
    compared with [page_window]. *)
Definition spec_pages (total fi li : Z) : list Z :=
  let lo := Z.max 0 (fi / PAGE_SIZE - 1) in
  let hi := Z.min (li / PAGE_SIZE + 1) (ceil_div total PAGE_SIZE - 1) in
  seqZ lo (hi - lo + 1).

End App.

(** ** The older client component: [Table] *)

Module Table.

(** [data] is a plain array of rows. The [cell-updated] handler is
    [setData(prev => prev.map(row => row.id === updatedRow.id ? updatedRow : row))]. *)
Definition on_cell_updated (prev : list App.Row) (updatedRow : App.Row) : list App.Row :=
  List.map (fun row =>
              if strict_eq (App.row_id row) (App.row_id updatedRow)
              then updatedRow else row) prev.

End Table.

(** ** The BFF: [index.ts] *)

Module Bff.

(** *** Numbers as [parseInt] and [Math.max]/[Math.min] produce them *)

(** A JS number that is an integer, an infinity, or NaN. Every finite value
    [parseInt] returns is an integer. *)
Inductive num :=
  | NaN
  | Inf (negative : bool)
  | Fin (z : Z).

#[global] Instance num_eq_dec : EqDecision num.
Proof. solve_decision. Defined.

(** [m / 2^k] rounded to the nearest integer, ties to even. *)
Definition round_shift (m k : Z) : Z :=
  if bool_decide (k <= 0) then m
  else
    let q := Z.shiftr m k in
    let r := m - Z.shiftl q k in
    let half := Z.shiftl 1 (k - 1) in
    if bool_decide (r < half) then q
    else if bool_decide (half < r) then q + 1
    else if Z.even q then q else q + 1.

(** The Number value of a mathematical integer: exact below [2^53], rounded
    to 53 significant bits above, an infinity from [2^1024] on. *)
Definition to_number (z : Z) : num :=
  let a := Z.abs z in
  if bool_decide (a < 2 ^ 53) then Fin z
  else
    let k := Z.log2 a - 52 in
    let m := round_shift a k * 2 ^ k in
    if bool_decide (2 ^ 1024 <= m) then Inf (bool_decide (z < 0))
    else Fin (Z.sgn z * m).

(** [a || b] on numbers: [0] and [NaN] are falsy. *)
Definition or_else (a b : num) : num :=
  match a with
  | NaN => b
  | Fin 0 => b
  | _ => a
  end.

Definition Math_max (a b : num) : num :=
  match a, b with
  | NaN, _ => NaN
  | _, NaN => NaN
  | Inf false, _ => Inf false
  | _, Inf false => Inf false
  | Inf true, y => y
  | x, Inf true => x
  | Fin x, Fin y => Fin (Z.max x y)
  end.

Definition Math_min (a b : num) : num :=
  match a, b with
  | NaN, _ => NaN
  | _, NaN => NaN
  | Inf true, _ => Inf true
  | _, Inf true => Inf true
  | Inf false, y => y
  | x, Inf false => x
  | Fin x, Fin y => Fin (Z.min x y)
  end.

(** *** ASCII strings

    The definitions below work on the characters of the ASCII range: on a
    string of such characters [is_space] is all the white space that [\s],
    [trim] and [parseInt] know, and [lower] is what [toLowerCase] does.
    Outside that range JavaScript knows more white space (U+00A0, U+FEFF,
    ...) and more letters, which these definitions leave as they are. *)

Definition is_ascii (c : ascii) : bool := Nat.ltb (nat_of_ascii c) 128.

Fixpoint ascii_only (s : string) : bool :=
  match s with
  | String c r => (is_ascii c && ascii_only r)%bool
  | EmptyString => true
  end.

(** *** [parseInt] with no radix argument *)

(** The white space of the ASCII range: space, tab, line feed, vertical
    tab, form feed, carriage return. *)
Definition is_space (c : ascii) : bool :=
  let n := nat_of_ascii c in
  (Nat.eqb n 32 || (Nat.leb 9 n && Nat.leb n 13))%bool.

Fixpoint trim_start (s : string) : string :=
  match s with
  | String c r => if is_space c then trim_start r else s
  | EmptyString => s
  end.

Definition digit_value (c : ascii) : option Z :=
  let n := Z.of_nat (nat_of_ascii c) in
  if bool_decide (48 <= n <= 57) then Some (n - 48)
  else if bool_decide (97 <= n <= 122) then Some (n - 87)
  else if bool_decide (65 <= n <= 90) then Some (n - 55)
  else None.

(** The value of the longest prefix of digits of the radix; [None] when
    that prefix is empty. *)
Fixpoint leading_digits (radix : Z) (s : string) (acc : option Z) : option Z :=
  match s with
  | String c r =>
      match digit_value c with
      | Some d =>
          if bool_decide (d < radix)
          then leading_digits radix r (Some (default 0 acc * radix + d))
          else acc
      | None => acc
      end
  | EmptyString => acc
  end.

Definition parseInt (input : string) : num :=
  let s := trim_start input in
  let '(negative, s) :=
    match s with
    | String "-" r => (true, r)
    | String "+" r => (false, r)
    | _ => (false, s)
    end in
  let '(radix, s) :=
    match s with
    | String "0" (String "x" r) => (16, r)
    | String "0" (String "X" r) => (16, r)
    | _ => (10, s)
    end in
  match leading_digits radix s None with
  | None => NaN
  | Some m => to_number (if negative then - m else m)
  end.

(** A query-string parameter: absent, or its string form. [parseInt]
    converts its argument to a string first; [undefined] becomes
    ["undefined"]. *)
Definition query_string (q : option string) : string := default "undefined" q.

(** *** The pool *)

Inductive param :=
  | PNum (n : num)
  | PVal (v : jsval).

(** [await pool.query(text, values)] returns rows or throws. *)
Inductive query_result :=
  | QThrow
  | QRows (rows : list App.Row).

Abbreviation pool_t := (string -> list param -> query_result).

Inductive body :=
  | BError (error : string)
  | BPage (data : list App.Row) (total : jsval) (limit offset : num)
  | BRow (row : App.Row).

Record response := mkResponse {
  status : Z;
  payload : body
}.

(** *** [GET /api/rows] *)

Definition effective_limit (limit : option string) : num :=
  Math_min (Math_max (Fin 1) (or_else (parseInt (query_string limit)) (Fin 150))) (Fin 500).

Definition effective_offset (offset : option string) : num :=
  Math_max (Fin 0) (or_else (parseInt (query_string offset)) (Fin 0)).

Definition SELECT_PAGE : string :=
  "SELECT * FROM creative_tasks ORDER BY id ASC LIMIT $1 OFFSET $2".

Definition SELECT_COUNT : string :=
  "SELECT COUNT(*)::int AS total FROM creative_tasks".

Definition get_rows (pool : pool_t) (limit offset : option string) : response :=
  let limit := effective_limit limit in
  let offset := effective_offset offset in
  match pool SELECT_PAGE [PNum limit; PNum offset], pool SELECT_COUNT [] with
  | QRows data, QRows (count :: _) =>
      mkResponse 200 (BPage data (prop count "total") limit offset)
  | _, _ => mkResponse 500 (BError "Database error")
  end.

(** *** [PATCH /api/rows/:id] *)

(** [toLowerCase] on one character of the ASCII range. *)
Definition lower (c : ascii) : ascii :=
  let n := nat_of_ascii c in
  if (Nat.leb 65 n && Nat.leb n 90)%bool then ascii_of_nat (n + 32) else c.

Fixpoint toLowerCase (s : string) : string :=
  match s with
  | String c r => String (lower c) (toLowerCase r)
  | EmptyString => EmptyString
  end.

(** [s.replace(/\s+/g, '_')]: every maximal run of white space becomes one
    underscore. [in_run] tells that the previous character was white
    space. *)
Fixpoint replace_spaces (in_run : bool) (s : string) : string :=
  match s with
  | String c r =>
      if is_space c
      then (if in_run then replace_spaces true r else String "_" (replace_spaces true r))
      else String c (replace_spaces false r)
  | EmptyString => EmptyString
  end.

(** [f.toLowerCase().replace(/\s+/g, '_')], for [f] with [ascii_only f]. *)
Definition column_of (f : string) : string := replace_spaces false (toLowerCase f).

(** [fields.map((f, i) => `${...} = $${i + 1}`).join(', ')] *)
Definition setClause (fields : list string) : string :=
  String.concat ", "
    (imap (fun i f => column_of f +:+ " = $" +:+ pretty (Z.of_nat i + 1)) fields).

(** [updates[f]] on the request body, given as its own properties in
    [Object.keys] order. *)
Definition body_get (updates : list (string * jsval)) (f : string) : jsval :=
  default VUndef (snd <$> List.find (fun kv => String.eqb (fst kv) f) updates).

Definition update_values (updates : list (string * jsval)) (id : num) : list param :=
  let fields := fst <$> updates in
  ((fun f => PVal (body_get updates f)) <$> fields) ++ [PNum id].

Definition update_text (fields : list string) (nvalues : nat) : string :=
  "UPDATE creative_tasks SET " +:+ setClause fields +:+
  " WHERE id = $" +:+ pretty (Z.of_nat nvalues) +:+ " RETURNING *".

(** The handler returns its response and what it passed to [io.emit], in
    order. *)
Definition patch_row (pool : pool_t) (id_param : string) (updates : list (string * jsval))
  : response * list (string * App.Row) :=
  let id := parseInt id_param in
  let fields := fst <$> updates in
  if bool_decide (length fields = 0%nat)
  then (mkResponse 400 (BError "No fields to update"), [])
  else
    let values := update_values updates id in
    match pool (update_text fields (length values)) values with
    | QThrow => (mkResponse 500 (BError "Database error"), [])
    | QRows [] => (mkResponse 404 (BError "Row not found"), [])
    | QRows (updatedRow :: _) =>
        (mkResponse 200 (BRow updatedRow), [("cell-updated", updatedRow)])
    end.

(** *** The database behind the pool

    What PostgreSQL does with the two statements of [GET /api/rows] on a
    table given as the list of its rows. [LIMIT] and [OFFSET] take a
    [bigint] that is not negative; any other value makes the query fail. *)

Definition id_of (row : App.Row) : Z :=
  match App.row_id row with
  | VNum z => z
  | _ => 0
  end.

Definition id_le (a b : App.Row) : Prop := id_of a <= id_of b.

#[global] Instance id_le_dec (a b : App.Row) : Decision (id_le a b).
Proof. unfold id_le. apply _. Defined.

Definition as_bigint (n : num) : option Z :=
  match n with
  | Fin z => if bool_decide (- 2 ^ 63 <= z < 2 ^ 63) then Some z else None
  | _ => None
  end.

Definition postgres (table : list App.Row) : pool_t :=
  fun text values =>
    if String.eqb text SELECT_PAGE then
      match values with
      | [PNum limit; PNum offset] =>
          match as_bigint limit, as_bigint offset with
          | Some l, Some o =>
              if bool_decide (0 <= l /\ 0 <= o)
              then QRows (take (Z.to_nat l) (drop (Z.to_nat o) (merge_sort id_le table)))
              else QThrow
          | _, _ => QThrow
          end
      | _ => QThrow
      end
    else if String.eqb text SELECT_COUNT then
      QRows [ {[ "total" := VNum (Z.of_nat (length table)) ]} ]
    else QThrow.

(** *** A fixed-template update

    The statement a parameterized update has when its column names are
    plain identifiers: the text depends on the names and their number only,
    and every name is a run of lower-case letters, digits and underscores. *)

Definition is_ident_char (c : ascii) : bool :=
  let n := nat_of_ascii c in
  ((Nat.leb 97 n && Nat.leb n 122) || (Nat.leb 48 n && Nat.leb n 57) || Nat.eqb n 95)%bool.

Fixpoint all_ident (s : string) : bool :=
  match s with
  | String c r => is_ident_char c && all_ident r
  | EmptyString => true
  end.

Definition parameterized_update (columns : list string) : string :=
  "UPDATE creative_tasks SET " +:+
  String.concat ", " (imap (fun i c => c +:+ " = $" +:+ pretty (Z.of_nat i + 1)) columns) +:+
  " WHERE id = $" +:+ pretty (Z.of_nat (S (length columns))) +:+ " RETURNING *".

(** The first character of a string that cannot be part of an identifier. *)
Fixpoint first_other (s : string) : option ascii :=
  match s with
  | String c r => if is_ident_char c then first_other r else Some c
  | EmptyString => None
  end.

(** [s.substring(n)] *)
Fixpoint string_drop (n : nat) (s : string) : string :=
  match n, s with
  | S n, String _ r => string_drop n r
  | _, _ => s
  end.

End Bff.

(** ** One viewer session on the event loop *)

Module Session.

Import App.

(** The component's state together with what is outstanding on the network:
    [inflight] holds the page of every read request whose promise has not
    settled (with multiplicity), [writes] counts the unsettled PATCH
    requests, [sent] logs every request ever issued, oldest first. *)
Record world := mkWorld {
  app : state;
  inflight : gmultiset Z;
  writes : nat;
  sent : list request
}.

Definition start : world := mkWorld init ∅ 0 [].

(** The handlers the event loop runs, one at a time. *)
Inductive event :=
  | Mount
  | Viewport (virtualRows : list Z)
  | FetchSettled (page : Z) (o : fetch_outcome)
  | CellUpdated (updatedRow : Row)
  | UpdateCell (rowId : jsval) (field : string) (value : jsval)
  | WriteSettled (o : write_outcome).

(** The page of a read request. *)
Definition pages_of (rs : list request) : list Z :=
  omap (fun r => match r with
                 | GetRows _ offset => Some (offset / PAGE_SIZE)
                 | PatchRow _ _ _ => None
                 end) rs.

Definition is_write (r : request) : bool :=
  match r with
  | PatchRow _ _ _ => true
  | GetRows _ _ => false
  end.

Definition count_writes (rs : list request) : nat :=
  length (filter (fun r => is_write r) rs).

(** A handler's synchronous segment ran from [app w] to [s] and issued [rs]. *)
Definition issue (w : world) (s : state) (rs : list request) : world :=
  mkWorld s (list_to_set_disj (pages_of rs) ⊎ inflight w)
          (count_writes rs + writes w) (sent w ++ rs).

(** One turn of the event loop. A promise can only settle if its request is
    outstanding; otherwise the event is not enabled. *)
Definition step (w : world) (e : event) : option world :=
  match e with
  | Mount =>
      let '(s, rs) := fetchPage_begin (app w) 0 in Some (issue w s rs)
  | Viewport virtualRows =>
      let '(s, rs) := viewport_effect (app w) virtualRows in Some (issue w s rs)
  | FetchSettled page o =>
      if bool_decide (page ∈ inflight w)
      then Some (mkWorld (fetchPage_resume (app w) page o)
                         (inflight w ∖ {[+ page +]}) (writes w) (sent w))
      else None
  | CellUpdated updatedRow =>
      Some (mkWorld (on_cell_updated (app w) updatedRow) (inflight w) (writes w) (sent w))
  | UpdateCell rowId field value =>
      let '(s, rs) := updateCell_begin (app w) rowId field value in Some (issue w s rs)
  | WriteSettled o =>
      match writes w with
      | O => None
      | S n =>
          let '(s, rs) := updateCell_resume (app w) o in
          Some (issue (mkWorld (app w) (inflight w) n (sent w)) s rs)
      end
  end.

Fixpoint run (w : world) (es : list event) : option world :=
  match es with
  | [] => Some w
  | e :: rest =>
      match step w e with
      | Some w' => run w' rest
      | None => None
      end
  end.

(** What [res.json()] gives the component for a body the BFF sent: only
    [data] and [total] are read, and an error body has neither. *)
Definition wire (b : Bff.body) : json :=
  match b with
  | Bff.BPage data (VNum total) _ _ => mkJson (Some data) (Some total)
  | Bff.BPage data _ _ _ => mkJson (Some data) None
  | Bff.BError _ => mkJson None None
  | Bff.BRow _ => mkJson None None
  end.

(** How many read requests for [page] the log holds. *)
Definition requests_for (page : Z) (rs : list request) : nat :=
  length (filter (fun p => p = page) (pages_of rs)).

(** The ledger agrees with the network: a page is marked in flight exactly
    when one read request for it is outstanding, and no page is both
    fetched and in flight. *)
Definition ledger_ok (w : world) : Prop :=
  (forall page : Z,
      multiplicity page (inflight w)
      = if decide (page ∈ fetchingPagesRef (app w)) then 1%nat else 0%nat)
  /\ fetchedPagesRef (app w) ## fetchingPagesRef (app w).

(** Every position the reverse map points to is filled. *)
Definition mapped_filled (s : state) : Prop :=
  forall (id : jsval) (p : Z),
    idToIdxRef s !! id = Some p -> is_Some (rowsMapRef s !! p).

(** For a table whose row at position [p] has identity [ident p]: every
    filled position holds the row of that identity and is what the reverse
    map gives for it, and the reverse map knows no other pairs. *)
Definition consistent (ident : Z -> Z) (s : state) : Prop :=
  (forall (p : Z) (row : Row),
      rowsMapRef s !! p = Some row ->
      row_id row = VNum (ident p) /\ idToIdxRef s !! VNum (ident p) = Some p)
  /\ (forall (id : jsval) (p : Z),
        idToIdxRef s !! id = Some p -> id = VNum (ident p)).

(** What the backing store guarantees about the events a session sees,
    for a table whose row at position [p] (rank by ascending id) has
    identity [ident p]: a parsed read response for a page lists, at index
    [i], the row of position [page * PAGE_SIZE + i]; and the grid lets the
    user edit the cells of the [COLUMN_LABELS] columns only. *)
Definition faithful (ident : Z -> Z) (e : event) : Prop :=
  match e with
  | FetchSettled page (Parsed body) =>
      forall (i : nat) (row : Row),
        default [] (j_data body) !! i = Some row ->
        row_id row = VNum (ident (page * PAGE_SIZE + Z.of_nat i))
  | UpdateCell _ field _ => field ∈ COLUMN_LABELS
  | _ => True
  end.

End Session.

(** ** Sample data *)

Module Examples.

Import App Session.

Definition row_a : Row := {[ "id" := VNum 1; "status" := VStr "Planned" ]}.
Definition row_b : Row := {[ "id" := VNum 2; "status" := VStr "In Progress" ]}.
Definition row_a_done : Row := {[ "id" := VNum 1; "status" := VStr "Done" ]}.

(** A first page of a table of 50000 rows. *)
Definition page0 : json := mkJson (Some [row_a; row_b]) (Some 50000).

(** The session once the first page has arrived. *)
Definition loading : list event := [Mount; FetchSettled 0 (Parsed page0)].

Definition loaded : world := default start (run start loading).

(** The body [{ error: 'Database error' }] the BFF sends with status 500:
    it has neither [data] nor [total]. *)
Definition error_body : json := mkJson None None.

Fixpoint zeros (n : nat) : string :=
  match n with
  | O => EmptyString
  | S n => String "0" (zeros n)
  end.

(** The digit 1 followed by 309 zeros: ten to the 309th, above every finite
    Number. *)
Definition oversized : string := String "1" (zeros 309).

(** A table of three rows, stored out of order. *)
Definition table3 : list Row :=
  [ {[ "id" := VNum 3; "status" := VStr "Done" ]}; row_a; row_b ].

(** [Task], a space, a tab, [Owner]. *)
Definition spaced_name : string :=
  String "T" (String "a" (String "s" (String "k" (String " "
    (String (ascii_of_nat 9) "Owner"))))).

(** A pool whose database holds row 1 and writes ["Done"] into it. *)
Definition done_pool : Bff.pool_t := fun _ _ => Bff.QRows [row_a_done].

(** A pool whose database is down: every query throws. *)
Definition broken_pool : Bff.pool_t := fun _ _ => Bff.QThrow.

(** The rows of identities [first .. first + count - 1], in order. *)
Definition rows_from (first count : Z) : list Row :=
  (fun id => {[ "id" := VNum id; "status" := VStr "Planned" ]}) <$> seqZ first count.

(** Positions 0..49: thirty visible rows and the overscan below them. *)
Definition top_rows : list Z := seqZ 0 50.

(** The viewport is evaluated twice while pages 1 and 2 are in flight; page
    1 then fails and page 2 arrives empty. *)
Definition scrolling : list event :=
  loading ++ [Viewport top_rows; Viewport top_rows;
              FetchSettled 1 Rejected; FetchSettled 2 (Parsed (mkJson (Some []) (Some 50000)))].

Definition scrolled : world := default start (run start scrolling).

(** The session with pages 1 and 2 in flight. *)
Definition loaded_more : world :=
  default start (run start (loading ++ [Viewport top_rows])).

(** Identities are handed out from 1 on: the row at position [p] has
    identity [p + 1]. *)
Definition serial (p : Z) : Z := p + 1.

(** A session with a page load, an edit, the server's echo, an update for a
    row that is not loaded, a failed page and an error body. *)
Definition editing : list event :=
  loading ++ [UpdateCell (VNum 1) "status" (VStr "Done");
              CellUpdated row_a_done;
              CellUpdated {[ "id" := VNum 4711; "status" := VStr "Done" ]};
              Viewport top_rows;
              FetchSettled 1 Rejected;
              FetchSettled 2 (Parsed error_body);
              WriteSettled (WriteStatus 200)].

Definition edited : world := default start (run start editing).

End Examples.

(** ** More of [App]: the error summary, the error indicator, the column
    order panel *)

Module Ui.

Import App.

(** [!v] *)
Definition falsy (v : jsval) : bool :=
  match v with
  | VUndef => true
  | VNull => true
  | VNum z => bool_decide (z = 0)
  | VStr s => bool_decide (s = "")
  end.

(** [type ErrorItem = { key; label; count }] *)
Record ErrorItem := mkError {
  key : string;
  label : string;
  count : Z
}.

(** The three counters after [rowsMapRef.current.forEach] ran over the rows. *)
Definition tally (rows : list Row) : Z * Z * Z :=
  foldl (fun acc r =>
           let '(dl, st, tn) := acc in
           (if falsy (prop r "deadline") then dl + 1 else dl,
            if falsy (prop r "status") then st + 1 else st,
            if falsy (prop r "tasks_name") then tn + 1 else tn))
        (0, 0, 0) rows.

(** The effect on [loadedCount]: [None] when it returns early and leaves
    [errors] as it is, otherwise the list it passes to [setErrors]. *)
Definition errors_effect (s : state) : option (list ErrorItem) :=
  if bool_decide (loadedCount s = 0) then None
  else
    let '(dl, st, tn) := tally ((map_to_list (rowsMapRef s)).*2) in
    Some (filter (fun e => 0 < count e)
            [ mkError "deadline" "No due date" dl;
              mkError "status" "No status" st;
              mkError "tasks_name" "No task name" tn ]).

(** [errors.reduce((s, e) => s + e.count, 0)] *)
Definition totalErrors (errors : list ErrorItem) : Z :=
  foldl (fun s e => s + count e) 0 errors.

(** [v ?? w] takes [w] for exactly these. *)
Definition nullish (v : jsval) : bool :=
  match v with
  | VUndef => true
  | VNull => true
  | _ => false
  end.

(** The labels [renderCell] pushes for a row, in order. *)
Definition missing_labels (row : Row) : list string :=
  (if falsy (prop row "deadline") then ["No due date"] else [])
  ++ (if falsy (prop row "status") then ["No status"] else [])
  ++ (if falsy (prop row "tasks_name") then ["No name"] else []).

(** [errText] of the [marcus_error] cell. *)
Definition errText (row : Row) : jsval :=
  if nullish (prop row "marcus_error")
  then
    let joined := String.concat " · " (missing_labels row) in
    if bool_decide (joined = "") then VNull else VStr joined
  else prop row "marcus_error".

(** The cell shows the lit indicator with its tooltip, not the dimmed one. *)
Definition shows_error (row : Row) : bool := negb (falsy (errText row)).

(** [l.indexOf(x)], with [None] for [-1]. *)
Fixpoint indexOf (x : string) (l : list string) : option nat :=
  match l with
  | [] => None
  | y :: rest => if bool_decide (y = x) then Some 0%nat else S <$> indexOf x rest
  end.

(** [l.splice(i, 0, x)] *)
Definition splice_in (i : nat) (x : string) (l : list string) : list string :=
  take i l ++ x :: drop i l.

(** [modalDragOver]: the staged order after the event. The handler returns
    before [setStagedOrder] when nothing is dragged or the dragged column is
    the one under the pointer. [l.splice(from, 1)] is [delete from l]. *)
Definition modalDragOver (stagedDragged : option string) (id : string)
    (prev : list string) : list string :=
  match stagedDragged with
  | None => prev
  | Some dragged =>
      if (bool_decide (dragged = "") || bool_decide (dragged = id))%bool then prev
      else
        match indexOf dragged prev, indexOf id prev with
        | Some from, Some to => splice_in to dragged (delete from prev)
        | _, _ => prev
        end
  end.

End Ui.

(** ** [CalendarPicker] *)

Module Calendar.

(** The month shown, as [(vY, vM)] with [vM] counted from 0. *)
Definition prevM (v : Z * Z) : Z * Z :=
  let '(vY, vM) := v in
  if bool_decide (vM = 0) then (vY - 1, 11) else (vY, vM - 1).

Definition nextM (v : Z * Z) : Z * Z :=
  let '(vY, vM) := v in
  if bool_decide (vM = 11) then (vY + 1, 0) else (vY, vM + 1).

(** [s.padStart(2, '0')] *)
Definition padStart2 (s : string) : string :=
  match String.length s with
  | O => "00"
  | S O => String "0" s
  | _ => s
  end.

(** [fmt(y, m, d)] *)
Definition fmt (y m d : Z) : string :=
  pretty y +:+ "-" +:+ padStart2 (pretty (m + 1)) +:+ "-" +:+ padStart2 (pretty d).

(** [s.slice(0, 10)], as the date cell and the anchor take it. *)
Definition slice10 (s : string) : string := String.substring 0 10 s.

(** [(new Date(vY, vM, 1).getDay() + 6) % 7] for the weekday [getDay] of the
    first of the month, Sunday being 0. *)
Definition week_offset (getDay : Z) : Z := (getDay + 6) mod 7.

(** [while (cells.length % 7 !== 0) cells.push(null)], run for at most
    [fuel] rounds. *)
Fixpoint pad_week (fuel : nat) (cells : list (option Z)) : list (option Z) :=
  if bool_decide (Z.of_nat (length cells) mod 7 = 0) then cells
  else
    match fuel with
    | O => cells
    | S fuel => pad_week fuel (cells ++ [None])
    end.

(** The cells of the month grid, for the number of days of the month and
    the weekday of its first day, both read from [Date]. *)
Definition cells (daysInM getDay : Z) : list (option Z) :=
  pad_week 7 (replicate (Z.to_nat (week_offset getDay)) None
              ++ (Some <$> seqZ 1 daysInM)).

End Calendar.

(** ** [Table]: the cell edit *)

Module TableEdit.

Import App.

(** [data.find(r => r.id === rowId)] *)
Definition find_row (rowId : jsval) (data : list Row) : option Row :=
  List.find (fun r => strict_eq (row_id r) rowId) data.

(** [{ ...data.find(...), [columnId]: value }]; spreading [undefined] gives
    no property. *)
Definition updatedRow (data : list Row) (rowId : jsval) (columnId : string)
    (value : jsval) : Row :=
  with_prop (default ∅ (find_row rowId data)) columnId value.

(** [updateData] up to its [await]: [data] is the array of the render the
    handler closed over, [prev] the one [setData] passes to the updater. *)
Definition updateData_begin (data prev : list Row) (rowId : jsval)
    (columnId : string) (value : jsval) : list Row * list request :=
  let updated := updatedRow data rowId columnId value in
  (List.map (fun r => if strict_eq (row_id r) rowId then updated else r) prev,
   [PatchRow rowId columnId value]).

(** After the [await]: [axios.patch] rejects on a failed request and the
    function ends there; otherwise it emits [cell-update] with the row. *)
Definition updateData_resume (data : list Row) (rowId : jsval) (columnId : string)
    (value : jsval) (patched : bool) : list (string * Row) :=
  if patched then [("cell-update", updatedRow data rowId columnId value)] else [].

End TableEdit.

(** ** The BFF: [parseCSV] and the seed import *)

Module Csv.

(** The double quote character. *)
Definition dquote : ascii := ascii_of_nat 34.

Definition is_newline (c : ascii) : bool :=
  (Ascii.eqb c (ascii_of_nat 10) || Ascii.eqb c (ascii_of_nat 13))%bool.

(** [s.trim()] on the white space [Bff.is_space] knows. *)
Fixpoint trim_end (s : string) : string :=
  match s with
  | EmptyString => EmptyString
  | String c r =>
      match trim_end r with
      | EmptyString => if Bff.is_space c then EmptyString else String c EmptyString
      | r' => String c r'
      end
  end.

Definition trim (s : string) : string := trim_end (Bff.trim_start s).

(** The variables of the scanning loop. *)
Record scan_state := mkScan {
  rows : list (list string);
  currentRow : list string;
  currentField : string;
  inQuotes : bool
}.

Definition scan_start : scan_state := mkScan [] [] "" false.

(** [currentField += c] *)
Definition add_char (c : ascii) (st : scan_state) : scan_state :=
  mkScan (rows st) (currentRow st) (currentField st +:+ String c "") (inQuotes st).

(** [currentRow.push(currentField.trim()); currentField = ''] *)
Definition end_field (st : scan_state) : scan_state :=
  mkScan (rows st) (currentRow st ++ [trim (currentField st)]) "" (inQuotes st).

(** The two [if]s on a line break outside quotes, and the two after the
    loop. *)
Definition end_line (st : scan_state) : scan_state :=
  let st :=
    if (negb (bool_decide (currentField st = "")) || negb (bool_decide (currentRow st = [])))%bool
    then end_field st else st in
  if bool_decide (currentRow st = []) then st
  else mkScan (rows st ++ [currentRow st]) [] (currentField st) (inQuotes st).

Definition toggle (st : scan_state) : scan_state :=
  mkScan (rows st) (currentRow st) (currentField st) (negb (inQuotes st)).

(** The [for] loop over the characters; [i++] inside the body is the call
    on the tail of the tail. *)
Fixpoint scan (s : string) (st : scan_state) : scan_state :=
  match s with
  | EmptyString => st
  | String c rest =>
      if Ascii.eqb c dquote then
        match rest with
        | String c' rest' =>
            if (inQuotes st && Ascii.eqb c' dquote)%bool
            then scan rest' (add_char dquote st)
            else scan rest (toggle st)
        | EmptyString => scan rest (toggle st)
        end
      else if (Ascii.eqb c "," && negb (inQuotes st))%bool then
        scan rest (end_field st)
      else if (is_newline c && negb (inQuotes st))%bool then
        let st := end_line st in
        match rest with
        | String c' rest' =>
            if (Ascii.eqb c (ascii_of_nat 13) && Ascii.eqb c' (ascii_of_nat 10))%bool
            then scan rest' st
            else scan rest st
        | EmptyString => scan rest st
        end
      else scan rest (add_char c st)
  end.

(** The rows the loop and the two [if]s after it leave in [rows]. *)
Definition parse_rows (csvContent : string) : list (list string) :=
  rows (end_line (scan csvContent scan_start)).

(** [row[header] = v] on a fresh object literal: assigning a string to
    [__proto__] creates no property. *)
Definition set_key (row : App.Row) (header : string) (v : jsval) : App.Row :=
  if bool_decide (header = "__proto__") then row else <[header:=v]> row.

(** [rows[i][idx] || ''] *)
Definition cell_or_empty (fields : list string) (idx : nat) : string :=
  default "" (fields !! idx).

(** [headers.forEach((header, idx) => { row[header] = ... })] *)
Definition make_row (headers fields : list string) : App.Row :=
  foldl (fun row hi => set_key row hi.2 (VStr (cell_or_empty fields hi.1)))
        ∅ (imap (fun idx header => (idx, header)) headers).

Definition parseCSV (csvContent : string) : list App.Row :=
  match parse_rows csvContent with
  | header :: second :: others =>
      let headers := (fun h => Bff.column_of (trim h)) <$> header in
      make_row headers <$> (second :: others)
  | _ => []
  end.

(** The columns of the INSERT in [setupDb], in the statement's order. *)
Definition INSERT_COLUMNS : list string :=
  [ "tasks_name"; "compose"; "link_to_ad"; "stage"; "task_owner"; "deadline";
    "team"; "ai_services"; "purchases"; "platform"; "product"; "localization";
    "size"; "concept"; "status"; "compose_creator"; "compose_done_date";
    "attachments"; "impressions"; "test_status" ].

(** [row.tasks_name || '', row.compose || '', ...] *)
Definition insert_values (row : App.Row) : list jsval :=
  (fun c => if Ui.falsy (prop row c) then VStr "" else prop row c) <$> INSERT_COLUMNS.

End Csv.

(** ** Conditions on the events of a session *)

Module Events.

Import App Session.

(** A parsed page response holds at most one page of rows, as the BFF's
    [LIMIT] makes it. *)
Definition page_sized (e : event) : Prop :=
  match e with
  | FetchSettled _ (Parsed body) =>
      Z.of_nat (length (default [] (j_data body))) <= PAGE_SIZE
  | _ => True
  end.

(** The event is the settling of the read request for [page]. *)
Definition settles (page : Z) (e : event) : bool :=
  match e with
  | FetchSettled p _ => bool_decide (p = page)
  | _ => false
  end.

(** What the loop of [fetchPage] stores for a row. *)
Definition stored (row : Row) : Row :=
  match DEMO_ERRORS (row_id row) with
  | Some e => with_prop row "marcus_error" (VStr e)
  | None => row
  end.

End Events.

(** ** The [errors] state and the effect that refreshes it *)

Module Summary.

Import App Session.

(** The session with the [errors] state of the component,
    [useState<ErrorItem[]>([])], and the [loadedCount] the effect saw when
    it ran last: the effect has [loadedCount] as its only dependency, so
    it is due again exactly when [loadedCount] differs from that value. *)
Record view := mkView {
  world_of : world;
  errors : list Ui.ErrorItem;
  seen : Z
}.

(** After the first render: [errors] is empty and the effect has run on a
    [loadedCount] of 0, where it returns early. *)
Definition start : view := mkView Session.start [] 0.

(** A turn of the event loop runs a handler of the session, or the effect
    on [loadedCount]. *)
Inductive action :=
  | Act (e : event)
  | Flush.

(** The effect reads the store as it is when it runs; when it returns
    early, [errors] stays as it was. Nothing but the effect calls
    [setErrors]. *)
Definition step (v : view) (a : action) : option view :=
  match a with
  | Act e =>
      match Session.step (world_of v) e with
      | Some w => Some (mkView w (errors v) (seen v))
      | None => None
      end
  | Flush =>
      let s := app (world_of v) in
      if bool_decide (loadedCount s = seen v) then None
      else Some (mkView (world_of v)
                        (default (errors v) (Ui.errors_effect s))
                        (loadedCount s))
  end.

Fixpoint run (v : view) (acts : list action) : option view :=
  match acts with
  | [] => Some v
  | a :: rest =>
      match step v a with
      | Some v' => run v' rest
      | None => None
      end
  end.

End Summary.

(** ** Strings and requests on the wire *)

Module Text.

Import App.

(** Every character of the string satisfies the test. *)
Fixpoint all_chars (P : ascii -> bool) (s : string) : bool :=
  match s with
  | EmptyString => true
  | String c r => P c && all_chars P r
  end.

Definition is_digit (c : ascii) : bool :=
  let n := nat_of_ascii c in (Nat.leb 48 n && Nat.leb n 57)%bool.

Definition is_upper (c : ascii) : bool :=
  let n := nat_of_ascii c in (Nat.leb 65 n && Nat.leb n 90)%bool.

(** The two query parameters of
    [`${API_BASE}/api/rows?limit=${PAGE_SIZE}&offset=${offset}`]. *)
Definition query_of (limit offset : Z) : option string * option string :=
  (Some (pretty limit), Some (pretty offset)).

(** A field that needs no quoting in a CSV file and that [trim] leaves
    alone: no quote, comma or line break, no white space at either end,
    and every character in the ASCII range, where [Bff.is_space] is all the
    white space [trim] removes. *)
Definition plain_char (c : ascii) : bool :=
  (negb (Ascii.eqb c Csv.dquote || Ascii.eqb c "," || Csv.is_newline c)
   && Nat.ltb (nat_of_ascii c) 128)%bool.

Definition plain (f : string) : bool :=
  all_chars plain_char f && bool_decide (Csv.trim f = f).

(** The line breaks of a text file. *)
Definition LF : string := String (ascii_of_nat 10) "".
Definition CR : string := String (ascii_of_nat 13) "".
Definition CRLF : string := String (ascii_of_nat 13) (String (ascii_of_nat 10) "").

Definition line_breaks : list string := [LF; CR; CRLF].

(** A CSV text: fields joined by commas, lines joined by a line break. *)
Definition render (nl : string) (rows : list (list string)) : string :=
  String.concat nl (String.concat "," <$> rows).

Definition starts_with_lf (s : string) : bool :=
  match s with
  | String c _ => Ascii.eqb c (ascii_of_nat 10)
  | EmptyString => false
  end.

Definition starts_with_dquote (s : string) : bool :=
  match s with
  | String c _ => Ascii.eqb c Csv.dquote
  | EmptyString => false
  end.

(** A quoted field of a CSV text: the content between two quotes, each
    quote of the content doubled. *)
Fixpoint escape (q : string) : string :=
  match q with
  | EmptyString => EmptyString
  | String c r =>
      if Ascii.eqb c Csv.dquote then String c (String c (escape r))
      else String c (escape r)
  end.

Definition quoted (q : string) : string :=
  String Csv.dquote (escape q +:+ String Csv.dquote EmptyString).

(** A line of a CSV text that the parser keeps: it has a field, and is not
    the empty line. *)
Definition kept_line (r : list string) : Prop :=
  r <> [] /\ r <> [EmptyString] /\ Forall (fun f => plain f = true) r.

End Text.

(** ** More sample data *)

Module Samples.

Import App.

Definition row_blank : Row := {[ "id" := VNum 5; "status" := VStr "" ]}.

Definition row_full : Row :=
  {[ "id" := VNum 7; "status" := VStr "Done"; "deadline" := VStr "2026-01-31";
     "tasks_name" := VStr "Task_7" ]}.

(** A row with every field, whose id has a demo error. *)
Definition row_complete : Row :=
  {[ "id" := VNum 2; "status" := VStr "Done"; "deadline" := VStr "2026-01-31";
     "tasks_name" := VStr "Task_2" ]}.

(** The component after a page with that one row. *)
Definition shown : state :=
  fetchPage_resume init 0 (Parsed (mkJson (Some [row_complete]) (Some 1))).

Definition order5 : list string := ["a"; "b"; "c"; "d"; "e"].

(** The rows of a [Table]. *)
Definition table_rows : list Row := [Examples.row_a; Examples.row_b; row_full].

Definition csv_text : string :=
  String.concat (String (ascii_of_nat 10) "")
    ["Tasks Name,Status"; "Task_1,Done"; "Task_2,In Progress"].

(** A page with one complete row is loaded, the summary is refreshed, and
    the user then clears the task name of that row. *)
Definition clearing : list Summary.action :=
  [ Summary.Act Session.Mount;
    Summary.Act (Session.FetchSettled 0 (Parsed (mkJson (Some [row_full]) (Some 1))));
    Summary.Flush;
    Summary.Act (Session.UpdateCell (VNum 7) "tasks_name" (VStr "")) ].

Definition csv_lines : list (list string) :=
  [["Tasks Name"; "Status"]; ["Task_1"; "Done"]; ["Task_2"; "In Progress"]].

End Samples.

(** * Properties *)

Import App Session.

(** ** The realtime handler *)

Lemma on_cell_updated_known (s : state) (updatedRow : Row) (idx : Z) :
  idToIdxRef s !! row_id updatedRow = Some idx ->
  on_cell_updated s updatedRow
  = forceUpdate (set_rows (<[idx:=updatedRow]> (rowsMapRef s)) s).
Proof. intros H. unfold on_cell_updated. by rewrite H. Qed.

Lemma on_cell_updated_unknown (s : state) (updatedRow : Row) :
  idToIdxRef s !! row_id updatedRow = None ->
  on_cell_updated s updatedRow = s.
Proof. intros H. unfold on_cell_updated. by rewrite H. Qed.

Lemma on_cell_updated_ids (s : state) (updatedRow : Row) :
  idToIdxRef (on_cell_updated s updatedRow) = idToIdxRef s.
Proof. unfold on_cell_updated. by destruct (idToIdxRef s !! _). Qed.

Lemma updateCell_begin_ids (s : state) (rowId : jsval) (field : string) (value : jsval) :
  idToIdxRef (updateCell_begin s rowId field value).1 = idToIdxRef s.
Proof.
  unfold updateCell_begin. simpl.
  destruct (idToIdxRef s !! rowId) as [idx|]; [|done].
  by destruct (rowsMapRef s !! idx).
Qed.

(** C3. When a relayed row arrives and its identity is mapped to a position,
    the entry at that position becomes the incoming row, whatever was there,
    also right after an optimistic patch of that row; the other positions
    and the reverse map are untouched. When the identity is not mapped, the
    whole state is left as it was. *)
Theorem cell_updated_reconciles (s : state) (updatedRow : Row) :
  (forall idx : Z,
      idToIdxRef s !! row_id updatedRow = Some idx ->
      rowsMapRef (on_cell_updated s updatedRow) !! idx = Some updatedRow
      /\ (forall p : Z, p <> idx ->
            rowsMapRef (on_cell_updated s updatedRow) !! p = rowsMapRef s !! p)
      /\ idToIdxRef (on_cell_updated s updatedRow) = idToIdxRef s
      /\ (forall (field : string) (value : jsval),
            rowsMapRef
              (on_cell_updated
                 (updateCell_begin s (row_id updatedRow) field value).1 updatedRow) !! idx
            = Some updatedRow))
  /\ (idToIdxRef s !! row_id updatedRow = None ->
      on_cell_updated s updatedRow = s).
Proof.
  split.
  - intros idx Hidx. repeat split.
    + rewrite (on_cell_updated_known _ _ _ Hidx). simpl. apply lookup_insert_eq.
    + intros p Hp. rewrite (on_cell_updated_known _ _ _ Hidx). simpl.
      by apply lookup_insert_ne.
    + apply on_cell_updated_ids.
    + intros field value.
      rewrite (on_cell_updated_known _ _ idx).
      * simpl. apply lookup_insert_eq.
      * by rewrite updateCell_begin_ids.
  - apply on_cell_updated_unknown.
Qed.

(** The same rule in the [Table] component: rows of another identity are
    kept, and a row of the incoming identity becomes the incoming row. *)
Lemma table_handler_lookup (prev : list Row) (updatedRow : Row) (i : nat) (row : Row) :
  prev !! i = Some row ->
  Table.on_cell_updated prev updatedRow !! i
  = Some (if decide (row_id row = row_id updatedRow) then updatedRow else row).
Proof.
  intros H. unfold Table.on_cell_updated.
  change (List.map ?f prev) with (f <$> prev).
  rewrite list_lookup_fmap, H. simpl. unfold strict_eq.
  by destruct (decide (row_id row = row_id updatedRow));
    [rewrite bool_decide_eq_true_2|rewrite bool_decide_eq_false_2].
Qed.

Lemma table_handler_unknown (prev : list Row) (updatedRow : Row) :
  Forall (fun row => row_id row <> row_id updatedRow) prev ->
  Table.on_cell_updated prev updatedRow = prev.
Proof.
  induction 1 as [|row rest Hrow _ IH]; [done|].
  unfold Table.on_cell_updated in *. simpl. rewrite IH. unfold strict_eq.
  by rewrite bool_decide_eq_false_2.
Qed.

(** C7. Delivering the same row twice leaves the store (both maps), the
    ledger, the total and the loaded count as one delivery leaves them;
    only the render counter behind [forceUpdate] moves on. *)
Theorem cell_updated_idempotent (s : state) (updatedRow : Row) :
  let once := on_cell_updated s updatedRow in
  let twice := on_cell_updated once updatedRow in
  store twice = store once
  /\ fetchedPagesRef twice = fetchedPagesRef once
  /\ fetchingPagesRef twice = fetchingPagesRef once
  /\ total twice = total once
  /\ loadedCount twice = loadedCount once.
Proof.
  simpl. unfold store.
  destruct (idToIdxRef s !! row_id updatedRow) as [idx|] eqn:Hidx.
  - rewrite (on_cell_updated_known s _ _ Hidx).
    rewrite (on_cell_updated_known _ _ idx); [|done].
    simpl. by rewrite insert_insert_eq.
  - by rewrite !(on_cell_updated_unknown s _ Hidx).
Qed.

Lemma table_handler_idempotent (prev : list Row) (updatedRow : Row) :
  Table.on_cell_updated (Table.on_cell_updated prev updatedRow) updatedRow
  = Table.on_cell_updated prev updatedRow.
Proof.
  unfold Table.on_cell_updated. rewrite List.map_map.
  apply List.map_ext. intros row. unfold strict_eq.
  destruct (decide (row_id row = row_id updatedRow)) as [He|Hne].
  - rewrite (bool_decide_eq_true_2 _ He). by rewrite bool_decide_eq_true_2.
  - by rewrite !(bool_decide_eq_false_2 _ Hne).
Qed.

Lemma cell_updated_reconciles_witness :
  rowsMapRef (on_cell_updated (app Examples.loaded) Examples.row_a_done) !! 0
  = Some Examples.row_a_done.
Proof.
  assert (Hidx : idToIdxRef (app Examples.loaded) !! row_id Examples.row_a_done = Some 0)
    by (vm_compute; reflexivity).
  exact (proj1 (proj1 (cell_updated_reconciles _ _) 0 Hidx)).
Defined.

(** ** The optimistic cell edit *)

Lemma prop_with_prop (o : obj) (k : string) (v : jsval) :
  prop (with_prop o k v) k = v.
Proof. unfold prop, with_prop. by rewrite lookup_insert_eq. Qed.

Lemma prop_with_prop_ne (o : obj) (k k' : string) (v : jsval) :
  k <> k' -> prop (with_prop o k v) k' = prop o k'.
Proof. intros H. unfold prop, with_prop. by rewrite lookup_insert_ne. Qed.

Lemma fill_rows_mapped_filled (rows : list Row) (idx : Z) (s : state) :
  mapped_filled s -> mapped_filled (fill_rows idx rows s).
Proof.
  revert idx s. induction rows as [|row rest IH]; intros idx s Hm; [done|].
  simpl. apply IH. intros id p. simpl. intros Hp.
  destruct (decide (p = idx)) as [->|Hne].
  - by rewrite lookup_insert_eq.
  - rewrite lookup_insert_ne by done.
    rewrite lookup_insert_ne in Hp by (intros Heq; rewrite Heq, lookup_insert_eq in Hp; congruence).
    by apply (Hm id).
Qed.

Lemma fetchPage_begin_rows (s : state) (page : Z) :
  rowsMapRef (fetchPage_begin s page).1 = rowsMapRef s
  /\ idToIdxRef (fetchPage_begin s page).1 = idToIdxRef s.
Proof.
  unfold fetchPage_begin.
  destruct (bool_decide (page ∈ fetchedPagesRef s)); [done|].
  by destruct (bool_decide (page ∈ fetchingPagesRef s)).
Qed.

Lemma fetch_each_rows (pages : list Z) (s : state) :
  rowsMapRef (fetch_each pages s).1 = rowsMapRef s
  /\ idToIdxRef (fetch_each pages s).1 = idToIdxRef s.
Proof.
  revert s. induction pages as [|p rest IH]; intros s; [done|].
  simpl. destruct (fetchPage_begin_rows s p) as [H1 H2].
  destruct (fetchPage_begin s p) as [s1 r1]. simpl in H1, H2.
  specialize (IH s1). destruct (fetch_each rest s1) as [s2 r2].
  simpl in *. destruct IH as [-> ->]. done.
Qed.

Lemma viewport_effect_rows (s : state) (virtualRows : list Z) :
  rowsMapRef (viewport_effect s virtualRows).1 = rowsMapRef s
  /\ idToIdxRef (viewport_effect s virtualRows).1 = idToIdxRef s.
Proof.
  unfold viewport_effect.
  destruct (page_window (total s) virtualRows) as [[sp ep]|]; [|done].
  apply fetch_each_rows.
Qed.

Lemma step_mapped_filled (w w' : world) (e : event) :
  mapped_filled (app w) -> step w e = Some w' -> mapped_filled (app w').
Proof.
  intros Hm Hstep.
  destruct e as [|vr|pg o|row|rowId field value|o]; unfold step in Hstep.
  - destruct (fetchPage_begin_rows (app w) 0) as [H1 H2].
    destruct (fetchPage_begin (app w) 0) as [s rs]. injection Hstep as <-.
    unfold mapped_filled. simpl in *. by rewrite H1, H2.
  - destruct (viewport_effect_rows (app w) vr) as [H1 H2].
    destruct (viewport_effect (app w) vr) as [s rs]. injection Hstep as <-.
    unfold mapped_filled. simpl in *. by rewrite H1, H2.
  - destruct (bool_decide (pg ∈ inflight w)); [|done]. injection Hstep as <-.
    simpl. destruct o as [|body]; [done|].
    apply (fill_rows_mapped_filled (default [] (j_data body)) (pg * PAGE_SIZE)) in Hm.
    exact Hm.
  - injection Hstep as <-. simpl. unfold on_cell_updated.
    destruct (idToIdxRef (app w) !! row_id row) as [idx|]; [|done].
    intros id p Hp. simpl in *. apply lookup_insert_is_Some'.
    right. by apply (Hm id).
  - unfold updateCell_begin in Hstep. injection Hstep as <-. simpl.
    destruct (idToIdxRef (app w) !! rowId) as [idx|]; [|done].
    destruct (rowsMapRef (app w) !! idx) as [cur|]; [|done].
    intros id p Hp. simpl in *. apply lookup_insert_is_Some'.
    right. by apply (Hm id).
  - destruct (writes w) as [|n]; [done|].
    assert (Hr : updateCell_resume (app w) o = (app w, [])) by by destruct o.
    rewrite Hr in Hstep. by injection Hstep as <-.
Qed.

Lemma run_mapped_filled (es : list event) (w w' : world) :
  mapped_filled (app w) -> run w es = Some w' -> mapped_filled (app w').
Proof.
  revert w. induction es as [|e es IH]; intros w Hm Hrun; simpl in Hrun.
  - by injection Hrun as <-.
  - destruct (step w e) as [w1|] eqn:E; [|done].
    apply (IH w1); [|done]. by apply (step_mapped_filled w w1 e).
Qed.

(** C4. In every session, when the user commits an edit of a row whose
    identity is mapped to a position, that position is filled, the
    handler's synchronous segment patches its entry with the new value and
    ends by issuing the one PATCH request; however that request settles,
    the continuation changes nothing in the component and issues no further
    request. *)
Theorem updateCell_optimistic
    (es : list event) (w : world) (rowId : jsval) (field : string) (value : jsval)
    (idx : Z) (o : write_outcome) :
  run start es = Some w ->
  idToIdxRef (app w) !! rowId = Some idx ->
  exists (cur : Row) (w1 w2 : world),
    rowsMapRef (app w) !! idx = Some cur
    /\ step w (UpdateCell rowId field value) = Some w1
    /\ rowsMapRef (app w1) !! idx = Some (with_prop cur field value)
    /\ prop (with_prop cur field value) field = value
    /\ (forall p : Z, p <> idx -> rowsMapRef (app w1) !! p = rowsMapRef (app w) !! p)
    /\ idToIdxRef (app w1) = idToIdxRef (app w)
    /\ sent w1 = sent w ++ [PatchRow rowId field value]
    /\ step w1 (WriteSettled o) = Some w2
    /\ app w2 = app w1
    /\ sent w2 = sent w1.
Proof.
  intros Hrun Hidx.
  assert (Hm : mapped_filled (app w)).
  { apply (run_mapped_filled es start w); [|done].
    intros id p H. simpl in H. by rewrite lookup_empty in H. }
  destruct (Hm rowId idx Hidx) as [cur Hcur].
  exists cur. eexists. eexists. split; [done|]. split; [reflexivity|].
  unfold updateCell_begin. rewrite Hidx, Hcur. simpl.
  split; [apply lookup_insert_eq|].
  split; [apply prop_with_prop|].
  split; [intros p Hp; by apply lookup_insert_ne|].
  split; [reflexivity|].
  split; [reflexivity|].
  destruct o; simpl; unfold issue; simpl; by rewrite ?app_nil_r.
Qed.

Lemma updateCell_optimistic_witness :
  exists (cur : Row) (w1 w2 : world),
    rowsMapRef (app Examples.loaded) !! 0 = Some cur
    /\ step Examples.loaded (UpdateCell (VNum 1) "status" (VStr "Done")) = Some w1
    /\ rowsMapRef (app w1) !! 0 = Some (with_prop cur "status" (VStr "Done"))
    /\ prop (with_prop cur "status" (VStr "Done")) "status" = VStr "Done"
    /\ (forall p : Z, p <> 0 ->
          rowsMapRef (app w1) !! p = rowsMapRef (app Examples.loaded) !! p)
    /\ idToIdxRef (app w1) = idToIdxRef (app Examples.loaded)
    /\ sent w1 = sent Examples.loaded ++ [PatchRow (VNum 1) "status" (VStr "Done")]
    /\ step w1 (WriteSettled WriteRejected) = Some w2
    /\ app w2 = app w1
    /\ sent w2 = sent w1.
Proof.
  assert (Hrun : run start Examples.loading = Some Examples.loaded)
    by (vm_compute; reflexivity).
  assert (Hidx : idToIdxRef (app Examples.loaded) !! VNum 1 = Some 0)
    by (vm_compute; reflexivity).
  exact (updateCell_optimistic Examples.loading Examples.loaded (VNum 1) "status"
           (VStr "Done") 0 WriteRejected Hrun Hidx).
Defined.

Example optimistic_value_survives_failure :
  match run Examples.loaded [UpdateCell (VNum 1) "status" (VStr "Done");
                             WriteSettled WriteRejected] with
  | Some w =>
      rowsMapRef (app w) !! 0 = Some Examples.row_a_done
      /\ sent w = [get_for 0; PatchRow (VNum 1) "status" (VStr "Done")]
      /\ writes w = 0%nat
  | None => False
  end.
Proof. vm_compute. repeat split; reflexivity. Qed.

(** An edit of an identity that is not mapped patches nothing, and still
    sends the write. *)
Lemma updateCell_unmapped (s : state) (rowId : jsval) (field : string) (value : jsval) :
  idToIdxRef s !! rowId = None ->
  updateCell_begin s rowId field value
  = (close_editors s, [PatchRow rowId field value]).
Proof. intros H. unfold updateCell_begin. by rewrite H. Qed.

(** ** The fetch ledger *)

Lemma filter_ext_elem {A : Type} (P Q : A -> Prop)
    `{!forall x, Decision (P x)} `{!forall x, Decision (Q x)} (l : list A) :
  (forall x, x ∈ l -> (P x <-> Q x)) -> filter P l = filter Q l.
Proof.
  induction l as [|x l IH]; intros Hall; [done|].
  rewrite !filter_cons.
  assert (HPQ : P x <-> Q x) by (apply Hall; left).
  rewrite IH by (intros y Hy; apply Hall; by right).
  destruct (decide (P x)), (decide (Q x)); tauto.
Qed.

Lemma fetchPage_begin_tracked (s : state) (page : Z) :
  ~ untracked s page -> fetchPage_begin s page = (s, []).
Proof.
  unfold untracked, fetchPage_begin. intros H.
  destruct (decide (page ∈ fetchedPagesRef s)).
  - by rewrite bool_decide_eq_true_2.
  - rewrite bool_decide_eq_false_2 by done.
    rewrite bool_decide_eq_true_2; [done|].
    destruct (decide (page ∈ fetchingPagesRef s)); tauto.
Qed.

Lemma fetchPage_begin_untracked (s : state) (page : Z) :
  untracked s page ->
  fetchPage_begin s page
  = (set_fetching ({[page]} ∪ fetchingPagesRef s) s, [get_for page]).
Proof.
  unfold untracked, fetchPage_begin. intros [H1 H2].
  by rewrite !bool_decide_eq_false_2.
Qed.

(** What a run of calls does: exactly the untracked pages among them are
    marked in flight and requested, in order. *)
Lemma fetch_each_spec (pages : list Z) (s : state) :
  NoDup pages ->
  fetch_each pages s
  = (set_fetching (list_to_set (filter (untracked s) pages) ∪ fetchingPagesRef s) s,
     get_for <$> filter (untracked s) pages).
Proof.
  revert s. induction pages as [|p rest IH]; intros s Hnd.
  - simpl. destruct s. unfold set_fetching. simpl. f_equal. f_equal. set_solver.
  - apply NoDup_cons in Hnd as [Hp Hnd]. simpl.
    rewrite filter_cons.
    destruct (decide (untracked s p)) as [Hu|Hu].
    + rewrite (fetchPage_begin_untracked _ _ Hu).
      rewrite (IH _ Hnd).
      assert (Hf : filter (untracked (set_fetching ({[p]} ∪ fetchingPagesRef s) s)) rest
                   = filter (untracked s) rest).
      { apply filter_ext_elem. intros q Hq. unfold untracked. simpl.
        assert (q <> p) by (intros ->; done). set_solver. }
      rewrite Hf. simpl. f_equal.
      destruct s. unfold set_fetching. simpl. f_equal. set_solver.
    + rewrite (fetchPage_begin_tracked _ _ Hu). by rewrite (IH _ Hnd).
Qed.

Lemma fetchPage_begin_each (s : state) (page : Z) :
  fetchPage_begin s page = fetch_each [page] s.
Proof.
  simpl. destruct (fetchPage_begin s page) as [s1 r1]. by rewrite app_nil_r.
Qed.

#[global] Instance get_for_inj : Inj (=) (=) get_for.
Proof. intros p q H. unfold get_for, PAGE_SIZE in H. injection H. lia. Qed.

Lemma pages_of_get_for (pages : list Z) : pages_of (get_for <$> pages) = pages.
Proof.
  induction pages as [|p rest IH]; [done|].
  rewrite fmap_cons.
  change (pages_of (get_for p :: (get_for <$> rest)))
    with ((p * PAGE_SIZE) / PAGE_SIZE :: pages_of (get_for <$> rest)).
  rewrite IH. f_equal. unfold PAGE_SIZE. by rewrite Z.div_mul.
Qed.

Lemma window_arith (total fi li p : Z) :
  let sp := Z.max 0 (fi / PAGE_SIZE - 1) in
  let ep := Z.min (li / PAGE_SIZE + 2) (ceil_div total PAGE_SIZE - 1) in
  sp <= p < sp + (ep - sp + 1)
  <-> 0 <= p /\ p * PAGE_SIZE < total
      /\ fi - PAGE_SIZE < (p + 1) * PAGE_SIZE /\ p * PAGE_SIZE <= li + 2 * PAGE_SIZE.
Proof.
  unfold ceil_div, PAGE_SIZE. simpl.
  pose proof (Z.div_mod fi 150 ltac:(lia)).
  pose proof (Z.mod_pos_bound fi 150 ltac:(lia)).
  pose proof (Z.div_mod li 150 ltac:(lia)).
  pose proof (Z.mod_pos_bound li 150 ltac:(lia)).
  pose proof (Z.div_mod (- total) 150 ltac:(lia)).
  pose proof (Z.mod_pos_bound (- total) 150 ltac:(lia)).
  lia.
Qed.

(** ** The viewport prefetch effect *)

Lemma viewport_effect_window (s : state) (fi : Z) (rest : list Z) :
  total s <> 0 ->
  viewport_effect s (fi :: rest)
  = let li := List.last (fi :: rest) fi in
    let sp := Z.max 0 (fi / PAGE_SIZE - 1) in
    let ep := Z.min (li / PAGE_SIZE + 2) (ceil_div (total s) PAGE_SIZE - 1) in
    fetch_each (seqZ sp (ep - sp + 1)) s.
Proof.
  intros Ht. unfold viewport_effect, page_window.
  by rewrite bool_decide_eq_false_2.
Qed.

Lemma viewport_effect_idle (s : state) (virtualRows : list Z) :
  virtualRows = [] \/ total s = 0 -> viewport_effect s virtualRows = (s, []).
Proof.
  unfold viewport_effect, page_window. intros [->|Ht]; [done|].
  destruct virtualRows; [done|]. by rewrite bool_decide_eq_true_2.
Qed.

(** C5, as the code has it. For a first visible position [fi] and a last
    one [li], the effect requests a page exactly when the table is not
    empty, the page's range lies within [0 .. total), meets the positions
    from [fi - PAGE_SIZE] to [li + 2 * PAGE_SIZE] (one page before the
    first visible page, two pages after the last), and the ledger holds
    the page neither as fetched nor as in flight. It requests each such
    page once and sends nothing else; with no visible row it sends
    nothing. *)
Theorem viewport_effect_pages (s : state) (fi : Z) (rest : list Z) (p : Z) :
  let virtualRows := fi :: rest in
  let li := List.last virtualRows fi in
  let issued := (viewport_effect s virtualRows).2 in
  (get_for p ∈ issued <->
     total s <> 0 /\ 0 <= p /\ p * PAGE_SIZE < total s
     /\ fi - PAGE_SIZE < (p + 1) * PAGE_SIZE
     /\ p * PAGE_SIZE <= li + 2 * PAGE_SIZE
     /\ untracked s p)
  /\ NoDup issued
  /\ (forall r : request, r ∈ issued -> exists q : Z, r = get_for q)
  /\ (viewport_effect s []).2 = [].
Proof.
  simpl. destruct (decide (total s = 0)) as [Ht|Ht].
  - rewrite (viewport_effect_idle s (fi :: rest)) by (by right). simpl.
    split; [|split; [|split]].
    + split; [intros Hin; by apply not_elem_of_nil in Hin|tauto].
    + apply NoDup_nil_2.
    + intros r Hin. by apply not_elem_of_nil in Hin.
    + done.
  - rewrite (viewport_effect_window s fi rest Ht). simpl.
    rewrite fetch_each_spec by apply NoDup_seqZ. simpl.
    split; [|split; [|split]].
    + split.
      * intros Hin. apply (list_elem_of_fmap_inj get_for) in Hin.
        apply list_elem_of_filter in Hin as [Hu Hin].
        apply elem_of_seqZ in Hin. apply window_arith in Hin. tauto.
      * intros (_ & H0 & H1 & H2 & H3 & Hu).
        apply (list_elem_of_fmap_inj get_for). apply list_elem_of_filter.
        split; [done|]. apply elem_of_seqZ. apply window_arith. tauto.
    + apply (NoDup_fmap_2 get_for), NoDup_filter, NoDup_seqZ.
    + intros r Hin. apply list_elem_of_fmap in Hin as (q & -> & _). by exists q.
    + done.
Qed.

(** C5, as stated, fails: with the first page of a table of 50000 rows in
    the store and positions 0..49 on screen, the pages the effect requests
    are not the pages the specification names; page 2 is requested. *)
Lemma viewport_effect_not_spec_pages :
  ~ (forall p : Z,
        get_for p ∈ (viewport_effect (app Examples.loaded) Examples.top_rows).2
        <-> p ∈ spec_pages (total (app Examples.loaded)) 0 49).
Proof.
  intros H. specialize (H 2). destruct H as [H _].
  assert (Hin : get_for 2 ∈ (viewport_effect (app Examples.loaded) Examples.top_rows).2)
    by (apply (bool_decide_unpack _); vm_compute; exact I).
  apply H in Hin.
  assert (Hout : 2 ∉ spec_pages (total (app Examples.loaded)) 0 49)
    by (apply (bool_decide_unpack _); vm_compute; exact I).
  contradiction.
Qed.

Example viewport_effect_requests_ahead :
  (viewport_effect (app Examples.loaded) Examples.top_rows).2 = [get_for 1; get_for 2].
Proof. vm_compute. reflexivity. Qed.

(** ** The ledger along a session *)

Lemma fill_rows_ledger (rows : list Row) (idx : Z) (s : state) :
  fetchedPagesRef (fill_rows idx rows s) = fetchedPagesRef s
  /\ fetchingPagesRef (fill_rows idx rows s) = fetchingPagesRef s
  /\ total (fill_rows idx rows s) = total s.
Proof.
  revert idx s. induction rows as [|row rest IH]; intros idx s; [done|].
  simpl. destruct (IH (idx + 1)
    (set_ids (<[row_id (match DEMO_ERRORS (row_id row) with
                        | Some e => with_prop row "marcus_error" (VStr e)
                        | None => row
                        end):=idx]> (idToIdxRef s))
       (set_rows (<[idx:=match DEMO_ERRORS (row_id row) with
                         | Some e => with_prop row "marcus_error" (VStr e)
                         | None => row
                         end]> (rowsMapRef s)) s))) as (H1 & H2 & H3).
  by rewrite H1, H2, H3.
Qed.

Lemma fetchPage_resume_fetched (s : state) (page : Z) (o : fetch_outcome) :
  fetchedPagesRef (fetchPage_resume s page o)
  = match o with
    | Parsed _ => {[page]} ∪ fetchedPagesRef s
    | Rejected => fetchedPagesRef s
    end.
Proof.
  destruct o as [|body]; [done|]. simpl.
  by destruct (fill_rows_ledger (default [] (j_data body)) (page * PAGE_SIZE) s) as (-> & _).
Qed.

Lemma fetchPage_resume_fetching (s : state) (page : Z) (o : fetch_outcome) :
  fetchingPagesRef (fetchPage_resume s page o) = fetchingPagesRef s ∖ {[page]}.
Proof.
  destruct o as [|body]; [done|]. simpl.
  by destruct (fill_rows_ledger (default [] (j_data body)) (page * PAGE_SIZE) s) as (_ & -> & _).
Qed.

Lemma on_cell_updated_ledger (s : state) (updatedRow : Row) :
  fetchedPagesRef (on_cell_updated s updatedRow) = fetchedPagesRef s
  /\ fetchingPagesRef (on_cell_updated s updatedRow) = fetchingPagesRef s.
Proof. unfold on_cell_updated. by destruct (idToIdxRef s !! _). Qed.

Lemma updateCell_begin_ledger (s : state) (rowId : jsval) (field : string) (value : jsval) :
  fetchedPagesRef (updateCell_begin s rowId field value).1 = fetchedPagesRef s
  /\ fetchingPagesRef (updateCell_begin s rowId field value).1 = fetchingPagesRef s
  /\ (updateCell_begin s rowId field value).2 = [PatchRow rowId field value].
Proof.
  unfold updateCell_begin. simpl.
  destruct (idToIdxRef s !! rowId) as [idx|]; [|done].
  by destruct (rowsMapRef s !! idx).
Qed.

(** Both effects that call [fetchPage] run it over a list of distinct
    pages. *)
Lemma viewport_effect_each (s : state) (virtualRows : list Z) :
  exists pages : list Z, NoDup pages /\ viewport_effect s virtualRows = fetch_each pages s.
Proof.
  destruct virtualRows as [|fi rest].
  - exists []. split; [apply NoDup_nil_2|]. by apply viewport_effect_idle; left.
  - destruct (decide (total s = 0)) as [Ht|Ht].
    + exists []. split; [apply NoDup_nil_2|]. by apply viewport_effect_idle; right.
    + eexists. split; [|by apply viewport_effect_window]. apply NoDup_seqZ.
Qed.

Lemma multiplicity_list_to_set_disj (l : list Z) (x : Z) :
  NoDup l ->
  multiplicity x (list_to_set_disj l : gmultiset Z)
  = if decide (x ∈ l) then 1%nat else 0%nat.
Proof.
  induction 1 as [|y l Hy Hnd IH].
  - rewrite list_to_set_disj_nil, multiplicity_empty.
    destruct (decide (x ∈ [])) as [Hin|]; [by apply not_elem_of_nil in Hin|done].
  - rewrite list_to_set_disj_cons, multiplicity_disj_union, IH.
    destruct (decide (x = y)) as [->|Hne].
    + rewrite multiplicity_singleton_eq.
      destruct (decide (y ∈ l)); [done|].
      destruct (decide (y ∈ y :: l)) as [|Hn]; [done|]. exfalso. apply Hn. left.
    + rewrite multiplicity_singleton_ne by done.
      destruct (decide (x ∈ l)) as [Hin|Hin], (decide (x ∈ y :: l)) as [Hin'|Hin'];
        try done.
      * exfalso. apply Hin'. by right.
      * apply elem_of_cons in Hin' as [?|?]; done.
Qed.

Lemma issue_fetch_each_ok (w : world) (pages : list Z) :
  NoDup pages -> ledger_ok w ->
  ledger_ok (issue w (fetch_each pages (app w)).1 (fetch_each pages (app w)).2).
Proof.
  intros Hnd [Hm Hd]. rewrite (fetch_each_spec _ _ Hnd). simpl.
  unfold ledger_ok, issue. simpl. rewrite pages_of_get_for.
  assert (HF : NoDup (filter (untracked (app w)) pages)) by by apply NoDup_filter.
  split.
  - intros page. rewrite multiplicity_disj_union, Hm.
    rewrite (multiplicity_list_to_set_disj _ _ HF).
    destruct (decide (page ∈ filter (untracked (app w)) pages)) as [Hin|Hin].
    + pose proof Hin as Hin'. apply list_elem_of_filter in Hin' as [[_ Hu] _].
      destruct (decide (page ∈ fetchingPagesRef (app w))); [done|].
      destruct (decide (page ∈ _ ∪ fetchingPagesRef (app w))) as [|Hn]; [done|].
      exfalso. apply Hn. set_solver.
    + destruct (decide (page ∈ fetchingPagesRef (app w))) as [Hf|Hf];
        destruct (decide (page ∈ _ ∪ fetchingPagesRef (app w))) as [Hu|Hu]; try done.
      * exfalso. apply Hu. set_solver.
      * exfalso. set_solver.
  - intros page H1 H2. apply elem_of_union in H2 as [H2|H2].
    + apply elem_of_list_to_set, list_elem_of_filter in H2 as [[Hu _] _]. done.
    + by apply (Hd page).
Qed.

(** Every turn of the event loop keeps the ledger in agreement with the
    network. *)
Lemma step_ledger_ok (w w' : world) (e : event) :
  ledger_ok w -> step w e = Some w' -> ledger_ok w'.
Proof.
  intros Hok Hstep. destruct e as [|vr|page o|row|rowId field value|o]; unfold step in Hstep.
  - rewrite fetchPage_begin_each in Hstep.
    destruct (fetch_each [0] (app w)) as [s rs] eqn:E. injection Hstep as <-.
    pose proof (issue_fetch_each_ok w [0] (NoDup_singleton 0) Hok) as H.
    by rewrite E in H.
  - destruct (viewport_effect_each (app w) vr) as (pages & Hnd & Heq).
    rewrite Heq in Hstep.
    destruct (fetch_each pages (app w)) as [s rs] eqn:E. injection Hstep as <-.
    pose proof (issue_fetch_each_ok w pages Hnd Hok) as H.
    by rewrite E in H.
  - destruct (bool_decide (page ∈ inflight w)); [|done]. injection Hstep as <-.
    destruct Hok as [Hm Hd]. unfold ledger_ok. simpl.
    rewrite fetchPage_resume_fetched, fetchPage_resume_fetching.
    split.
    + intros q. rewrite multiplicity_difference, Hm.
      destruct (decide (q = page)) as [->|Hne].
      * rewrite multiplicity_singleton_eq.
        destruct (decide (page ∈ fetchingPagesRef (app w) ∖ {[page]})) as [Hin|_];
          [set_solver|].
        destruct (decide (page ∈ fetchingPagesRef (app w))); lia.
      * rewrite multiplicity_singleton_ne by done.
        destruct (decide (q ∈ fetchingPagesRef (app w))) as [Hf|Hf];
          destruct (decide (q ∈ fetchingPagesRef (app w) ∖ {[page]})) as [Hg|Hg];
          try lia; exfalso; set_solver.
    + destruct o; set_solver.
  - injection Hstep as <-. destruct Hok as [Hm Hd]. unfold ledger_ok. simpl.
    destruct (on_cell_updated_ledger (app w) row) as [-> ->]. done.
  - destruct (updateCell_begin_ledger (app w) rowId field value) as (H1 & H2 & H3).
    destruct (updateCell_begin (app w) rowId field value) as [s rs].
    simpl in H1, H2, H3. subst rs. injection Hstep as <-.
    destruct Hok as [Hm Hd]. unfold ledger_ok, issue. simpl. rewrite H1, H2.
    split; [|done]. intros q.
    by rewrite multiplicity_disj_union, multiplicity_empty, Hm.
  - destruct (writes w) as [|n]; [done|].
    assert (Hr : updateCell_resume (app w) o = (app w, [])) by by destruct o.
    rewrite Hr in Hstep. injection Hstep as <-.
    destruct Hok as [Hm Hd]. unfold ledger_ok, issue. simpl.
    split; [|done]. intros q.
    by rewrite multiplicity_disj_union, multiplicity_empty, Hm.
Qed.

Lemma run_ledger_ok (es : list event) (w w' : world) :
  ledger_ok w -> run w es = Some w' -> ledger_ok w'.
Proof.
  revert w. induction es as [|e es IH]; intros w Hok Hrun; simpl in Hrun.
  - by injection Hrun as <-.
  - destruct (step w e) as [w1|] eqn:E; [|done].
    eapply IH; [|done]. by eapply step_ledger_ok.
Qed.

Lemma start_ledger_ok : ledger_ok start.
Proof.
  split; [|set_solver]. intros page. simpl. rewrite multiplicity_empty.
  destruct (decide (page ∈ ∅)) as [Hin|]; [set_solver|done].
Qed.

Lemma requests_for_app (page : Z) (a b : list request) :
  requests_for page (a ++ b) = (requests_for page a + requests_for page b)%nat.
Proof.
  unfold requests_for, pages_of. by rewrite omap_app, filter_app, length_app.
Qed.

Lemma requests_for_absent (page : Z) (pages : list Z) :
  page ∉ pages -> requests_for page (get_for <$> pages) = 0%nat.
Proof.
  intros Hin. unfold requests_for. rewrite pages_of_get_for.
  induction pages as [|q rest IH]; [done|].
  rewrite filter_cons. destruct (decide (q = page)) as [->|Hne].
  - exfalso. apply Hin. left.
  - apply IH. intros H. apply Hin. by right.
Qed.

Lemma fetch_each_tracked (pages : list Z) (s : state) (page : Z) :
  NoDup pages -> ~ untracked s page ->
  requests_for page (fetch_each pages s).2 = 0%nat
  /\ fetchedPagesRef (fetch_each pages s).1 = fetchedPagesRef s.
Proof.
  intros Hnd Hu. rewrite (fetch_each_spec _ _ Hnd). simpl. split; [|done].
  apply requests_for_absent. intros Hin.
  by apply list_elem_of_filter in Hin as [? _].
Qed.

(** A turn of the event loop issues no read request for a page that the
    ledger holds, as fetched or as in flight, when the turn starts. *)
Lemma step_tracked_no_request (w w' : world) (e : event) (page : Z) :
  ~ untracked (app w) page -> step w e = Some w' ->
  requests_for page (sent w') = requests_for page (sent w).
Proof.
  intros Hu Hstep.
  destruct e as [|vr|pg o|row|rowId field value|o]; unfold step in Hstep.
  - rewrite fetchPage_begin_each in Hstep.
    destruct (fetch_each_tracked [0] (app w) page (NoDup_singleton 0) Hu) as [H _].
    destruct (fetch_each [0] (app w)) as [s rs]. injection Hstep as <-.
    simpl in *. rewrite requests_for_app. lia.
  - destruct (viewport_effect_each (app w) vr) as (pages & Hnd & Heq).
    rewrite Heq in Hstep.
    destruct (fetch_each_tracked pages (app w) page Hnd Hu) as [H _].
    destruct (fetch_each pages (app w)) as [s rs]. injection Hstep as <-.
    simpl in *. rewrite requests_for_app. lia.
  - destruct (bool_decide (pg ∈ inflight w)); [|done]. by injection Hstep as <-.
  - by injection Hstep as <-.
  - destruct (updateCell_begin_ledger (app w) rowId field value) as (_ & _ & H3).
    destruct (updateCell_begin (app w) rowId field value) as [s rs].
    simpl in H3. subst rs. injection Hstep as <-.
    simpl. by rewrite requests_for_app, Nat.add_0_r.
  - destruct (writes w) as [|n]; [done|].
    assert (Hr : updateCell_resume (app w) o = (app w, [])) by by destruct o.
    rewrite Hr in Hstep. injection Hstep as <-. simpl. by rewrite app_nil_r.
Qed.

(** Nothing takes a page out of the fetched set. *)
Lemma step_fetched_mono (w w' : world) (e : event) (page : Z) :
  page ∈ fetchedPagesRef (app w) -> step w e = Some w' ->
  page ∈ fetchedPagesRef (app w').
Proof.
  intros Hin Hstep.
  assert (Hu : ~ untracked (app w) page) by (intros [? _]; done).
  destruct e as [|vr|pg o|row|rowId field value|o]; unfold step in Hstep.
  - rewrite fetchPage_begin_each in Hstep.
    destruct (fetch_each_tracked [0] (app w) page (NoDup_singleton 0) Hu) as [_ H].
    destruct (fetch_each [0] (app w)) as [s rs]. injection Hstep as <-.
    simpl in *. by rewrite H.
  - destruct (viewport_effect_each (app w) vr) as (pages & Hnd & Heq).
    rewrite Heq in Hstep.
    destruct (fetch_each_tracked pages (app w) page Hnd Hu) as [_ H].
    destruct (fetch_each pages (app w)) as [s rs]. injection Hstep as <-.
    simpl in *. by rewrite H.
  - destruct (bool_decide (pg ∈ inflight w)); [|done]. injection Hstep as <-.
    simpl. rewrite fetchPage_resume_fetched. destruct o; set_solver.
  - injection Hstep as <-. simpl.
    by destruct (on_cell_updated_ledger (app w) row) as [-> _].
  - destruct (updateCell_begin_ledger (app w) rowId field value) as (H1 & _ & _).
    destruct (updateCell_begin (app w) rowId field value) as [s rs].
    injection Hstep as <-. simpl in *. by rewrite H1.
  - destruct (writes w) as [|n]; [done|].
    assert (Hr : updateCell_resume (app w) o = (app w, [])) by by destruct o.
    rewrite Hr in Hstep. by injection Hstep as <-.
Qed.

Lemma run_fetched_final (es : list event) (w w' : world) (page : Z) :
  page ∈ fetchedPagesRef (app w) -> run w es = Some w' ->
  page ∈ fetchedPagesRef (app w')
  /\ requests_for page (sent w') = requests_for page (sent w).
Proof.
  revert w. induction es as [|e es IH]; intros w Hin Hrun; simpl in Hrun.
  - by injection Hrun as <-.
  - destruct (step w e) as [w1|] eqn:E; [|done].
    pose proof (step_fetched_mono _ _ _ _ Hin E) as Hin1.
    destruct (IH w1 Hin1 Hrun) as [H1 H2]. split; [done|].
    rewrite H2. apply (step_tracked_no_request w w1 e); [|done].
    intros [? _]; done.
Qed.

(** C2. In every session, for every page index: at most one read request
    for it is outstanding; it is marked in flight exactly while one is; no
    turn of the event loop issues a request for it while it is in flight;
    and once it is in the fetched set it stays there and no request for it
    is issued again. *)
Theorem fetch_ledger_invariant (es : list event) (w : world) (page : Z) :
  run start es = Some w ->
  (multiplicity page (inflight w) <= 1)%nat
  /\ (page ∈ fetchingPagesRef (app w) <-> page ∈ inflight w)
  /\ (forall (e : event) (w' : world),
        step w e = Some w' -> page ∈ fetchingPagesRef (app w) ->
        requests_for page (sent w') = requests_for page (sent w))
  /\ (page ∈ fetchedPagesRef (app w) ->
      forall (es' : list event) (w' : world),
        run w es' = Some w' ->
        page ∈ fetchedPagesRef (app w')
        /\ requests_for page (sent w') = requests_for page (sent w)).
Proof.
  intros Hrun.
  destruct (run_ledger_ok es start w start_ledger_ok Hrun) as [Hm Hd].
  split; [|split; [|split]].
  - rewrite Hm. destruct (decide (page ∈ fetchingPagesRef (app w))); lia.
  - rewrite elem_of_multiplicity, Hm.
    destruct (decide (page ∈ fetchingPagesRef (app w))); split; try done; lia.
  - intros e w' Hstep Hin. apply (step_tracked_no_request w w' e); [|done].
    intros [_ ?]; done.
  - intros Hin es' w' Hrun'. by apply (run_fetched_final es' w).
Qed.

Lemma fetch_ledger_invariant_witness :
  (multiplicity 0%Z (inflight Examples.scrolled) <= 1)%nat
  /\ (0 ∈ fetchingPagesRef (app Examples.scrolled) <-> 0 ∈ inflight Examples.scrolled)
  /\ (forall (e : event) (w' : world),
        step Examples.scrolled e = Some w' ->
        0 ∈ fetchingPagesRef (app Examples.scrolled) ->
        requests_for 0 (sent w') = requests_for 0 (sent Examples.scrolled))
  /\ (0 ∈ fetchedPagesRef (app Examples.scrolled) ->
      forall (es' : list event) (w' : world),
        run Examples.scrolled es' = Some w' ->
        0 ∈ fetchedPagesRef (app w')
        /\ requests_for 0 (sent w') = requests_for 0 (sent Examples.scrolled)).
Proof.
  assert (Hrun : run start Examples.scrolling = Some Examples.scrolled)
    by (vm_compute; reflexivity).
  exact (fetch_ledger_invariant Examples.scrolling Examples.scrolled 0 Hrun).
Defined.

Example scrolled_requests :
  sent Examples.scrolled = [get_for 0; get_for 1; get_for 2]
  /\ requests_for 1 (sent Examples.scrolled) = 1%nat.
Proof. split; vm_compute; reflexivity. Qed.

(** ** Store consistency *)

Section Consistency.

Variable ident : Z -> Z.
Hypothesis ident_ascending : forall p q : Z, p < q -> ident p < ident q.

Lemma ident_inj (p q : Z) : ident p = ident q -> p = q.
Proof using ident_ascending.
  intros H. destruct (Z.lt_trichotomy p q) as [Hlt|[Heq|Hgt]]; [|done|].
  - apply ident_ascending in Hlt. lia.
  - apply ident_ascending in Hgt. lia.
Qed.

Lemma demo_error_keeps_id (row : Row) :
  row_id (match DEMO_ERRORS (row_id row) with
          | Some e => with_prop row "marcus_error" (VStr e)
          | None => row
          end) = row_id row.
Proof.
  destruct (DEMO_ERRORS (row_id row)); [|done].
  unfold row_id. by apply prop_with_prop_ne.
Qed.

Lemma consistent_put (s : state) (idx : Z) (row : Row) :
  consistent ident s -> row_id row = VNum (ident idx) ->
  consistent ident
    (set_ids (<[row_id row:=idx]> (idToIdxRef s))
       (set_rows (<[idx:=row]> (rowsMapRef s)) s)).
Proof using ident_ascending.
  intros [Hrows Hids] Hid. split; simpl.
  - intros p r Hp. rewrite Hid. destruct (decide (p = idx)) as [->|Hne].
    + rewrite lookup_insert_eq in Hp. injection Hp as <-.
      by rewrite lookup_insert_eq.
    + rewrite lookup_insert_ne in Hp by done.
      destruct (Hrows p r Hp) as [H1 H2]. split; [done|].
      rewrite lookup_insert_ne; [done|].
      intros H. injection H as H. by apply ident_inj in H.
  - intros id p Hp. destruct (decide (id = row_id row)) as [->|Hne].
    + rewrite lookup_insert_eq in Hp. by injection Hp as <-.
    + rewrite lookup_insert_ne in Hp by done. by apply Hids.
Qed.

Lemma fill_rows_consistent (rows : list Row) (idx : Z) (s : state) :
  consistent ident s ->
  (forall (i : nat) (row : Row),
      rows !! i = Some row -> row_id row = VNum (ident (idx + Z.of_nat i))) ->
  consistent ident (fill_rows idx rows s).
Proof using ident_ascending.
  revert idx s. induction rows as [|row rest IH]; intros idx s Hc Hrows; [done|].
  simpl. apply IH.
  - apply consistent_put; [done|]. rewrite demo_error_keeps_id.
    rewrite (Hrows 0%nat row eq_refl). f_equal. f_equal. lia.
  - intros i r Hi. rewrite (Hrows (S i) r Hi). f_equal. f_equal. lia.
Qed.

Lemma state_fields_consistent (s s' : state) :
  rowsMapRef s' = rowsMapRef s -> idToIdxRef s' = idToIdxRef s ->
  consistent ident s -> consistent ident s'.
Proof. unfold consistent. intros -> ->. done. Qed.

Lemma step_consistent (w w' : world) (e : event) :
  consistent ident (app w) -> faithful ident e -> step w e = Some w' ->
  consistent ident (app w').
Proof using ident_ascending.
  intros Hc Hf Hstep.
  destruct e as [|vr|pg o|row|rowId field value|o]; unfold step in Hstep.
  - destruct (fetchPage_begin_rows (app w) 0) as [H1 H2].
    destruct (fetchPage_begin (app w) 0) as [s rs]. injection Hstep as <-.
    by apply (state_fields_consistent (app w)).
  - destruct (viewport_effect_rows (app w) vr) as [H1 H2].
    destruct (viewport_effect (app w) vr) as [s rs]. injection Hstep as <-.
    by apply (state_fields_consistent (app w)).
  - destruct (bool_decide (pg ∈ inflight w)); [|done]. injection Hstep as <-.
    simpl. destruct o as [|body]; simpl.
    + by apply (state_fields_consistent (app w)).
    + apply (state_fields_consistent
               (fill_rows (pg * PAGE_SIZE) (default [] (j_data body)) (app w)));
        [done|done|].
      by apply fill_rows_consistent.
  - injection Hstep as <-. simpl. unfold on_cell_updated.
    destruct (idToIdxRef (app w) !! row_id row) as [idx|] eqn:Hidx; [|done].
    destruct Hc as [Hrows Hids]. pose proof (Hids _ _ Hidx) as Hid.
    split; simpl.
    + intros p r Hp. destruct (decide (p = idx)) as [->|Hne].
      * rewrite lookup_insert_eq in Hp. injection Hp as <-.
        split; [done|]. by rewrite <- Hid.
      * rewrite lookup_insert_ne in Hp by done. by apply Hrows.
    + done.
  - simpl in Hf.
    assert (Hfield : field <> "id").
    { intros ->. revert Hf. apply (bool_decide_eq_false_1 _). vm_compute. reflexivity. }
    unfold updateCell_begin in Hstep. injection Hstep as <-. simpl.
    destruct (idToIdxRef (app w) !! rowId) as [idx|]; [|done].
    destruct (rowsMapRef (app w) !! idx) as [cur|] eqn:Hcur; [|done].
    destruct Hc as [Hrows Hids]. destruct (Hrows _ _ Hcur) as [Hid Hback].
    split; simpl.
    + intros p r Hp. destruct (decide (p = idx)) as [->|Hne].
      * rewrite lookup_insert_eq in Hp. injection Hp as <-.
        split; [|done]. unfold row_id. by rewrite prop_with_prop_ne.
      * rewrite lookup_insert_ne in Hp by done. by apply Hrows.
    + done.
  - destruct (writes w) as [|n]; [done|].
    assert (Hr : updateCell_resume (app w) o = (app w, [])) by by destruct o.
    rewrite Hr in Hstep. by injection Hstep as <-.
Qed.

Lemma run_consistent (es : list event) (w w' : world) :
  consistent ident (app w) -> Forall (faithful ident) es -> run w es = Some w' ->
  consistent ident (app w').
Proof using ident_ascending.
  revert w. induction es as [|e es IH]; intros w Hc Hf Hrun; simpl in Hrun.
  - by injection Hrun as <-.
  - destruct (step w e) as [w1|] eqn:E; [|done].
    apply Forall_cons in Hf as [He Hes].
    apply (IH w1); [|done|done]. by apply (step_consistent w w1 e).
Qed.

End Consistency.

(** C1. Take a table whose identities ascend with position, and a session
    that starts empty and sees any sequence of the handlers, where each
    parsed page response lists the rows of its positions and each edit is of
    a grid column. Then for every filled position [p] the reverse map sends
    the identity of the row stored at [p] back to [p]. *)
Theorem store_consistency (ident : Z -> Z) (es : list event) (w : world) :
  (forall p q : Z, p < q -> ident p < ident q) ->
  Forall (faithful ident) es ->
  run start es = Some w ->
  forall (p : Z) (row : Row),
    rowsMapRef (app w) !! p = Some row ->
    idToIdxRef (app w) !! row_id row = Some p.
Proof.
  intros Hasc Hf Hrun p row Hp.
  assert (Hc : consistent ident (app w)).
  { apply (run_consistent ident Hasc es start w); [|done|done].
    split; simpl; intros ? ? H; by rewrite lookup_empty in H. }
  destruct Hc as [Hrows _]. destruct (Hrows p row Hp) as [-> H]. done.
Qed.

Lemma editing_faithful : Forall (faithful Examples.serial) Examples.editing.
Proof.
  unfold Examples.editing, Examples.loading. simpl app.
  repeat (apply Forall_cons; split); try apply Forall_nil_2; simpl; try exact I.
  - intros [|[|i]] row H; simpl in H; try discriminate;
      injection H as <-; vm_compute; reflexivity.
  - apply (bool_decide_unpack _). vm_compute. exact I.
  - intros i row H. by rewrite lookup_nil in H.
Qed.

Lemma store_consistency_witness :
  idToIdxRef (app Examples.edited) !! row_id Examples.row_a_done = Some 0.
Proof.
  assert (Hasc : forall p q : Z, p < q -> Examples.serial p < Examples.serial q)
    by (unfold Examples.serial; lia).
  assert (Hrun : run start Examples.editing = Some Examples.edited)
    by (vm_compute; reflexivity).
  assert (Hrow : rowsMapRef (app Examples.edited) !! 0 = Some Examples.row_a_done)
    by (vm_compute; reflexivity).
  exact (store_consistency Examples.serial Examples.editing Examples.edited
           Hasc editing_faithful Hrun 0 Examples.row_a_done Hrow).
Defined.

Example edited_store :
  rowsMapRef (app Examples.edited) !! 0 = Some Examples.row_a_done
  /\ idToIdxRef (app Examples.edited) !! VNum 1 = Some 0
  /\ idToIdxRef (app Examples.edited) !! VNum 4711 = None
  /\ size (rowsMapRef (app Examples.edited)) = 2%nat.
Proof. repeat split; vm_compute; reflexivity. Qed.

(** The reverse direction: whatever the reverse map gives for an identity
    is a filled position that holds a row of that identity. *)
Lemma reverse_map_consistency (ident : Z -> Z) (es : list event) (w : world) :
  (forall p q : Z, p < q -> ident p < ident q) ->
  Forall (faithful ident) es ->
  run start es = Some w ->
  forall (id : jsval) (p : Z),
    idToIdxRef (app w) !! id = Some p ->
    exists row : Row, rowsMapRef (app w) !! p = Some row /\ row_id row = id.
Proof.
  intros Hasc Hf Hrun id p Hp.
  assert (Hc : consistent ident (app w)).
  { apply (run_consistent ident Hasc es start w); [|done|done].
    split; simpl; intros ? ? H; by rewrite lookup_empty in H. }
  assert (Hm : mapped_filled (app w)).
  { apply (run_mapped_filled es start w); [|done].
    intros ? ? H. simpl in H. by rewrite lookup_empty in H. }
  destruct Hc as [Hrows Hids]. destruct (Hm id p Hp) as [row Hrow].
  exists row. split; [done|].
  destruct (Hrows p row Hrow) as [-> _]. symmetry. by apply Hids.
Qed.

(** The first page of 150 rows of a table of 50000: one request, 150
    filled positions. *)
Example first_page_load :
  match run start [Mount; Viewport (seqZ 0 30);
                   FetchSettled 0 (Parsed (mkJson (Some (Examples.rows_from 1 150)) (Some 50000)))] with
  | Some w =>
      sent w = [get_for 0]
      /\ loadedCount (app w) = 150
      /\ total (app w) = 50000
      /\ fetchedPagesRef (app w) = {[0]}
      /\ fetchingPagesRef (app w) = ∅
  | None => False
  end.
Proof. vm_compute. repeat split; reflexivity. Qed.

(** The two conditions on the events are needed. A response that lists one
    identity at two positions, or an edit of the [id] field, leaves a
    filled position that the reverse map does not send back. *)
Example repeated_identity_breaks :
  let s := fill_rows 0 [Examples.row_a; Examples.row_a] init in
  rowsMapRef s !! 0 = Some Examples.row_a
  /\ idToIdxRef s !! row_id Examples.row_a = Some 1.
Proof. split; vm_compute; reflexivity. Qed.

Example id_edit_breaks :
  let s := (updateCell_begin (app Examples.loaded) (VNum 1) "id" (VStr "9")).1 in
  let row : Row := {[ "id" := VStr "9"; "status" := VStr "Planned" ]} in
  rowsMapRef s !! 0 = Some row /\ idToIdxRef s !! row_id row = None.
Proof. split; vm_compute; reflexivity. Qed.

(** ** A page fetch that fails *)

Lemma fill_rows_nil (idx : Z) (s : state) : fill_rows idx [] s = s.
Proof. done. Qed.

(** When [fetch] or [res.json()] rejects, the page leaves the in-flight
    set and does not enter the fetched set, the store and the total stay as
    they were, the handler sends nothing, and the next call of [fetchPage]
    for the page sends a new request. *)
Lemma fetch_rejected_releases (es : list event) (w : world) (page : Z) :
  run start es = Some w -> page ∈ inflight w ->
  exists w' : world,
    step w (FetchSettled page Rejected) = Some w'
    /\ (page ∉ fetchingPagesRef (app w'))
    /\ (page ∉ fetchedPagesRef (app w'))
    /\ (page ∉ inflight w')
    /\ store (app w') = store (app w)
    /\ total (app w') = total (app w)
    /\ sent w' = sent w
    /\ (fetchPage_begin (app w') page).2 = [get_for page].
Proof.
  intros Hrun Hin.
  pose proof (run_ledger_ok es start w start_ledger_ok Hrun) as [Hm Hd].
  assert (Hf : page ∈ fetchingPagesRef (app w)).
  { pose proof (proj1 (elem_of_multiplicity page (inflight w)) Hin) as Hpos.
    rewrite Hm in Hpos.
    destruct (decide (page ∈ fetchingPagesRef (app w))); [done|lia]. }
  eexists. split.
  { unfold step. by rewrite bool_decide_eq_true_2. }
  simpl. repeat split; try done.
  - set_solver.
  - intros H. by apply (Hd page).
  - intros H. pose proof (proj1 (elem_of_multiplicity _ _) H) as Hpos.
    rewrite multiplicity_difference, multiplicity_singleton_eq, Hm in Hpos.
    destruct (decide (page ∈ fetchingPagesRef (app w))); lia.
  - rewrite fetchPage_begin_untracked; [done|].
    split; simpl; [intros H; by apply (Hd page)|set_solver].
Qed.

Lemma fetch_rejected_releases_witness :
  exists w' : world,
    step Examples.loaded_more (FetchSettled 1 Rejected) = Some w'
    /\ (1 ∉ fetchingPagesRef (app w'))
    /\ (1 ∉ fetchedPagesRef (app w'))
    /\ (1 ∉ inflight w')
    /\ store (app w') = store (app Examples.loaded_more)
    /\ total (app w') = total (app Examples.loaded_more)
    /\ sent w' = sent Examples.loaded_more
    /\ (fetchPage_begin (app w') 1).2 = [get_for 1].
Proof.
  assert (Hrun : run start (Examples.loading ++ [Viewport Examples.top_rows])
                 = Some Examples.loaded_more) by (vm_compute; reflexivity).
  assert (Hin : 1 ∈ inflight Examples.loaded_more)
    by (apply (bool_decide_unpack _); vm_compute; exact I).
  exact (fetch_rejected_releases _ _ 1 Hrun Hin).
Defined.

(** C6, where the code departs from it. When the backing store fails, the
    BFF answers with status 500 and the body [{ error }]; [fetch] does not
    reject on a status, so the component takes the success path with no
    rows: whatever the state and the page, the page enters the fetched set,
    the total becomes 0, and neither [fetchPage] nor the viewport effect
    sends a request for it afterwards. *)
Theorem fetch_error_status_marks_fetched :
  let resp := Bff.get_rows Examples.broken_pool (Some "150") (Some "0") in
  Bff.status resp = 500
  /\ wire (Bff.payload resp) = Examples.error_body
  /\ forall (s : state) (page : Z),
      let s' := fetchPage_resume s page (Parsed (wire (Bff.payload resp))) in
      page ∈ fetchedPagesRef s'
      /\ (page ∉ fetchingPagesRef s')
      /\ total s' = 0
      /\ store s' = store s
      /\ (fetchPage_begin s' page).2 = []
      /\ forall virtualRows : list Z, (viewport_effect s' virtualRows).2 = [].
Proof.
  simpl. split; [done|]. split; [done|]. intros s page.
  repeat split.
  - set_solver.
  - set_solver.
  - rewrite fetchPage_begin_tracked; [done|]. intros [H _]. simpl in H. set_solver.
  - intros vr. rewrite viewport_effect_idle; [done|]. by right.
Qed.

Example first_page_error_blanks_session :
  match run start [Mount; FetchSettled 0 (Parsed Examples.error_body);
                   Mount; Viewport Examples.top_rows] with
  | Some w =>
      sent w = [get_for 0]
      /\ fetchedPagesRef (app w) = {[0]}
      /\ total (app w) = 0
      /\ loadedCount (app w) = 0
  | None => False
  end.
Proof. vm_compute. repeat split; reflexivity. Qed.

(** ** [GET /api/rows] *)

(** The limit passed to the query is an integer from 1 to 500, whatever
    the query string holds. *)
Lemma effective_limit_bounded (limit : option string) :
  exists z : Z, Bff.effective_limit limit = Bff.Fin z /\ 1 <= z <= 500.
Proof.
  unfold Bff.effective_limit.
  destruct (Bff.parseInt (Bff.query_string limit)) as [|[]|z]; simpl.
  - exists 150. split; [done|lia].
  - exists 1. split; [done|lia].
  - exists 500. split; [done|lia].
  - destruct z as [|z|z]; simpl.
    + exists 150. split; [done|lia].
    + exists (Z.min (Z.max 1 (Z.pos z)) 500). split; [done|lia].
    + exists (Z.min (Z.max 1 (Z.neg z)) 500). split; [done|lia].
Qed.

(** The offset passed to the query is never negative and never NaN; it is
    an integer unless [parseInt] overflowed to [Infinity]. *)
Lemma effective_offset_cases (offset : option string) :
  Bff.effective_offset offset = Bff.Inf false
  \/ exists z : Z, Bff.effective_offset offset = Bff.Fin z /\ 0 <= z.
Proof.
  unfold Bff.effective_offset.
  destruct (Bff.parseInt (Bff.query_string offset)) as [|[]|z]; simpl.
  - right. exists 0. split; [done|lia].
  - right. exists 0. split; [done|lia].
  - by left.
  - right. destruct z as [|z|z]; simpl.
    + exists 0. split; [done|lia].
    + exists (Z.pos z). split; [f_equal; lia|lia].
    + exists 0. split; [f_equal; lia|lia].
Qed.

Example effective_values :
  Bff.effective_limit None = Bff.Fin 150
  /\ Bff.effective_limit (Some "abc") = Bff.Fin 150
  /\ Bff.effective_limit (Some "0") = Bff.Fin 150
  /\ Bff.effective_limit (Some "-20") = Bff.Fin 1
  /\ Bff.effective_limit (Some "100000") = Bff.Fin 500
  /\ Bff.effective_limit (Some Examples.oversized) = Bff.Fin 500
  /\ Bff.effective_offset None = Bff.Fin 0
  /\ Bff.effective_offset (Some "abc") = Bff.Fin 0
  /\ Bff.effective_offset (Some "-20") = Bff.Fin 0
  /\ Bff.effective_offset (Some "300") = Bff.Fin 300.
Proof. repeat split; vm_compute; reflexivity. Qed.

#[global] Instance id_le_trans : Transitive Bff.id_le.
Proof. unfold Bff.id_le. intros a b c. lia. Qed.

#[global] Instance id_le_total : Total Bff.id_le.
Proof. unfold Bff.id_le. intros a b. lia. Qed.

Lemma sorted_window {A : Type} (R : relation A) (l : list A) (n m : nat) :
  StronglySorted R l -> StronglySorted R (take n (drop m l)).
Proof.
  intros H. rewrite <- (take_drop m l) in H.
  apply StronglySorted_app_1_r in H.
  rewrite <- (take_drop n (drop m l)) in H.
  by apply StronglySorted_app_1_l in H.
Qed.

Lemma postgres_page (table : list Row) (l o : Z) :
  0 <= l < 2 ^ 63 -> 0 <= o < 2 ^ 63 ->
  Bff.postgres table Bff.SELECT_PAGE [Bff.PNum (Bff.Fin l); Bff.PNum (Bff.Fin o)]
  = Bff.QRows (take (Z.to_nat l) (drop (Z.to_nat o) (merge_sort Bff.id_le table))).
Proof.
  intros Hl Ho. unfold Bff.postgres.
  change (String.eqb Bff.SELECT_PAGE Bff.SELECT_PAGE) with true. cbv iota.
  unfold Bff.as_bigint.
  rewrite !bool_decide_eq_true_2 by lia. reflexivity.
Qed.

Lemma postgres_count (table : list Row) :
  Bff.postgres table Bff.SELECT_COUNT []
  = Bff.QRows [ {[ "total" := VNum (Z.of_nat (length table)) ]} ].
Proof. reflexivity. Qed.

(** For an offset that PostgreSQL can read, the response holds the rows in
    ascending identity order, starting at the offset, at most [limit] of
    them, and the number of rows of the table. *)
Lemma get_rows_page (table : list Row) (limit offset : option string) (o : Z) :
  Bff.effective_offset offset = Bff.Fin o -> o < 2 ^ 63 ->
  exists (l : Z) (data : list Row),
    Bff.effective_limit limit = Bff.Fin l /\ 1 <= l <= 500 /\ 0 <= o
    /\ Bff.get_rows (Bff.postgres table) limit offset
       = Bff.mkResponse 200
           (Bff.BPage data (VNum (Z.of_nat (length table))) (Bff.Fin l) (Bff.Fin o))
    /\ data = take (Z.to_nat l) (drop (Z.to_nat o) (merge_sort Bff.id_le table))
    /\ Z.of_nat (length data) <= l
    /\ StronglySorted Bff.id_le data.
Proof.
  intros Ho Hmax.
  destruct (effective_limit_bounded limit) as (l & Hl & Hbound).
  destruct (effective_offset_cases offset) as [Hinf|(z & Hz & Hpos)];
    [congruence|].
  assert (z = o) as -> by congruence.
  exists l, (take (Z.to_nat l) (drop (Z.to_nat o) (merge_sort Bff.id_le table))).
  repeat split; try done; try lia.
  - unfold Bff.get_rows. rewrite Hl, Ho.
    rewrite postgres_page by lia. by rewrite postgres_count.
  - rewrite length_take. lia.
  - apply sorted_window. apply (StronglySorted_merge_sort _).
Qed.

Lemma get_rows_page_witness :
  exists (l : Z) (data : list Row),
    Bff.effective_limit (Some "2") = Bff.Fin l /\ 1 <= l <= 500 /\ 0 <= 1
    /\ Bff.get_rows (Bff.postgres Examples.table3) (Some "2") (Some "1")
       = Bff.mkResponse 200
           (Bff.BPage data (VNum (Z.of_nat (length Examples.table3))) (Bff.Fin l) (Bff.Fin 1))
    /\ data = take (Z.to_nat l) (drop (Z.to_nat 1) (merge_sort Bff.id_le Examples.table3))
    /\ Z.of_nat (length data) <= l
    /\ StronglySorted Bff.id_le data.
Proof.
  assert (Ho : Bff.effective_offset (Some "1") = Bff.Fin 1) by (vm_compute; reflexivity).
  assert (Hmax : 1 < 2 ^ 63) by done.
  exact (get_rows_page Examples.table3 (Some "2") (Some "1") 1 Ho Hmax).
Defined.

Example get_rows_second_page :
  Bff.get_rows (Bff.postgres Examples.table3) (Some "2") (Some "1")
  = Bff.mkResponse 200
      (Bff.BPage [Examples.row_b; {[ "id" := VNum 3; "status" := VStr "Done" ]}]
                 (VNum 3) (Bff.Fin 2) (Bff.Fin 1)).
Proof. vm_compute. reflexivity. Qed.

(** C9, where the code departs from it. For the offset parameter written
    as 1 followed by 309 zeros, [parseInt] gives [Infinity], [Math.max]
    keeps it, and the offset the handler passes to the query is no integer;
    the query fails on it and the handler answers 500 with an error body
    instead of a page. The limit is clamped on both sides, the offset only
    from below. *)
Theorem get_rows_offset_overflow :
  Bff.parseInt Examples.oversized = Bff.Inf false
  /\ Bff.effective_offset (Some Examples.oversized) = Bff.Inf false
  /\ Bff.effective_limit (Some Examples.oversized) = Bff.Fin 500
  /\ forall (table : list Row) (limit : option string),
      Bff.get_rows (Bff.postgres table) limit (Some Examples.oversized)
      = Bff.mkResponse 500 (Bff.BError "Database error").
Proof.
  assert (Hoff : Bff.effective_offset (Some Examples.oversized) = Bff.Inf false)
    by (vm_compute; reflexivity).
  split; [vm_compute; reflexivity|]. split; [done|].
  split; [vm_compute; reflexivity|].
  intros table limit. unfold Bff.get_rows. rewrite Hoff.
  destruct (effective_limit_bounded limit) as (l & -> & Hl).
  unfold Bff.postgres at 1.
  change (String.eqb Bff.SELECT_PAGE Bff.SELECT_PAGE) with true. cbv iota.
  unfold Bff.as_bigint. rewrite bool_decide_eq_true_2 by lia. reflexivity.
Qed.

(** ** [PATCH /api/rows/:id] *)

Lemma update_values_length (updates : list (string * jsval)) (id : Bff.num) :
  length (Bff.update_values updates id) = S (length updates).
Proof.
  unfold Bff.update_values. rewrite length_app, !length_fmap. simpl. lia.
Qed.

Lemma patch_row_query (pool : Bff.pool_t) (id_param : string)
    (updates : list (string * jsval)) :
  updates <> [] ->
  Bff.patch_row pool id_param updates
  = match pool (Bff.update_text (updates.*1) (S (length updates)))
               (Bff.update_values updates (Bff.parseInt id_param)) with
    | Bff.QThrow => (Bff.mkResponse 500 (Bff.BError "Database error"), [])
    | Bff.QRows [] => (Bff.mkResponse 404 (Bff.BError "Row not found"), [])
    | Bff.QRows (updatedRow :: _) =>
        (Bff.mkResponse 200 (Bff.BRow updatedRow), [("cell-updated", updatedRow)])
    end.
Proof.
  intros Hne. unfold Bff.patch_row.
  rewrite bool_decide_eq_false_2.
  - by rewrite update_values_length.
  - rewrite length_fmap. by destruct updates.
Qed.

(** C8. The handler emits one [cell-updated] message carrying the row the
    UPDATE returned, and answers 200 with that row, exactly when the body
    names a field and the query returns a row. With an empty body it
    answers 400, with no returned row 404, with a failed query 500, and in
    these three cases it emits nothing. *)
Theorem patch_row_broadcast (pool : Bff.pool_t) (id_param : string)
    (updates : list (string * jsval)) :
  let out := Bff.patch_row pool id_param updates in
  let answer := pool (Bff.update_text (updates.*1) (S (length updates)))
                     (Bff.update_values updates (Bff.parseInt id_param)) in
  (forall (row : Row) (rest : list Row),
      updates <> [] -> answer = Bff.QRows (row :: rest) ->
      out = (Bff.mkResponse 200 (Bff.BRow row), [("cell-updated", row)]))
  /\ (updates = [] ->
      out = (Bff.mkResponse 400 (Bff.BError "No fields to update"), []))
  /\ (updates <> [] -> answer = Bff.QRows [] ->
      out = (Bff.mkResponse 404 (Bff.BError "Row not found"), []))
  /\ (updates <> [] -> answer = Bff.QThrow ->
      out = (Bff.mkResponse 500 (Bff.BError "Database error"), []))
  /\ (length out.2 <= 1)%nat
  /\ (out.2 <> [] <->
      updates <> [] /\ exists (row : Row) (rest : list Row), answer = Bff.QRows (row :: rest)).
Proof.
  simpl. split; [|split; [|split; [|split; [|split]]]].
  - intros row rest Hne Hq. by rewrite (patch_row_query _ _ _ Hne), Hq.
  - by intros ->.
  - intros Hne Hq. by rewrite (patch_row_query _ _ _ Hne), Hq.
  - intros Hne Hq. by rewrite (patch_row_query _ _ _ Hne), Hq.
  - destruct updates as [|u us]; [simpl; lia|].
    rewrite patch_row_query by done.
    destruct (pool _ _) as [|[|row rest]]; simpl; lia.
  - destruct updates as [|u us]; [simpl; split; [done|by intros [? _]]|].
    rewrite patch_row_query by done.
    destruct (pool _ _) as [|[|row rest]]; simpl; split; try done.
    + by intros [_ (? & ? & ?)].
    + by intros [_ (? & ? & ?)].
    + intros _. split; [done|]. by exists row, rest.
Qed.

Lemma patch_row_broadcast_witness :
  Bff.patch_row Examples.done_pool "1" [("status", VStr "Done")]
  = (Bff.mkResponse 200 (Bff.BRow Examples.row_a_done),
     [("cell-updated", Examples.row_a_done)]).
Proof.
  assert (Hne : [("status", VStr "Done")] <> ([] : list (string * jsval))) by done.
  exact (proj1 (patch_row_broadcast Examples.done_pool "1" [("status", VStr "Done")])
           Examples.row_a_done [] Hne eq_refl).
Defined.

Example patch_row_failures :
  Bff.patch_row Examples.broken_pool "1" [("status", VStr "Done")]
  = (Bff.mkResponse 500 (Bff.BError "Database error"), [])
  /\ Bff.patch_row (Bff.postgres Examples.table3) "1" []
     = (Bff.mkResponse 400 (Bff.BError "No fields to update"), [])
  /\ Bff.patch_row (fun _ _ => Bff.QRows []) "4711" [("status", VStr "Done")]
     = (Bff.mkResponse 404 (Bff.BError "Row not found"), []).
Proof. repeat split. Qed.

(** ** The text of the UPDATE statement *)

(** stdpp keeps [simpl] from unfolding string concatenation; these are its
    two computation steps. *)
Ltac app_step :=
  repeat match goal with
    | |- context [String ?x ?a +:+ ?b] =>
        change (String x a +:+ b) with (String x (a +:+ b))
    | |- context [EmptyString +:+ ?b] =>
        change (EmptyString +:+ b) with b
    end.

Lemma string_app_assoc (a b c : string) : (a +:+ b) +:+ c = a +:+ (b +:+ c).
Proof. induction a as [|x a IH]; [done|]. app_step. by rewrite IH. Qed.

Lemma string_app_nil_r (a : string) : a +:+ "" = a.
Proof. induction a as [|x a IH]; [done|]. app_step. by rewrite IH. Qed.

Lemma concat_contains (sep x : string) (l : list string) :
  x ∈ l -> exists before after : string, String.concat sep l = before +:+ x +:+ after.
Proof.
  induction l as [|y l IH]; intros Hin; [by apply not_elem_of_nil in Hin|].
  apply elem_of_cons in Hin as [->|Hin].
  - destruct l as [|z l].
    + exists "", "". app_step. simpl. by rewrite string_app_nil_r.
    + exists "", (sep +:+ String.concat sep (z :: l)). done.
  - destruct (IH Hin) as (b & a & Heq).
    destruct l as [|z l]; [by apply not_elem_of_nil in Hin|].
    exists (y +:+ sep +:+ b), a.
    change (String.concat sep (y :: z :: l))
      with (y +:+ sep +:+ String.concat sep (z :: l)).
    rewrite Heq. by rewrite !string_app_assoc.
Qed.

Lemma body_get_in (updates : list (string * jsval)) (k : string) (v : jsval) :
  NoDup (updates.*1) -> (k, v) ∈ updates -> Bff.body_get updates k = v.
Proof.
  induction updates as [|[k0 v0] rest IH]; intros Hnd Hin;
    [by apply not_elem_of_nil in Hin|].
  simpl in Hnd. apply NoDup_cons in Hnd as [Hk0 Hnd].
  unfold Bff.body_get. simpl.
  destruct (String.eqb k0 k) eqn:E.
  - apply String.eqb_eq in E as ->. simpl.
    apply elem_of_cons in Hin as [Heq|Hin]; [congruence|].
    exfalso. apply Hk0. apply list_elem_of_fmap. by exists (k, v).
  - apply elem_of_cons in Hin as [Heq|Hin].
    + injection Heq as -> ->. by rewrite String.eqb_refl in E.
    + by apply IH.
Qed.

Lemma update_values_bound (updates : list (string * jsval)) (id : Bff.num) :
  NoDup (updates.*1) ->
  Bff.update_values updates id = (Bff.PVal <$> updates.*2) ++ [Bff.PNum id].
Proof.
  intros Hnd. unfold Bff.update_values. f_equal.
  assert (H : forall l : list (string * jsval),
             (forall kv, kv ∈ l -> kv ∈ updates) ->
             (fun f => Bff.PVal (Bff.body_get updates f)) <$> l.*1
             = Bff.PVal <$> l.*2).
  { induction l as [|[k v] l IH]; intros Hsub; [done|].
    simpl. rewrite (body_get_in updates k v Hnd) by (apply Hsub; left).
    f_equal. apply IH. intros kv Hkv. apply Hsub. by right. }
  by apply H.
Qed.

Lemma first_other_app (c t : string) :
  Bff.all_ident c = true -> Bff.first_other (c +:+ t) = Bff.first_other t.
Proof.
  induction c as [|x c IH]; intros H; [done|].
  app_step. simpl in *. apply andb_true_iff in H as [Hx Hc]. rewrite Hx. by apply IH.
Qed.

Lemma parameterized_update_stop (columns : list string) :
  Forall (fun c => Bff.all_ident c = true) columns ->
  Bff.first_other (Bff.string_drop 26 (Bff.parameterized_update columns)) = Some " "%char.
Proof.
  intros Hall. unfold Bff.parameterized_update.
  app_step. cbn [Bff.string_drop].
  destruct Hall as [|c cs Hc Hcs]; [done|].
  rewrite imap_cons.
  destruct cs as [|c' cs].
  - cbn [imap String.concat].
    rewrite string_app_assoc, first_other_app by done. by app_step.
  - rewrite imap_cons. cbn [String.concat].
    rewrite !string_app_assoc, first_other_app by done. by app_step.
Qed.

(** ** Field names *)

Lemma lower_facts (c : ascii) :
  Text.is_upper (Bff.lower c) = false
  /\ Bff.is_space (Bff.lower c) = Bff.is_space c
  /\ (Text.is_upper c = false -> Bff.lower c = c)
  /\ (Bff.is_ident_char c = true -> Text.is_upper c = false /\ Bff.is_space c = false).
Proof. destruct c as [[] [] [] [] [] [] [] []]; vm_compute; by repeat split. Qed.

Lemma toLowerCase_no_upper (s : string) :
  Text.all_chars (fun c => negb (Text.is_upper c)) (Bff.toLowerCase s) = true.
Proof.
  induction s as [|c s IH]; [done|]. simpl.
  destruct (lower_facts c) as (-> & _). by rewrite IH.
Qed.

Lemma toLowerCase_id (s : string) :
  Text.all_chars (fun c => negb (Text.is_upper c)) s = true -> Bff.toLowerCase s = s.
Proof.
  induction s as [|c s IH]; [done|]. simpl. intros H.
  apply andb_true_iff in H as [Hc Hs]. apply negb_true_iff in Hc.
  destruct (lower_facts c) as (_ & _ & Hl & _). by rewrite (Hl Hc), IH.
Qed.

Lemma replace_spaces_no_space (b : bool) (s : string) :
  Text.all_chars (fun c => negb (Bff.is_space c)) (Bff.replace_spaces b s) = true.
Proof.
  revert b. induction s as [|c s IH]; intros b; [done|]. simpl.
  destruct (Bff.is_space c) eqn:Hc.
  - destruct b; [apply IH|]. simpl. apply IH.
  - simpl. by rewrite Hc, IH.
Qed.

Lemma replace_spaces_no_upper (b : bool) (s : string) :
  Text.all_chars (fun c => negb (Text.is_upper c)) s = true ->
  Text.all_chars (fun c => negb (Text.is_upper c)) (Bff.replace_spaces b s) = true.
Proof.
  revert b. induction s as [|c s IH]; intros b H; [done|]. simpl in *.
  apply andb_true_iff in H as [Hc Hs].
  destruct (Bff.is_space c).
  - destruct b; [by apply IH|]. simpl. by apply IH.
  - simpl. by rewrite Hc, IH.
Qed.

Lemma replace_spaces_id (b : bool) (s : string) :
  Text.all_chars (fun c => negb (Bff.is_space c)) s = true -> Bff.replace_spaces b s = s.
Proof.
  revert b. induction s as [|c s IH]; intros b H; [done|]. simpl in *.
  apply andb_true_iff in H as [Hc Hs]. apply negb_true_iff in Hc.
  by rewrite Hc, IH.
Qed.

Lemma all_ident_plain (s : string) :
  Bff.all_ident s = true ->
  Text.all_chars (fun c => negb (Text.is_upper c)) s = true
  /\ Text.all_chars (fun c => negb (Bff.is_space c)) s = true.
Proof.
  induction s as [|c s IH]; [done|]. simpl. intros H.
  apply andb_true_iff in H as [Hc Hs].
  destruct (lower_facts c) as (_ & _ & _ & Hi). destruct (Hi Hc) as [-> ->].
  destruct (IH Hs) as [-> ->]. done.
Qed.

Lemma column_of_ident (f : string) :
  Bff.all_ident f = true -> Bff.column_of f = f.
Proof.
  intros Hid. destruct (all_ident_plain f Hid) as [Hu Hs].
  unfold Bff.column_of. rewrite (toLowerCase_id _ Hu). by apply replace_spaces_id.
Qed.

Lemma column_of_ascii (f : string) :
  Bff.ascii_only f = true -> Bff.ascii_only (Bff.column_of f) = true.
Proof.
  assert (Hl : forall c, Bff.is_ascii c = true -> Bff.is_ascii (Bff.lower c) = true).
  { intros c. destruct c as [[] [] [] [] [] [] [] []]; vm_compute; done. }
  assert (Hlow : forall s, Bff.ascii_only s = true -> Bff.ascii_only (Bff.toLowerCase s) = true).
  { induction s as [|c s IH]; [done|]. simpl. intros H.
    apply andb_true_iff in H as [Hc Hs]. by rewrite (Hl c Hc), (IH Hs). }
  assert (Hrep : forall s b, Bff.ascii_only s = true ->
                             Bff.ascii_only (Bff.replace_spaces b s) = true).
  { induction s as [|c s IH]; intros b H; [done|]. simpl in *.
    apply andb_true_iff in H as [Hc Hs].
    destruct (Bff.is_space c).
    - destruct b; [by apply IH|]. simpl. by apply IH.
    - simpl. by rewrite Hc, IH. }
  intros H. by apply Hrep, Hlow.
Qed.

Lemma column_of_plain (f : string) :
  Text.all_chars (fun c => negb (Bff.is_space c)) f = true ->
  Text.all_chars (fun c => negb (Text.is_upper c)) f = true ->
  Bff.column_of f = f.
Proof.
  intros Hs Hu. unfold Bff.column_of. rewrite (toLowerCase_id _ Hu).
  by apply replace_spaces_id.
Qed.

(** C10. Every field name of the request body, lower-cased and with its
    runs of white space turned into underscores, is part of the statement
    text as it stands: for names of ASCII characters the part holds no
    white space and no upper-case letter and is the name itself when the
    name has neither, so that the name [Task], space, tab, [Owner] is
    written [task_owner] and [STATUS] is written [status], while SQL
    syntax in a name is written as it was sent. The values of the body and
    the row id are passed beside the text as the statement's parameters;
    and for the body whose one field is named [status=$1--] the text is
    not the text of a parameterized update of any list of plain column
    names. *)
Theorem update_text_interpolates_field_names :
  (forall (fields : list string) (n : nat) (f : string),
      Forall (fun g => Bff.ascii_only g = true) fields ->
      f ∈ fields ->
      exists before after : string,
        Bff.update_text fields n = before +:+ Bff.column_of f +:+ after)
  /\ (forall f : string,
        Bff.ascii_only f = true ->
        Text.all_chars (fun c => negb (Bff.is_space c)) (Bff.column_of f) = true
        /\ Text.all_chars (fun c => negb (Text.is_upper c)) (Bff.column_of f) = true
        /\ (Text.all_chars (fun c => negb (Bff.is_space c)) f = true ->
            Text.all_chars (fun c => negb (Text.is_upper c)) f = true ->
            Bff.column_of f = f))
  /\ (Bff.column_of Examples.spaced_name = "task_owner"
      /\ Bff.column_of "STATUS" = "status"
      /\ Bff.column_of "status=$1--" = "status=$1--"
      /\ Bff.update_text [Examples.spaced_name; "STATUS"] 3
         = "UPDATE creative_tasks SET task_owner = $1, status = $2 WHERE id = $3 RETURNING *")
  /\ (forall (updates : list (string * jsval)) (id : Bff.num),
        NoDup (updates.*1) ->
        Bff.update_values updates id = (Bff.PVal <$> updates.*2) ++ [Bff.PNum id])
  /\ (exists updates : list (string * jsval),
        Forall (fun g => Bff.ascii_only g = true) (updates.*1)
        /\ Bff.update_text (updates.*1) (S (length updates))
           = "UPDATE creative_tasks SET status=$1-- = $1 WHERE id = $2 RETURNING *"
        /\ forall columns : list string,
            Forall (fun c => Bff.all_ident c = true) columns ->
            Bff.update_text (updates.*1) (S (length updates))
            <> Bff.parameterized_update columns)
  /\ (forall fields : list string,
        Forall (fun g => Bff.ascii_only g = true) fields ->
        Bff.update_text fields (S (length fields))
        = Bff.parameterized_update (Bff.column_of <$> fields)).
Proof.
  split; [|split; [|split; [|split; [|split]]]].
  - intros fields n f _ Hin.
    apply list_elem_of_lookup in Hin as [i Hi].
    pose proof (elem_of_lookup_imap_2
                  (fun i f => Bff.column_of f +:+ " = $" +:+ pretty (Z.of_nat i + 1))
                  fields f i Hi) as Hel.
    apply (concat_contains ", ") in Hel as (b & a & Heq).
    unfold Bff.update_text, Bff.setClause. rewrite Heq.
    exists ("UPDATE creative_tasks SET " +:+ b),
           (" = $" +:+ pretty (Z.of_nat i + 1) +:+ a +:+
            " WHERE id = $" +:+ pretty (Z.of_nat n) +:+ " RETURNING *").
    by rewrite !string_app_assoc.
  - intros f _. split; [apply replace_spaces_no_space|].
    split; [apply replace_spaces_no_upper, toLowerCase_no_upper|].
    apply column_of_plain.
  - repeat split; vm_compute; reflexivity.
  - apply update_values_bound.
  - exists [("status=$1--", VStr "Done")].
    split; [by apply Forall_singleton|].
    split; [vm_compute; reflexivity|].
    intros columns Hall Heq.
    apply (f_equal (fun s => Bff.first_other (Bff.string_drop 26 s))) in Heq.
    rewrite (parameterized_update_stop columns Hall) in Heq.
    vm_compute in Heq. discriminate.
  - intros fields _. unfold Bff.update_text, Bff.parameterized_update, Bff.setClause.
    rewrite length_fmap. do 2 f_equal. f_equal.
    rewrite imap_fmap. done.
Qed.

Lemma update_text_interpolates_field_names_witness :
  (exists before after : string,
      Bff.update_text [Examples.spaced_name; "status=$1--"] 3
      = before +:+ Bff.column_of Examples.spaced_name +:+ after)
  /\ Bff.update_values [("status", VStr "Done"); ("team", VStr "Growth")] (Bff.Fin 7)
     = (Bff.PVal <$> [("status", VStr "Done"); ("team", VStr "Growth")].*2)
       ++ [Bff.PNum (Bff.Fin 7)].
Proof.
  assert (Hascii : Forall (fun g => Bff.ascii_only g = true)
                          [Examples.spaced_name; "status=$1--"])
    by (apply (bool_decide_unpack _); vm_compute; exact I).
  assert (Hin : Examples.spaced_name ∈ [Examples.spaced_name; "status=$1--"])
    by (apply elem_of_cons; by left).
  assert (Hnd : NoDup ([("status", VStr "Done"); ("team", VStr "Growth")].*1))
    by (apply (bool_decide_unpack _); vm_compute; exact I).
  split.
  - exact (proj1 update_text_interpolates_field_names
             [Examples.spaced_name; "status=$1--"] 3%nat Examples.spaced_name Hascii Hin).
  - exact (proj1 (proj2 (proj2 (proj2 update_text_interpolates_field_names)))
             _ (Bff.Fin 7) Hnd).
Defined.

Example column_of_examples :
  Bff.column_of "Task Name" = "task_name"
  /\ Bff.column_of "a  b" = "a_b"
  /\ Bff.column_of "status=$1--" = "status=$1--"
  /\ Bff.update_text ["Task Name"; "status"] 3
     = "UPDATE creative_tasks SET task_name = $1, status = $2 WHERE id = $3 RETURNING *".
Proof. repeat split; vm_compute; reflexivity. Qed.

(** * Further properties of the client *)

(** ** The store along a session *)

Lemma fill_rows_filled (rows : list Row) (idx : Z) (s : state) (p : Z) :
  is_Some (rowsMapRef (fill_rows idx rows s) !! p)
  <-> is_Some (rowsMapRef s !! p) \/ idx <= p < idx + Z.of_nat (length rows).
Proof.
  revert idx s. induction rows as [|row rest IH]; intros idx s.
  - simpl. split; [by left|]. intros [?|?]; [done|lia].
  - simpl fill_rows. rewrite IH. simpl rowsMapRef.
    rewrite lookup_insert_is_Some. simpl length.
    destruct (decide (idx = p)) as [->|Hne].
    + split; [intros _; right; lia|intros _; left; by left].
    + split.
      * intros [[?|[_ ?]]|?]; [done|by left|right; lia].
      * intros [?|?]; [left; by right|right; lia].
Qed.

Lemma fill_rows_mapped (rows : list Row) (idx : Z) (s : state) (id : jsval) :
  is_Some (idToIdxRef s !! id) -> is_Some (idToIdxRef (fill_rows idx rows s) !! id).
Proof.
  revert idx s. induction rows as [|row rest IH]; intros idx s H; [done|].
  simpl. apply IH. simpl. apply lookup_insert_is_Some'. by right.
Qed.

Lemma step_store_grows (w w' : world) (e : event) (p : Z) (id : jsval) :
  step w e = Some w' ->
  (is_Some (rowsMapRef (app w) !! p) -> is_Some (rowsMapRef (app w') !! p))
  /\ (is_Some (idToIdxRef (app w) !! id) -> is_Some (idToIdxRef (app w') !! id)).
Proof.
  intros Hstep.
  destruct e as [|vr|pg o|row|rowId field value|o]; unfold step in Hstep.
  - destruct (fetchPage_begin_rows (app w) 0) as [H1 H2].
    destruct (fetchPage_begin (app w) 0) as [s rs]. injection Hstep as <-.
    simpl in *. by rewrite H1, H2.
  - destruct (viewport_effect_rows (app w) vr) as [H1 H2].
    destruct (viewport_effect (app w) vr) as [s rs]. injection Hstep as <-.
    simpl in *. by rewrite H1, H2.
  - destruct (bool_decide (pg ∈ inflight w)); [|done]. injection Hstep as <-.
    simpl. destruct o as [|body]; [done|]. simpl. split.
    + intros H. apply fill_rows_filled. by left.
    + apply fill_rows_mapped.
  - injection Hstep as <-. simpl. unfold on_cell_updated.
    destruct (idToIdxRef (app w) !! row_id row) as [idx|]; [|done].
    simpl. split; [|done]. intros H. apply lookup_insert_is_Some'. by right.
  - unfold updateCell_begin in Hstep. injection Hstep as <-. simpl.
    destruct (idToIdxRef (app w) !! rowId) as [idx|]; [|done].
    destruct (rowsMapRef (app w) !! idx) as [cur|]; [|done].
    simpl. split; [|done]. intros H. apply lookup_insert_is_Some'. by right.
  - destruct (writes w) as [|n]; [done|].
    assert (Hr : updateCell_resume (app w) o = (app w, [])) by by destruct o.
    rewrite Hr in Hstep. by injection Hstep as <-.
Qed.

(** X1. The store never shrinks: whatever handlers run, from any state, a
    position that is filled stays filled and an identity that the reverse
    map knows stays known. *)
Theorem store_only_grows (es : list event) (w w' : world) (p : Z) (id : jsval) :
  run w es = Some w' ->
  (is_Some (rowsMapRef (app w) !! p) -> is_Some (rowsMapRef (app w') !! p))
  /\ (is_Some (idToIdxRef (app w) !! id) -> is_Some (idToIdxRef (app w') !! id)).
Proof.
  revert w. induction es as [|e es IH]; intros w Hrun; simpl in Hrun.
  - by injection Hrun as <-.
  - destruct (step w e) as [w1|] eqn:E; [|done].
    destruct (step_store_grows w w1 e p id E) as [H1 H2].
    destruct (IH w1 Hrun) as [H3 H4]. split; auto.
Qed.

Lemma store_only_grows_witness :
  (is_Some (rowsMapRef (app Examples.loaded) !! 1) ->
   is_Some (rowsMapRef (app Examples.edited) !! 1))
  /\ (is_Some (idToIdxRef (app Examples.loaded) !! VNum 2) ->
      is_Some (idToIdxRef (app Examples.edited) !! VNum 2)).
Proof.
  assert (Hrun : run Examples.loaded
                   [UpdateCell (VNum 1) "status" (VStr "Done");
                    CellUpdated Examples.row_a_done;
                    CellUpdated {[ "id" := VNum 4711; "status" := VStr "Done" ]};
                    Viewport Examples.top_rows;
                    FetchSettled 1 Rejected;
                    FetchSettled 2 (Parsed Examples.error_body);
                    WriteSettled (WriteStatus 200)] = Some Examples.edited)
    by (vm_compute; reflexivity).
  exact (store_only_grows _ Examples.loaded Examples.edited 1 (VNum 2) Hrun).
Defined.

Lemma step_loaded_count (w w' : world) (e : event) :
  mapped_filled (app w) ->
  loadedCount (app w) = Z.of_nat (size (rowsMapRef (app w))) ->
  step w e = Some w' ->
  loadedCount (app w') = Z.of_nat (size (rowsMapRef (app w'))).
Proof.
  intros Hm Hc Hstep.
  destruct e as [|vr|pg o|row|rowId field value|o]; unfold step in Hstep.
  - unfold fetchPage_begin in Hstep.
    destruct (bool_decide (0 ∈ fetchedPagesRef (app w)));
      [|destruct (bool_decide (0 ∈ fetchingPagesRef (app w)))];
      by injection Hstep as <-.
  - destruct (viewport_effect_each (app w) vr) as (pages & Hnd & Heq).
    rewrite Heq, (fetch_each_spec _ _ Hnd) in Hstep. by injection Hstep as <-.
  - destruct (bool_decide (pg ∈ inflight w)); [|done]. injection Hstep as <-.
    by destruct o.
  - injection Hstep as <-. simpl. unfold on_cell_updated.
    destruct (idToIdxRef (app w) !! row_id row) as [idx|] eqn:Hidx; [|done].
    simpl. rewrite map_size_insert_Some; [done|]. by apply (Hm (row_id row)).
  - unfold updateCell_begin in Hstep. injection Hstep as <-. simpl.
    destruct (idToIdxRef (app w) !! rowId) as [idx|]; [|done].
    destruct (rowsMapRef (app w) !! idx) as [cur|] eqn:Hcur; [|done].
    simpl. rewrite map_size_insert_Some; [done|]. by rewrite Hcur.
  - destruct (writes w) as [|n]; [done|].
    assert (Hr : updateCell_resume (app w) o = (app w, [])) by by destruct o.
    rewrite Hr in Hstep. by injection Hstep as <-.
Qed.

(** X2. In every session the loaded count the header shows is the number
    of filled positions: realtime updates and edits only overwrite filled
    positions, and every parsed page response sets the count afresh. *)
Theorem loaded_count_is_store_size (es : list event) (w : world) :
  run start es = Some w ->
  loadedCount (app w) = Z.of_nat (size (rowsMapRef (app w))).
Proof.
  assert (H : forall es w0 w1,
             mapped_filled (app w0) ->
             loadedCount (app w0) = Z.of_nat (size (rowsMapRef (app w0))) ->
             run w0 es = Some w1 ->
             loadedCount (app w1) = Z.of_nat (size (rowsMapRef (app w1)))).
  { clear. induction es as [|e es IH]; intros w0 w1 Hm Hc Hrun; simpl in Hrun.
    - by injection Hrun as <-.
    - destruct (step w0 e) as [w2|] eqn:E; [|done].
      apply (IH w2 w1); [|by apply (step_loaded_count w0 w2 e)|done].
      by apply (step_mapped_filled w0 w2 e). }
  intros Hrun. apply (H es start w); [|done|done].
  intros id p Hp. simpl in Hp. by rewrite lookup_empty in Hp.
Qed.

Lemma loaded_count_is_store_size_witness :
  loadedCount (app Examples.edited)
  = Z.of_nat (size (rowsMapRef (app Examples.edited))).
Proof.
  assert (Hrun : run start Examples.editing = Some Examples.edited)
    by (vm_compute; reflexivity).
  exact (loaded_count_is_store_size Examples.editing Examples.edited Hrun).
Defined.

(** ** The viewport effect and the ledger, continued *)

Lemma set_fetching_same (s : state) : set_fetching (fetchingPagesRef s) s = s.
Proof. by destruct s. Qed.

Lemma fetch_each_all_tracked (pages : list Z) (s : state) :
  NoDup pages -> Forall (fun p => ~ untracked s p) pages ->
  fetch_each pages s = (s, []).
Proof.
  intros Hnd Hall. rewrite (fetch_each_spec _ _ Hnd).
  assert (Hnil : filter (untracked s) pages = []).
  { clear Hnd. induction Hall as [|p rest Hp _ IH]; [done|].
    by rewrite filter_cons_False. }
  rewrite Hnil. simpl.
  replace (∅ ∪ fetchingPagesRef s) with (fetchingPagesRef s) by set_solver.
  by rewrite set_fetching_same.
Qed.

(** X3. Evaluating the viewport effect again on the same rows, while the
    pages it asked for are still in flight, sends nothing and leaves the
    component as it is. *)
Theorem viewport_effect_idempotent (s : state) (virtualRows : list Z) :
  viewport_effect (viewport_effect s virtualRows).1 virtualRows
  = ((viewport_effect s virtualRows).1, []).
Proof.
  destruct virtualRows as [|fi rest];
    [by rewrite !viewport_effect_idle by (by left)|].
  destruct (decide (total s = 0)) as [Ht|Ht];
    [by rewrite !(viewport_effect_idle s) by (by right)|].
  rewrite (viewport_effect_window s fi rest Ht). cbv zeta.
  set (pages := seqZ _ _).
  assert (Hnd : NoDup pages) by apply NoDup_seqZ.
  rewrite (fetch_each_spec _ _ Hnd). simpl.
  rewrite viewport_effect_window by done. cbv zeta. simpl total. fold pages.
  apply fetch_each_all_tracked; [done|].
  apply Forall_forall. intros p Hp [H1 H2]. simpl in H1, H2.
  destruct (decide (untracked s p)) as [Hu|Hu].
  - apply H2. apply elem_of_union. left.
    apply elem_of_list_to_set, list_elem_of_filter. done.
  - apply Hu. split; [done|]. intros ?. apply H2. set_solver.
Qed.

Lemma step_keeps_in_flight (w w' : world) (e : event) (page : Z) :
  page ∈ fetchingPagesRef (app w) -> Events.settles page e = false ->
  step w e = Some w' ->
  page ∈ fetchingPagesRef (app w')
  /\ requests_for page (sent w') = requests_for page (sent w).
Proof.
  intros Hin Hset Hstep.
  split; [|apply (step_tracked_no_request w w' e); [by intros [_ ?]|done]].
  destruct e as [|vr|pg o|row|rowId field value|o]; unfold step in Hstep.
  - rewrite fetchPage_begin_each, (fetch_each_spec _ _ (NoDup_singleton 0)) in Hstep.
    injection Hstep as <-. simpl. set_solver.
  - destruct (viewport_effect_each (app w) vr) as (pages & Hnd & Heq).
    rewrite Heq, (fetch_each_spec _ _ Hnd) in Hstep.
    injection Hstep as <-. simpl. set_solver.
  - destruct (bool_decide (pg ∈ inflight w)); [|done]. injection Hstep as <-.
    simpl. rewrite fetchPage_resume_fetching. simpl in Hset.
    apply bool_decide_eq_false_1 in Hset. set_solver.
  - injection Hstep as <-. simpl.
    by destruct (on_cell_updated_ledger (app w) row) as [_ ->].
  - destruct (updateCell_begin_ledger (app w) rowId field value) as (_ & H2 & _).
    destruct (updateCell_begin (app w) rowId field value) as [s rs].
    injection Hstep as <-. simpl in *. by rewrite H2.
  - destruct (writes w) as [|n]; [done|].
    assert (Hr : updateCell_resume (app w) o = (app w, [])) by by destruct o.
    rewrite Hr in Hstep. by injection Hstep as <-.
Qed.

(** X4. A read request that never settles holds its page: as long as no
    response or rejection for the page arrives, the page stays in the
    in-flight set and no handler sends another request for it, whatever
    else happens. Nothing in the component times a request out. *)
Theorem unsettled_page_stays_in_flight (es : list event) (w w' : world) (page : Z) :
  page ∈ fetchingPagesRef (app w) ->
  forallb (fun e => negb (Events.settles page e)) es = true ->
  run w es = Some w' ->
  page ∈ fetchingPagesRef (app w')
  /\ requests_for page (sent w') = requests_for page (sent w).
Proof.
  revert w. induction es as [|e es IH]; intros w Hin Hall Hrun; simpl in Hrun.
  - by injection Hrun as <-.
  - destruct (step w e) as [w1|] eqn:E; [|done].
    simpl in Hall. apply andb_true_iff in Hall as [He Hes].
    apply negb_true_iff in He.
    destruct (step_keeps_in_flight w w1 e page Hin He E) as [H1 H2].
    destruct (IH w1 H1 Hes Hrun) as [H3 H4]. split; [done|]. by rewrite H4.
Qed.

Lemma unsettled_page_stays_in_flight_witness :
  2 ∈ fetchingPagesRef
        (app (default start
                (run Examples.loaded_more
                   [Viewport Examples.top_rows; FetchSettled 1 Rejected; Mount;
                    Viewport (seqZ 300 40)])))
  /\ requests_for 2
       (sent (default start
                (run Examples.loaded_more
                   [Viewport Examples.top_rows; FetchSettled 1 Rejected; Mount;
                    Viewport (seqZ 300 40)])))
     = requests_for 2 (sent Examples.loaded_more).
Proof.
  assert (Hin : 2 ∈ fetchingPagesRef (app Examples.loaded_more))
    by (apply (bool_decide_unpack _); vm_compute; exact I).
  assert (Hall : forallb (fun e => negb (Events.settles 2 e))
                   [Viewport Examples.top_rows; FetchSettled 1 Rejected; Mount;
                    Viewport (seqZ 300 40)] = true)
    by (vm_compute; reflexivity).
  assert (Hrun : run Examples.loaded_more
                   [Viewport Examples.top_rows; FetchSettled 1 Rejected; Mount;
                    Viewport (seqZ 300 40)]
                 = Some (default start
                           (run Examples.loaded_more
                              [Viewport Examples.top_rows; FetchSettled 1 Rejected; Mount;
                               Viewport (seqZ 300 40)])))
    by (vm_compute; reflexivity).
  exact (unsettled_page_stays_in_flight _ _ _ 2 Hin Hall Hrun).
Defined.

Lemma step_filled_in_fetched (w w' : world) (e : event) :
  mapped_filled (app w) ->
  (forall p : Z, is_Some (rowsMapRef (app w) !! p) ->
                 p / PAGE_SIZE ∈ fetchedPagesRef (app w)) ->
  Events.page_sized e -> step w e = Some w' ->
  forall p : Z, is_Some (rowsMapRef (app w') !! p) ->
                p / PAGE_SIZE ∈ fetchedPagesRef (app w').
Proof.
  intros Hm Hinv Hsz Hstep p Hp.
  destruct e as [|vr|pg o|row|rowId field value|o]; unfold step in Hstep.
  - destruct (fetchPage_begin_rows (app w) 0) as [H1 _].
    rewrite fetchPage_begin_each, (fetch_each_spec _ _ (NoDup_singleton 0)) in *.
    injection Hstep as <-. simpl in *. by apply Hinv.
  - destruct (viewport_effect_each (app w) vr) as (pages & Hnd & Heq).
    rewrite Heq, (fetch_each_spec _ _ Hnd) in Hstep.
    injection Hstep as <-. simpl in *. by apply Hinv.
  - destruct (bool_decide (pg ∈ inflight w)); [|done]. injection Hstep as <-.
    simpl in *. rewrite fetchPage_resume_fetched.
    destruct o as [|body]; [by apply Hinv|].
    simpl in Hp. apply fill_rows_filled in Hp as [Hp|Hp].
    + apply elem_of_union. right. by apply Hinv.
    + apply elem_of_union. left. apply elem_of_singleton.
      unfold PAGE_SIZE in *. symmetry. apply (Z.div_unique p 150 pg (p - pg * 150)); lia.
  - injection Hstep as <-. simpl in *.
    destruct (on_cell_updated_ledger (app w) row) as [-> _].
    apply Hinv. unfold on_cell_updated in Hp.
    destruct (idToIdxRef (app w) !! row_id row) as [idx|] eqn:Hidx; [|done].
    simpl in Hp. apply lookup_insert_is_Some' in Hp as [->|Hp]; [|done].
    by apply (Hm (row_id row)).
  - unfold updateCell_begin in Hstep. injection Hstep as <-. simpl in *.
    destruct (idToIdxRef (app w) !! rowId) as [idx|]; [|by apply Hinv].
    destruct (rowsMapRef (app w) !! idx) as [cur|] eqn:Hcur; [|by apply Hinv].
    simpl in *. apply Hinv.
    apply lookup_insert_is_Some' in Hp as [->|Hp]; [by rewrite Hcur|done].
  - destruct (writes w) as [|n]; [done|].
    assert (Hr : updateCell_resume (app w) o = (app w, [])) by by destruct o.
    rewrite Hr in Hstep. injection Hstep as <-. by apply Hinv.
Qed.

(** X5. When every parsed response holds at most [PAGE_SIZE] rows, every
    filled position of a session belongs to a page of the fetched set: rows
    enter the store only through the response of their own page. *)
Theorem filled_positions_are_fetched (es : list event) (w : world) (p : Z) :
  Forall Events.page_sized es ->
  run start es = Some w ->
  is_Some (rowsMapRef (app w) !! p) ->
  p / PAGE_SIZE ∈ fetchedPagesRef (app w).
Proof.
  assert (H : forall es w0 w1,
             mapped_filled (app w0) ->
             (forall p, is_Some (rowsMapRef (app w0) !! p) ->
                        p / PAGE_SIZE ∈ fetchedPagesRef (app w0)) ->
             Forall Events.page_sized es -> run w0 es = Some w1 ->
             forall p, is_Some (rowsMapRef (app w1) !! p) ->
                       p / PAGE_SIZE ∈ fetchedPagesRef (app w1)).
  { clear. induction es as [|e es IH]; intros w0 w1 Hm Hinv Hall Hrun; simpl in Hrun.
    - by injection Hrun as <-.
    - destruct (step w0 e) as [w2|] eqn:E; [|done].
      apply Forall_cons in Hall as [He Hes].
      apply (IH w2 w1); [by apply (step_mapped_filled w0 w2 e)| |done|done].
      by apply (step_filled_in_fetched w0 w2 e). }
  intros Hall Hrun. apply (H es start w); [| |done|done].
  - intros id q Hq. simpl in Hq. by rewrite lookup_empty in Hq.
  - intros q [x Hq]. simpl in Hq. by rewrite lookup_empty in Hq.
Qed.

Lemma filled_positions_are_fetched_witness :
  1 / PAGE_SIZE ∈ fetchedPagesRef (app Examples.edited).
Proof.
  assert (Hall : Forall Events.page_sized Examples.editing).
  { unfold Examples.editing, Examples.loading. simpl app.
    repeat (apply Forall_cons; split); try apply Forall_nil_2; simpl; try exact I;
      unfold PAGE_SIZE; lia. }
  assert (Hrun : run start Examples.editing = Some Examples.edited)
    by (vm_compute; reflexivity).
  assert (Hp : is_Some (rowsMapRef (app Examples.edited) !! 1))
    by (eexists; vm_compute; reflexivity).
  exact (filled_positions_are_fetched Examples.editing Examples.edited 1 Hall Hrun Hp).
Defined.

(** ** What a page response leaves in the store *)

Lemma fill_rows_outside (rows : list Row) (idx : Z) (s : state) (p : Z) :
  ~ (idx <= p < idx + Z.of_nat (length rows)) ->
  rowsMapRef (fill_rows idx rows s) !! p = rowsMapRef s !! p.
Proof.
  revert idx s. induction rows as [|row rest IH]; intros idx s Hp; [done|].
  simpl fill_rows. simpl length in Hp. rewrite IH by lia. simpl.
  apply lookup_insert_ne. lia.
Qed.

Lemma fill_rows_lookup (rows : list Row) (idx : Z) (s : state) (i : nat) (row : Row) :
  rows !! i = Some row ->
  rowsMapRef (fill_rows idx rows s) !! (idx + Z.of_nat i) = Some (Events.stored row).
Proof.
  revert idx s i. induction rows as [|r rest IH]; intros idx s i Hi; [done|].
  simpl fill_rows. destruct i as [|i].
  - injection Hi as ->. rewrite fill_rows_outside by lia. simpl.
    replace (idx + Z.of_nat 0) with idx by lia. apply lookup_insert_eq.
  - simpl in Hi. replace (idx + Z.of_nat (S i)) with (idx + 1 + Z.of_nat i) by lia.
    by apply IH.
Qed.

Lemma fill_rows_ids_other (rows : list Row) (idx : Z) (s : state) (id : jsval) :
  id ∉ row_id <$> rows ->
  idToIdxRef (fill_rows idx rows s) !! id = idToIdxRef s !! id.
Proof.
  revert idx s. induction rows as [|r rest IH]; intros idx s Hid; [done|].
  simpl fill_rows. rewrite fmap_cons in Hid. apply not_elem_of_cons in Hid as [Hne Hid].
  rewrite IH by done. simpl. rewrite demo_error_keeps_id.
  by apply lookup_insert_ne.
Qed.

Lemma fill_rows_ids_lookup (rows : list Row) (idx : Z) (s : state) (i : nat) (row : Row) :
  NoDup (row_id <$> rows) -> rows !! i = Some row ->
  idToIdxRef (fill_rows idx rows s) !! row_id row = Some (idx + Z.of_nat i).
Proof.
  revert idx s i. induction rows as [|r rest IH]; intros idx s i Hnd Hi; [done|].
  rewrite fmap_cons in Hnd. apply NoDup_cons in Hnd as [Hr Hnd].
  simpl fill_rows. destruct i as [|i].
  - injection Hi as ->. rewrite fill_rows_ids_other by done. simpl.
    rewrite demo_error_keeps_id, lookup_insert_eq. f_equal. lia.
  - simpl in Hi. replace (idx + Z.of_nat (S i)) with (idx + 1 + Z.of_nat i) by lia.
    by apply IH.
Qed.

(** X6. After a parsed page response whose rows have numbers as ids, the
    row at index [i] of the response sits at position
    [page * PAGE_SIZE + i] (with its demo error, if its id is 2, 4 or 6),
    the positions outside the response's range are as before, the
    total is the response's total or 0 without one, and when the response
    lists no identity twice the reverse map sends the row's identity to
    that position. *)
Theorem page_response_stored (s : state) (page : Z) (body : json) (i : nat) (row : Row) :
  Forall (fun r => exists z : Z, row_id r = VNum z) (default [] (j_data body)) ->
  default [] (j_data body) !! i = Some row ->
  let s' := fetchPage_resume s page (Parsed body) in
  rowsMapRef s' !! (page * PAGE_SIZE + Z.of_nat i) = Some (Events.stored row)
  /\ row_id (Events.stored row) = row_id row
  /\ (forall p : Z,
        ~ (page * PAGE_SIZE <= p
           < page * PAGE_SIZE + Z.of_nat (length (default [] (j_data body)))) ->
        rowsMapRef s' !! p = rowsMapRef s !! p)
  /\ total s' = default 0 (j_total body)
  /\ (NoDup (row_id <$> default [] (j_data body)) ->
      idToIdxRef s' !! row_id row = Some (page * PAGE_SIZE + Z.of_nat i)).
Proof.
  intros _ Hi. simpl. split; [by apply fill_rows_lookup|].
  split; [apply demo_error_keeps_id|].
  split; [intros p Hp; by apply fill_rows_outside|].
  split; [done|].
  intros Hnd. by apply fill_rows_ids_lookup.
Qed.

Lemma page_response_stored_witness :
  rowsMapRef (fetchPage_resume init 0 (Parsed Examples.page0)) !! (0 * PAGE_SIZE + Z.of_nat 1)
  = Some (Events.stored Examples.row_b).
Proof.
  assert (Hnum : Forall (fun r => exists z : Z, row_id r = VNum z)
                        (default [] (j_data Examples.page0))).
  { unfold Examples.page0. simpl.
    constructor; [by exists 1|]. constructor; [by exists 2|]. constructor. }
  assert (Hi : default [] (j_data Examples.page0) !! 1%nat = Some Examples.row_b)
    by reflexivity.
  exact (proj1 (page_response_stored init 0 Examples.page0 1 Examples.row_b Hnum Hi)).
Defined.

(** ** Edits of one row *)

Lemma edit_mapped (s : state) (rowId : jsval) (field : string) (value : jsval)
    (idx : Z) (cur : Row) :
  idToIdxRef s !! rowId = Some idx -> rowsMapRef s !! idx = Some cur ->
  (updateCell_begin s rowId field value).1
  = close_editors (set_rows (<[idx:=with_prop cur field value]> (rowsMapRef s)) s).
Proof. intros H1 H2. unfold updateCell_begin. by rewrite H1, H2. Qed.

Lemma edit_unfilled (s : state) (rowId : jsval) (field : string) (value : jsval) :
  (forall idx, idToIdxRef s !! rowId = Some idx -> rowsMapRef s !! idx = None) ->
  (updateCell_begin s rowId field value).1 = close_editors s.
Proof.
  intros H. unfold updateCell_begin. simpl.
  destruct (idToIdxRef s !! rowId) as [idx|]; [|done]. by rewrite (H idx).
Qed.

(** X7. Two optimistic edits of one row compose field by field: on
    different fields they give the same component state in either order,
    and on the same field the later value replaces the earlier one as if
    the earlier edit had not been made. *)
Theorem edits_compose (s : state) (rowId : jsval) (f1 f2 : string) (v1 v2 : jsval) :
  (f1 <> f2 ->
   (updateCell_begin (updateCell_begin s rowId f1 v1).1 rowId f2 v2).1
   = (updateCell_begin (updateCell_begin s rowId f2 v2).1 rowId f1 v1).1)
  /\ (updateCell_begin (updateCell_begin s rowId f1 v1).1 rowId f1 v2).1
     = (updateCell_begin s rowId f1 v2).1.
Proof.
  destruct (idToIdxRef s !! rowId) as [idx|] eqn:Hidx.
  - destruct (rowsMapRef s !! idx) as [cur|] eqn:Hcur.
    + assert (Hstep : forall f v f' v',
                 (updateCell_begin (updateCell_begin s rowId f v).1 rowId f' v').1
                 = close_editors
                     (set_rows (<[idx:=with_prop (with_prop cur f v) f' v']> (rowsMapRef s)) s)).
      { intros f v f' v'. rewrite (edit_mapped s rowId f v idx cur) by done.
        rewrite (edit_mapped _ rowId f' v' idx (with_prop cur f v)).
        - simpl. unfold close_editors, set_rows. simpl. by rewrite insert_insert_eq.
        - done.
        - simpl. apply lookup_insert_eq. }
      split.
      * intros Hne. rewrite !Hstep. unfold with_prop.
        by rewrite (insert_insert_ne cur f1 f2).
      * rewrite Hstep, (edit_mapped s rowId f1 v2 idx cur) by done.
        unfold with_prop. by rewrite insert_insert_eq.
    + assert (Hno : forall f v, (updateCell_begin s rowId f v).1 = close_editors s).
      { intros f v. apply edit_unfilled. intros idx' H. congruence. }
      assert (Hno' : forall f v, (updateCell_begin (close_editors s) rowId f v).1
                                 = close_editors s).
      { intros f v. rewrite edit_unfilled; [done|]. simpl. intros idx' H. congruence. }
      split; [intros _|]; by rewrite !Hno, ?Hno'.
  - assert (Hno : forall f v, (updateCell_begin s rowId f v).1 = close_editors s).
    { intros f v. apply edit_unfilled. intros idx' H. congruence. }
    assert (Hno' : forall f v, (updateCell_begin (close_editors s) rowId f v).1
                               = close_editors s).
    { intros f v. rewrite edit_unfilled; [done|]. simpl. intros idx' H. congruence. }
    split; [intros _|]; by rewrite !Hno, ?Hno'.
Qed.

Lemma edits_compose_witness :
  (updateCell_begin
     (updateCell_begin (app Examples.loaded) (VNum 1) "status" (VStr "Done")).1
     (VNum 1) "team" (VStr "Growth")).1
  = (updateCell_begin
       (updateCell_begin (app Examples.loaded) (VNum 1) "team" (VStr "Growth")).1
       (VNum 1) "status" (VStr "Done")).1.
Proof.
  assert (Hne : "status" <> "team") by done.
  exact (proj1 (edits_compose (app Examples.loaded) (VNum 1) "status" "team"
                  (VStr "Done") (VStr "Growth")) Hne).
Defined.

(** * The error summary and the error indicator *)

Lemma tally_from (rows : list Row) (dl st tn : Z) :
  foldl (fun acc r =>
           let '(dl, st, tn) := acc in
           (if Ui.falsy (prop r "deadline") then dl + 1 else dl,
            if Ui.falsy (prop r "status") then st + 1 else st,
            if Ui.falsy (prop r "tasks_name") then tn + 1 else tn))
        (dl, st, tn) rows
  = (dl + Z.of_nat (length (filter (fun r => Ui.falsy (prop r "deadline")) rows)),
     st + Z.of_nat (length (filter (fun r => Ui.falsy (prop r "status")) rows)),
     tn + Z.of_nat (length (filter (fun r => Ui.falsy (prop r "tasks_name")) rows))).
Proof.
  revert dl st tn. induction rows as [|r rest IH]; intros dl st tn.
  - rewrite !filter_nil. simpl. repeat apply (f_equal2 pair); lia.
  - simpl foldl. rewrite IH. rewrite !filter_cons.
    destruct (Ui.falsy (prop r "deadline")), (Ui.falsy (prop r "status")),
      (Ui.falsy (prop r "tasks_name")); simpl; repeat apply (f_equal2 pair); lia.
Qed.

Lemma filter_length_pos {A : Type} (P : A -> Prop) `{!forall x, Decision (P x)} (l : list A) :
  (0 < length (filter P l))%nat <-> exists x, x ∈ l /\ P x.
Proof.
  split.
  - intros Hlen. destruct (filter P l) as [|x l'] eqn:E; [simpl in Hlen; lia|].
    assert (Hin : x ∈ filter P l) by (rewrite E; left).
    apply list_elem_of_filter in Hin as [? ?]. by exists x.
  - intros (x & Hin & HP).
    assert (Hx : x ∈ filter P l) by by apply list_elem_of_filter.
    destruct (filter P l); [by apply not_elem_of_nil in Hx|simpl; lia].
Qed.

Lemma stored_rows (s : state) (row : Row) :
  row ∈ (map_to_list (rowsMapRef s)).*2 <-> exists p : Z, rowsMapRef s !! p = Some row.
Proof.
  rewrite list_elem_of_fmap. split.
  - intros ([p r] & -> & Hin). apply elem_of_map_to_list in Hin. by exists p.
  - intros (p & Hp). exists (p, row). split; [done|]. by apply elem_of_map_to_list.
Qed.

Lemma errors_effect_entries (s : state) :
  (loadedCount s = 0 -> Ui.errors_effect s = None)
  /\ (loadedCount s <> 0 ->
      exists errors : list Ui.ErrorItem,
        Ui.errors_effect s = Some errors
        /\ Ui.key <$> errors `sublist_of` ["deadline"; "status"; "tasks_name"]
        /\ (forall e : Ui.ErrorItem,
              e ∈ errors ->
              0 < Ui.count e <= Z.of_nat (size (rowsMapRef s)))
        /\ (forall k : string,
              k ∈ ["deadline"; "status"; "tasks_name"] ->
              (exists e : Ui.ErrorItem, e ∈ errors /\ Ui.key e = k)
              <-> exists (p : Z) (row : Row),
                    rowsMapRef s !! p = Some row /\ Ui.falsy (prop row k) = true)).
Proof.
  split.
  { intros H. unfold Ui.errors_effect. by rewrite bool_decide_eq_true_2. }
  intros H. unfold Ui.errors_effect. rewrite bool_decide_eq_false_2 by done.
  unfold Ui.tally. rewrite tally_from.
  set (rows := (map_to_list (rowsMapRef s)).*2).
  set (dl := length (filter (fun r => Ui.falsy (prop r "deadline")) rows)).
  set (st := length (filter (fun r => Ui.falsy (prop r "status")) rows)).
  set (tn := length (filter (fun r => Ui.falsy (prop r "tasks_name")) rows)).
  assert (Hlen : length rows = size (rowsMapRef s)).
  { unfold rows. by rewrite length_fmap, length_map_to_list. }
  assert (Hdl : (dl <= size (rowsMapRef s))%nat)
    by (rewrite <- Hlen; apply length_filter).
  assert (Hst : (st <= size (rowsMapRef s))%nat)
    by (rewrite <- Hlen; apply length_filter).
  assert (Htn : (tn <= size (rowsMapRef s))%nat)
    by (rewrite <- Hlen; apply length_filter).
  assert (Hmiss : forall k,
             (0 < length (filter (fun r => Ui.falsy (prop r k)) rows))%nat
             <-> exists (p : Z) (row : Row),
                   rowsMapRef s !! p = Some row /\ Ui.falsy (prop row k) = true).
  { intros k. rewrite filter_length_pos. split.
    - intros (row & Hin & Hf). apply stored_rows in Hin as [p Hp].
      exists p, row. split; [done|]. by apply Is_true_true.
    - intros (p & row & Hp & Hf). exists row. split.
      + apply stored_rows. by exists p.
      + by apply Is_true_true. }
  eexists. split; [reflexivity|].
  rewrite !filter_cons, filter_nil. simpl Ui.count.
  pose proof (Hmiss "deadline") as H1. pose proof (Hmiss "status") as H2.
  pose proof (Hmiss "tasks_name") as H3. fold dl in H1. fold st in H2. fold tn in H3.
  split; [|split].
  - destruct (decide (0 < 0 + Z.of_nat dl)), (decide (0 < 0 + Z.of_nat st)),
      (decide (0 < 0 + Z.of_nat tn)); simpl;
      repeat first [apply sublist_nil | apply sublist_skip | apply sublist_cons].
  - intros e He.
    destruct (decide (0 < 0 + Z.of_nat dl)), (decide (0 < 0 + Z.of_nat st)),
      (decide (0 < 0 + Z.of_nat tn));
      repeat (apply elem_of_cons in He as [->|He]); try (by apply not_elem_of_nil in He);
      simpl; lia.
  - intros k Hk.
    repeat (apply elem_of_cons in Hk as [->|Hk]); try (by apply not_elem_of_nil in Hk).
    + rewrite <- H1. split.
      * intros (e & He & Hkey).
        destruct (decide (0 < 0 + Z.of_nat dl)); [lia|].
        destruct (decide (0 < 0 + Z.of_nat st)), (decide (0 < 0 + Z.of_nat tn));
          repeat (apply elem_of_cons in He as [->|He]);
          try (by apply not_elem_of_nil in He); simpl in Hkey; discriminate.
      * intros Hpos. exists (Ui.mkError "deadline" "No due date" (0 + Z.of_nat dl)).
        split; [|done]. rewrite decide_True by lia. left.
    + rewrite <- H2. split.
      * intros (e & He & Hkey).
        destruct (decide (0 < 0 + Z.of_nat st)); [lia|].
        destruct (decide (0 < 0 + Z.of_nat dl)), (decide (0 < 0 + Z.of_nat tn));
          repeat (apply elem_of_cons in He as [->|He]);
          try (by apply not_elem_of_nil in He); simpl in Hkey; discriminate.
      * intros Hpos. exists (Ui.mkError "status" "No status" (0 + Z.of_nat st)).
        split; [|done].
        rewrite (decide_True (P := 0 < 0 + Z.of_nat st)) by lia.
        destruct (decide (0 < 0 + Z.of_nat dl)); [right; left|left].
    + rewrite <- H3. split.
      * intros (e & He & Hkey).
        destruct (decide (0 < 0 + Z.of_nat tn)); [lia|].
        destruct (decide (0 < 0 + Z.of_nat dl)), (decide (0 < 0 + Z.of_nat st));
          repeat (apply elem_of_cons in He as [->|He]);
          try (by apply not_elem_of_nil in He); simpl in Hkey; discriminate.
      * intros Hpos. exists (Ui.mkError "tasks_name" "No task name" (0 + Z.of_nat tn)).
        split; [|done].
        rewrite (decide_True (P := 0 < 0 + Z.of_nat tn)) by lia.
        destruct (decide (0 < 0 + Z.of_nat dl)), (decide (0 < 0 + Z.of_nat st));
          repeat first [left | right].
Qed.

(** X8. When the error summary is computed, it lists an item for a field
    exactly when some stored row lacks that field, the items keep the
    order deadline, status, task name, no item has a zero count, and no
    count exceeds the number of stored rows. With a loaded count of 0 the
    effect leaves the summary alone. *)
Theorem errors_effect_lists_missing (s : state) :
  (loadedCount s = 0 -> Ui.errors_effect s = None)
  /\ (loadedCount s <> 0 ->
      exists errors : list Ui.ErrorItem,
        Ui.errors_effect s = Some errors
        /\ Ui.key <$> errors `sublist_of` ["deadline"; "status"; "tasks_name"]
        /\ (forall e : Ui.ErrorItem,
              e ∈ errors ->
              0 < Ui.count e <= Z.of_nat (size (rowsMapRef s)))
        /\ (forall k : string,
              k ∈ ["deadline"; "status"; "tasks_name"] ->
              (exists e : Ui.ErrorItem, e ∈ errors /\ Ui.key e = k)
              <-> exists (p : Z) (row : Row),
                    rowsMapRef s !! p = Some row /\ Ui.falsy (prop row k) = true)).
Proof. exact (errors_effect_entries s). Qed.

Lemma nullish_falsy (v : jsval) : Ui.nullish v = true -> Ui.falsy v = true.
Proof. by destruct v. Qed.

Lemma missing_labels_nil (row : Row) :
  String.concat " · " (Ui.missing_labels row) = ""
  <-> Ui.falsy (prop row "deadline") = false
      /\ Ui.falsy (prop row "status") = false
      /\ Ui.falsy (prop row "tasks_name") = false.
Proof.
  unfold Ui.missing_labels.
  destruct (Ui.falsy (prop row "deadline")), (Ui.falsy (prop row "status")),
    (Ui.falsy (prop row "tasks_name")); vm_compute; split; try done;
    intros (? & ? & ?); done.
Qed.

Lemma shows_error_cases (row : Row) :
  Ui.shows_error row = true
  <-> Ui.falsy (prop row "marcus_error") = false
      \/ (Ui.nullish (prop row "marcus_error") = true
          /\ (Ui.falsy (prop row "deadline") = true
              \/ Ui.falsy (prop row "status") = true
              \/ Ui.falsy (prop row "tasks_name") = true)).
Proof.
  unfold Ui.shows_error, Ui.errText.
  destruct (Ui.nullish (prop row "marcus_error")) eqn:Hn.
  - rewrite (nullish_falsy _ Hn).
    destruct (decide (String.concat " · " (Ui.missing_labels row) = "")) as [He|He].
    + rewrite bool_decide_eq_true_2 by done. simpl.
      apply missing_labels_nil in He as (H1 & H2 & H3). rewrite H1, H2, H3.
      split; [done|]. intros [?|[_ [?|[?|?]]]]; done.
    + rewrite bool_decide_eq_false_2 by done. simpl.
      rewrite bool_decide_eq_false_2 by done. simpl.
      split; [|done]. intros _. right. split; [done|].
      destruct (Ui.falsy (prop row "deadline")) eqn:H1; [by left|].
      destruct (Ui.falsy (prop row "status")) eqn:H2; [by right; left|].
      destruct (Ui.falsy (prop row "tasks_name")) eqn:H3; [by right; right|].
      exfalso. apply He. by apply missing_labels_nil.
  - rewrite negb_true_iff. split; [by left|]. intros [?|[? _]]; done.
Qed.

(** X9. The [marcus_error] cell shows the lit indicator exactly when the
    row carries a [marcus_error] that is not empty, or carries none
    ([undefined] or [null]) and lacks a deadline, a status or a task name.
    A row whose [marcus_error] is the empty string shows the dimmed
    indicator even when fields are missing. *)
Theorem shows_error_iff (row : Row) :
  Ui.shows_error row = true
  <-> Ui.falsy (prop row "marcus_error") = false
      \/ (Ui.nullish (prop row "marcus_error") = true
          /\ (Ui.falsy (prop row "deadline") = true
              \/ Ui.falsy (prop row "status") = true
              \/ Ui.falsy (prop row "tasks_name") = true)).
Proof. exact (shows_error_cases row). Qed.

Lemma effect_empty_summary (s : state) (p : Z) (row : Row) :
  Ui.errors_effect s = Some [] ->
  rowsMapRef s !! p = Some row ->
  Ui.shows_error row = true ->
  Ui.falsy (prop row "marcus_error") = false.
Proof.
  intros Heff Hrow Hshow.
  destruct (errors_effect_entries s) as [Hnone Hsome].
  destruct (decide (loadedCount s = 0)) as [H0|H0];
    [rewrite (Hnone H0) in Heff; discriminate|].
  destruct (Hsome H0) as (errors & Heq & _ & _ & Hiff).
  rewrite Heff in Heq. injection Heq as <-.
  apply shows_error_cases in Hshow as [?|[_ Hmiss]]; [done|].
  exfalso.
  assert (Hno : forall k, k ∈ ["deadline"; "status"; "tasks_name"] ->
                          Ui.falsy (prop row k) = true -> False).
  { intros k Hk Hf.
    destruct (proj2 (Hiff k Hk)) as (e & He & _); [by exists p, row|].
    by apply not_elem_of_nil in He. }
  destruct Hmiss as [?|[?|?]].
  - apply (Hno "deadline"); [left|done].
  - apply (Hno "status"); [right; left|done].
  - apply (Hno "tasks_name"); [right; right; left|done].
Qed.

(** X10. The summary is as fresh as the last run of its effect, and no
    fresher. Right after the effect ran on a store that is not empty, a
    summary with no item means that the only rows of the store with a lit
    indicator are those that carry a [marcus_error]. Later this can fail:
    the effect is due only when [loadedCount] changes, which an edit does
    not do, so after a complete row was loaded, the summary refreshed and
    the row's task name cleared, no run of the effect is due, the summary
    still has no item, and the row's indicator is lit with no
    [marcus_error]. *)
Theorem empty_summary_only_demo_errors :
  (forall (v v' : Summary.view) (p : Z) (row : Row),
      Summary.step v Summary.Flush = Some v' ->
      loadedCount (app (Summary.world_of v)) <> 0 ->
      Summary.errors v' = [] ->
      rowsMapRef (app (Summary.world_of v')) !! p = Some row ->
      Ui.shows_error row = true ->
      Ui.falsy (prop row "marcus_error") = false)
  /\ (exists (v : Summary.view) (p : Z) (row : Row),
        Summary.run Summary.start Samples.clearing = Some v
        /\ Summary.step v Summary.Flush = None
        /\ Summary.errors v = []
        /\ rowsMapRef (app (Summary.world_of v)) !! p = Some row
        /\ Ui.shows_error row = true
        /\ Ui.falsy (prop row "marcus_error") = true).
Proof.
  split.
  - intros v v' p row Hstep H0 Herr Hrow Hshow.
    unfold Summary.step in Hstep. case_bool_decide; [discriminate|].
    injection Hstep as <-. simpl in Herr, Hrow.
    destruct (Ui.errors_effect (app (Summary.world_of v))) as [errs|] eqn:Heff.
    + simpl in Herr. subst errs.
      exact (effect_empty_summary (app (Summary.world_of v)) p row Heff Hrow Hshow).
    + destruct (errors_effect_entries (app (Summary.world_of v))) as [_ Hsome].
      destruct (Hsome H0) as (errs & Heq & _). rewrite Heff in Heq. discriminate.
  - exists (default Summary.start (Summary.run Summary.start Samples.clearing)), 0,
           (with_prop Samples.row_full "tasks_name" (VStr "")).
    do 5 (split; [vm_compute; reflexivity|]). vm_compute; reflexivity.
Qed.

Lemma empty_summary_only_demo_errors_witness :
  Ui.falsy (prop (Events.stored Samples.row_complete) "marcus_error") = false.
Proof.
  pose (v := Summary.mkView (mkWorld Samples.shown ∅ 0 []) [] 0).
  pose (v' := Summary.mkView (mkWorld Samples.shown ∅ 0 []) [] 1).
  assert (Hstep : Summary.step v Summary.Flush = Some v')
    by (vm_compute; reflexivity).
  assert (H0 : loadedCount (app (Summary.world_of v)) <> 0)
    by (vm_compute; discriminate).
  assert (Herr : Summary.errors v' = []) by reflexivity.
  assert (Hrow : rowsMapRef (app (Summary.world_of v')) !! 0
                 = Some (Events.stored Samples.row_complete))
    by (vm_compute; reflexivity).
  assert (Hshow : Ui.shows_error (Events.stored Samples.row_complete) = true)
    by (vm_compute; reflexivity).
  exact (proj1 empty_summary_only_demo_errors v v' 0 _ Hstep H0 Herr Hrow Hshow).
Defined.

Example summary_of_blank_rows :
  Ui.errors_effect
    (fetchPage_resume init 0
       (Parsed (mkJson (Some [Samples.row_blank; Samples.row_full; Examples.row_a]) (Some 3))))
  = Some [Ui.mkError "deadline" "No due date" 2; Ui.mkError "status" "No status" 1;
          Ui.mkError "tasks_name" "No task name" 2].
Proof. vm_compute. reflexivity. Qed.

(** * The column order panel *)

Lemma indexOf_Some (x : string) (l : list string) (i : nat) :
  Ui.indexOf x l = Some i -> l !! i = Some x.
Proof.
  revert i. induction l as [|y l IH]; intros i H; [done|].
  simpl in H. destruct (decide (y = x)) as [->|Hne].
  - rewrite bool_decide_eq_true_2 in H by done. by injection H as <-.
  - rewrite bool_decide_eq_false_2 in H by done.
    destruct (Ui.indexOf x l) as [j|]; [|done]. injection H as <-.
    simpl. by apply IH.
Qed.

Lemma indexOf_None (x : string) (l : list string) :
  Ui.indexOf x l = None <-> x ∉ l.
Proof.
  induction l as [|y l IH]; simpl.
  - split; [intros _; apply not_elem_of_nil|done].
  - destruct (decide (y = x)) as [->|Hne].
    + rewrite bool_decide_eq_true_2 by done. split; [done|].
      intros H. exfalso. apply H. left.
    + rewrite bool_decide_eq_false_2 by done.
      destruct (Ui.indexOf x l) as [j|]; simpl.
      * split; [done|]. intros H. exfalso.
        apply H. right. destruct (decide (x ∈ l)) as [|Hn]; [done|].
        by apply IH in Hn.
      * split; [|done]. intros _. apply not_elem_of_cons. split; [done|].
        by apply IH.
Qed.

Lemma splice_in_perm (i : nat) (x : string) (l : list string) :
  Ui.splice_in i x l ≡ₚ x :: l.
Proof.
  unfold Ui.splice_in. rewrite <- Permutation_middle. by rewrite take_drop.
Qed.

(** X11. Dragging a column over another one in the settings panel only
    reorders: the staged order stays a permutation of what it was, so no
    column is lost or doubled; and when both columns are in the list, the
    dragged one lands at the index the other one had. Without a dragged
    column, over itself, or with a column that is not in the list, the
    order stays as it is. *)
Theorem modalDragOver_reorders (stagedDragged : option string) (id : string)
    (prev : list string) :
  Ui.modalDragOver stagedDragged id prev ≡ₚ prev
  /\ (forall (dragged : string) (to : nat),
        stagedDragged = Some dragged -> dragged <> "" -> dragged <> id ->
        dragged ∈ prev -> Ui.indexOf id prev = Some to ->
        Ui.modalDragOver stagedDragged id prev !! to = Some dragged)
  /\ (stagedDragged = None \/ stagedDragged = Some "" \/ stagedDragged = Some id
      \/ id ∉ prev \/ (forall dragged, stagedDragged = Some dragged -> dragged ∉ prev) ->
      Ui.modalDragOver stagedDragged id prev = prev).
Proof.
  split; [|split].
  - unfold Ui.modalDragOver. destruct stagedDragged as [dragged|]; [|done].
    destruct (_ || _)%bool; [done|].
    destruct (Ui.indexOf dragged prev) as [from|] eqn:Hfrom; [|done].
    destruct (Ui.indexOf id prev) as [to|]; [|done].
    rewrite splice_in_perm. symmetry.
    apply delete_Permutation. by apply indexOf_Some.
  - intros dragged to -> Hne1 Hne2 Hin Hto. unfold Ui.modalDragOver.
    rewrite !bool_decide_eq_false_2 by done. simpl.
    destruct (Ui.indexOf dragged prev) as [from|] eqn:Hfrom;
      [|by apply indexOf_None in Hfrom].
    rewrite Hto. unfold Ui.splice_in.
    apply list_lookup_middle. rewrite length_take_le; [done|].
    pose proof (indexOf_Some _ _ _ Hfrom) as Hf.
    pose proof (indexOf_Some _ _ _ Hto) as Ht.
    rewrite length_delete by (by eexists).
    apply lookup_lt_Some in Ht. lia.
  - unfold Ui.modalDragOver. intros [->|[->|[->|[Hid|Hdr]]]]; try done.
    + destruct (bool_decide (id = "")); simpl; [done|].
      by rewrite bool_decide_eq_true_2.
    + destruct stagedDragged as [dragged|]; [|done].
      destruct (_ || _)%bool; [done|].
      apply indexOf_None in Hid. rewrite Hid.
      by destruct (Ui.indexOf dragged prev).
    + destruct stagedDragged as [dragged|]; [|done].
      destruct (_ || _)%bool; [done|].
      specialize (Hdr dragged eq_refl). apply indexOf_None in Hdr. by rewrite Hdr.
Qed.

Lemma modalDragOver_reorders_witness :
  Ui.modalDragOver (Some "b") "d" Samples.order5 !! 3%nat = Some "b".
Proof.
  assert (H1 : "b" <> "") by done.
  assert (H2 : "b" <> "d") by done.
  assert (H3 : "b" ∈ Samples.order5)
    by (apply (bool_decide_unpack _); vm_compute; exact I).
  assert (H4 : Ui.indexOf "d" Samples.order5 = Some 3%nat) by reflexivity.
  exact (proj1 (proj2 (modalDragOver_reorders (Some "b") "d" Samples.order5))
           "b" 3%nat eq_refl H1 H2 H3 H4).
Defined.

(** * The calendar *)

(** X12. Within a year's months, the two month buttons undo each other,
    keep the month between 0 and 11, and move the month count
    [12 * year + month] by exactly one. *)
Theorem month_buttons_inverse (vY vM : Z) :
  0 <= vM <= 11 ->
  Calendar.nextM (Calendar.prevM (vY, vM)) = (vY, vM)
  /\ Calendar.prevM (Calendar.nextM (vY, vM)) = (vY, vM)
  /\ 0 <= (Calendar.prevM (vY, vM)).2 <= 11
  /\ 0 <= (Calendar.nextM (vY, vM)).2 <= 11
  /\ 12 * (Calendar.prevM (vY, vM)).1 + (Calendar.prevM (vY, vM)).2 = 12 * vY + vM - 1
  /\ 12 * (Calendar.nextM (vY, vM)).1 + (Calendar.nextM (vY, vM)).2 = 12 * vY + vM + 1.
Proof.
  intros H. unfold Calendar.prevM, Calendar.nextM.
  repeat (case_bool_decide; simpl); repeat split; try lia; try (f_equal; lia).
Qed.

Lemma month_buttons_inverse_witness :
  Calendar.nextM (Calendar.prevM (2026, 0)) = (2026, 0).
Proof.
  assert (H : 0 <= 0 <= 11) by lia.
  exact (proj1 (month_buttons_inverse 2026 0 H)).
Defined.

Lemma string_length_app (a b : string) :
  String.length (a +:+ b) = (String.length a + String.length b)%nat.
Proof. induction a as [|x a IH]; [done|]. app_step. simpl. by rewrite IH. Qed.

Lemma string_app_inj_len (a a' b b' : string) :
  String.length a = String.length a' -> a +:+ b = a' +:+ b' -> a = a' /\ b = b'.
Proof.
  revert a'. induction a as [|x a IH]; intros [|x' a'] Hlen Heq; try done.
  revert Heq. app_step. intros Heq. injection Heq as -> Heq.
  simpl in Hlen. destruct (IH a') as [-> ->]; [lia|done|done].
Qed.

Lemma substring_all (s : string) : String.substring 0 (String.length s) s = s.
Proof. induction s as [|x s IH]; [done|]. simpl. by rewrite IH. Qed.

Lemma pretty_N_go_length (k : nat) (x : N) (s : string) :
  (10 ^ N.of_nat k <= x < 10 ^ N.of_nat (S k))%N ->
  String.length (pretty_N_go x s) = (S k + String.length s)%nat.
Proof.
  revert x s. induction k as [|k IH]; intros x s Hx.
  - change (10 ^ N.of_nat 0)%N with 1%N in Hx. change (10 ^ N.of_nat 1)%N with 10%N in Hx.
    rewrite pretty_N_go_step by lia.
    rewrite (N.div_small x 10) by lia. by rewrite pretty_N_go_0.
  - rewrite pretty_N_go_step by (pose proof (N.pow_nonzero 10 (N.of_nat (S k))); lia).
    rewrite !Nat2N.inj_succ, !N.pow_succ_r' in Hx.
    rewrite IH.
    + simpl. lia.
    + rewrite Nat2N.inj_succ, N.pow_succ_r'. split.
      * apply N.div_le_lower_bound; lia.
      * apply N.Div0.div_lt_upper_bound; lia.
Qed.

Lemma pretty_Z_length (k : nat) (z : Z) :
  10 ^ Z.of_nat k <= z < 10 ^ Z.of_nat (S k) ->
  String.length (pretty z) = S k.
Proof.
  intros Hz.
  assert (Hpos : 0 < z) by (pose proof (Z.pow_pos_nonneg 10 (Z.of_nat k)); lia).
  destruct z as [|p|p]; try lia.
  unfold pretty, pretty_Z, pretty, pretty_positive, pretty, pretty_N.
  rewrite decide_False by done.
  rewrite (pretty_N_go_length k); [simpl; lia|].
  assert (H10 : forall n : nat, Z.of_N (10 ^ N.of_nat n) = 10 ^ Z.of_nat n).
  { intros n. rewrite N2Z.inj_pow. by rewrite nat_N_Z. }
  split.
  - apply N2Z.inj_le. rewrite H10. simpl. lia.
  - apply N2Z.inj_lt. rewrite H10. simpl. lia.
Qed.

Lemma padStart2_length (z : Z) :
  0 < z < 100 -> String.length (Calendar.padStart2 (pretty z)) = 2%nat.
Proof.
  intros Hz. unfold Calendar.padStart2.
  destruct (decide (z < 10)) as [Hlt|Hge].
  - assert (H1 : String.length (pretty z) = 1%nat)
      by (apply (pretty_Z_length 0 z); simpl; lia).
    rewrite H1. cbn [String.length]. by rewrite H1.
  - assert (H2 : String.length (pretty z) = 2%nat)
      by (apply (pretty_Z_length 1 z); simpl; lia).
    by rewrite H2.
Qed.

Lemma padStart2_small_inj :
  Forall (fun a => Forall (fun b =>
            Calendar.padStart2 (pretty a) = Calendar.padStart2 (pretty b) -> a = b)
            (seqZ 1 31)) (seqZ 1 31).
Proof. apply (bool_decide_unpack _). vm_compute. exact I. Qed.

Lemma padStart2_inj (a b : Z) :
  1 <= a <= 31 -> 1 <= b <= 31 ->
  Calendar.padStart2 (pretty a) = Calendar.padStart2 (pretty b) -> a = b.
Proof.
  intros Ha Hb. pose proof padStart2_small_inj as H.
  rewrite Forall_forall in H. specialize (H a).
  rewrite Forall_forall in H. apply H; apply elem_of_seqZ; lia.
Qed.

(** X13. For a four-digit year, a month from 0 to 11 and a day from 1 to
    31, [fmt] gives a string of exactly ten characters, so the date cell's
    [slice(0, 10)] shows all of it, and different dates give different
    strings. *)
Theorem fmt_ten_characters (y m d y' m' d' : Z) :
  1000 <= y <= 9999 -> 0 <= m <= 11 -> 1 <= d <= 31 ->
  1000 <= y' <= 9999 -> 0 <= m' <= 11 -> 1 <= d' <= 31 ->
  String.length (Calendar.fmt y m d) = 10%nat
  /\ Calendar.slice10 (Calendar.fmt y m d) = Calendar.fmt y m d
  /\ (Calendar.fmt y m d = Calendar.fmt y' m' d' -> y = y' /\ m = m' /\ d = d').
Proof.
  intros Hy Hm Hd Hy' Hm' Hd'.
  assert (Hlen : forall y m d, 1000 <= y <= 9999 -> 0 <= m <= 11 -> 1 <= d <= 31 ->
                               String.length (Calendar.fmt y m d) = 10%nat).
  { clear. intros y m d Hy Hm Hd. unfold Calendar.fmt.
    rewrite !string_length_app.
    rewrite (pretty_Z_length 3 y) by (simpl; lia).
    rewrite !padStart2_length by lia. done. }
  split; [by apply Hlen|]. split.
  - unfold Calendar.slice10. rewrite <- (Hlen y m d) at 1 by done.
    apply substring_all.
  - unfold Calendar.fmt. intros Heq.
    apply string_app_inj_len in Heq as [Hyy Heq];
      [|by rewrite !(pretty_Z_length 3) by (simpl; lia)].
    apply string_app_inj_len in Heq as [_ Heq]; [|done].
    apply string_app_inj_len in Heq as [Hmm Heq];
      [|by rewrite !padStart2_length by lia].
    apply string_app_inj_len in Heq as [_ Hdd]; [|done].
    apply (inj pretty) in Hyy.
    apply padStart2_inj in Hmm; [|lia|lia].
    apply padStart2_inj in Hdd; [|lia|lia].
    lia.
Qed.

Lemma fmt_ten_characters_witness :
  String.length (Calendar.fmt 2026 0 5) = 10%nat
  /\ Calendar.slice10 (Calendar.fmt 2026 0 5) = Calendar.fmt 2026 0 5
  /\ (Calendar.fmt 2026 0 5 = Calendar.fmt 2026 10 25 ->
      2026 = 2026 /\ 0 = 10 /\ 5 = 25).
Proof.
  assert (Hy : 1000 <= 2026 <= 9999) by lia.
  assert (Hm : 0 <= 0 <= 11) by lia.
  assert (Hd : 1 <= 5 <= 31) by lia.
  assert (Hm' : 0 <= 10 <= 11) by lia.
  assert (Hd' : 1 <= 25 <= 31) by lia.
  exact (fmt_ten_characters 2026 0 5 2026 10 25 Hy Hm Hd Hy Hm' Hd').
Defined.

Lemma pad_week_fills (fuel : nat) (l : list (option Z)) :
  (- Z.of_nat (length l)) mod 7 <= Z.of_nat fuel ->
  Calendar.pad_week fuel l
  = l ++ replicate (Z.to_nat ((- Z.of_nat (length l)) mod 7)) None.
Proof.
  revert l. induction fuel as [|fuel IH]; intros l Hfuel.
  - assert (H0 : (- Z.of_nat (length l)) mod 7 = 0)
      by (pose proof (Z.mod_pos_bound (- Z.of_nat (length l)) 7); lia).
    rewrite H0. simpl. rewrite app_nil_r.
    by destruct (bool_decide (Z.of_nat (length l) mod 7 = 0)).
  - simpl. destruct (decide (Z.of_nat (length l) mod 7 = 0)) as [H0|H0].
    + rewrite bool_decide_eq_true_2 by done.
      assert (H1 : (- Z.of_nat (length l)) mod 7 = 0).
      { revert H0. generalize (Z.of_nat (length l)). intros n Hn.
        pose proof (Z.div_mod n 7 ltac:(lia)).
        pose proof (Z.div_mod (- n) 7 ltac:(lia)).
        pose proof (Z.mod_pos_bound (- n) 7 ltac:(lia)). lia. }
      rewrite H1. simpl. by rewrite app_nil_r.
    + rewrite bool_decide_eq_false_2 by done.
      assert (H1 : (- Z.of_nat (length (l ++ [None : option Z]))) mod 7
                   = (- Z.of_nat (length l)) mod 7 - 1).
      { rewrite length_app. simpl. revert H0.
        replace (Z.of_nat (length l + 1)) with (Z.of_nat (length l) + 1) by lia.
        generalize (Z.of_nat (length l)). intros n Hn.
        pose proof (Z.div_mod n 7 ltac:(lia)).
        pose proof (Z.mod_pos_bound n 7 ltac:(lia)).
        pose proof (Z.div_mod (- n) 7 ltac:(lia)).
        pose proof (Z.mod_pos_bound (- n) 7 ltac:(lia)).
        pose proof (Z.div_mod (- (n + 1)) 7 ltac:(lia)).
        pose proof (Z.mod_pos_bound (- (n + 1)) 7 ltac:(lia)). lia. }
      rewrite IH by lia. rewrite H1, <- app_assoc. f_equal.
      pose proof (Z.mod_pos_bound (- Z.of_nat (length (l ++ [None : option Z]))) 7 ltac:(lia)).
      replace (Z.to_nat ((- Z.of_nat (length l)) mod 7))
        with (S (Z.to_nat ((- Z.of_nat (length l)) mod 7 - 1))) by lia.
      done.
Qed.

(** X14. For a month of [daysInM] days whose first day falls on weekday
    [getDay] (0 for Sunday, up to 6), the padding loop ends within its six
    possible rounds with a number of cells that is a multiple of 7; day [d]
    sits at index [offset + d - 1], where [offset] counts the days from
    Monday to the first day's weekday; and every other cell is empty. *)
Theorem calendar_grid (daysInM getDay : Z) :
  0 <= daysInM -> 0 <= getDay <= 6 ->
  let offset := Calendar.week_offset getDay in
  let grid := Calendar.cells daysInM getDay in
  Z.of_nat (length grid) mod 7 = 0
  /\ offset + daysInM <= Z.of_nat (length grid) < offset + daysInM + 7
  /\ 0 <= offset <= 6 /\ (getDay = 1 -> offset = 0) /\ (getDay = 0 -> offset = 6)
  /\ (forall d : Z, 1 <= d <= daysInM ->
        grid !! Z.to_nat (offset + d - 1) = Some (Some d))
  /\ (forall (i : nat) (d : Z),
        grid !! i = Some (Some d) -> Z.of_nat i = offset + d - 1 /\ 1 <= d <= daysInM).
Proof.
  intros Hdays Hday offset grid.
  assert (Hoff : 0 <= offset <= 6).
  { unfold offset, Calendar.week_offset.
    pose proof (Z.mod_pos_bound (getDay + 6) 7 ltac:(lia)). lia. }
  set (base := replicate (Z.to_nat offset) (None : option Z) ++ (Some <$> seqZ 1 daysInM)).
  assert (Hbase : Z.of_nat (length base) = offset + daysInM).
  { unfold base. rewrite length_app, length_replicate, length_fmap, length_seqZ. lia. }
  assert (Hgrid : grid = base ++ replicate (Z.to_nat ((- Z.of_nat (length base)) mod 7)) None).
  { unfold grid, Calendar.cells. fold offset. fold base. apply pad_week_fills.
    pose proof (Z.mod_pos_bound (- Z.of_nat (length base)) 7 ltac:(lia)). simpl. lia. }
  pose proof (Z.mod_pos_bound (- Z.of_nat (length base)) 7 ltac:(lia)) as Hk.
  assert (Hlen : Z.of_nat (length grid)
                 = offset + daysInM + (- Z.of_nat (length base)) mod 7).
  { rewrite Hgrid, length_app, length_replicate. lia. }
  split; [|split; [|split; [|split; [|split; [|split]]]]].
  - rewrite Hlen, <- Hbase. generalize (Z.of_nat (length base)). intros n.
    pose proof (Z.div_mod (- n) 7 ltac:(lia)) as H1.
    rewrite Z.add_comm.
    replace ((- n) mod 7 + n) with (- ((- n) / 7) * 7) by lia.
    apply Z.mod_mul. lia.
  - lia.
  - done.
  - intros ->. done.
  - intros ->. done.
  - intros d Hd. rewrite Hgrid. rewrite lookup_app_l by lia. unfold base.
    rewrite lookup_app_r by (rewrite length_replicate; lia).
    rewrite length_replicate, list_lookup_fmap.
    rewrite (lookup_seqZ_lt 1 daysInM) by lia. simpl. do 2 f_equal. lia.
  - intros i d Hi. rewrite Hgrid in Hi.
    apply lookup_app_Some in Hi as [Hi|[_ Hi]];
      [|by apply lookup_replicate in Hi as [? _]].
    unfold base in Hi.
    apply lookup_app_Some in Hi as [Hi|[Hge Hi]];
      [by apply lookup_replicate in Hi as [? _]|].
    rewrite length_replicate in Hge, Hi.
    rewrite list_lookup_fmap in Hi.
    destruct (seqZ 1 daysInM !! _) as [d0|] eqn:E; [|done].
    injection Hi as <-. apply lookup_seqZ in E as [-> Hlt]. lia.
Qed.

Lemma calendar_grid_witness :
  Z.of_nat (length (Calendar.cells 31 4)) mod 7 = 0
  /\ Calendar.week_offset 4 + 31 <= Z.of_nat (length (Calendar.cells 31 4))
     < Calendar.week_offset 4 + 31 + 7
  /\ 0 <= Calendar.week_offset 4 <= 6
  /\ (4 = 1 -> Calendar.week_offset 4 = 0) /\ (4 = 0 -> Calendar.week_offset 4 = 6)
  /\ (forall d : Z, 1 <= d <= 31 ->
        Calendar.cells 31 4 !! Z.to_nat (Calendar.week_offset 4 + d - 1) = Some (Some d))
  /\ (forall (i : nat) (d : Z),
        Calendar.cells 31 4 !! i = Some (Some d) ->
        Z.of_nat i = Calendar.week_offset 4 + d - 1 /\ 1 <= d <= 31).
Proof.
  assert (H1 : 0 <= 31) by lia.
  assert (H2 : 0 <= 4 <= 6) by lia.
  exact (calendar_grid 31 4 H1 H2).
Defined.

(** * The cell edit of [Table] *)

Lemma find_row_Some (rowId : jsval) (data : list Row) (first : Row) :
  TableEdit.find_row rowId data = Some first -> row_id first = rowId /\ first ∈ data.
Proof.
  unfold TableEdit.find_row. intros H. apply List.find_some in H as [Hin Heq].
  split; [|by apply list_elem_of_In].
  unfold strict_eq in Heq. by apply bool_decide_eq_true_1 in Heq.
Qed.

Lemma find_row_None (rowId : jsval) (data : list Row) :
  TableEdit.find_row rowId data = None <-> Forall (fun r => row_id r <> rowId) data.
Proof.
  unfold TableEdit.find_row. split.
  - intros H. apply Forall_forall. intros r Hin Heq.
    apply list_elem_of_In in Hin.
    pose proof (List.find_none _ _ H r Hin) as Hf. unfold strict_eq in Hf.
    by rewrite bool_decide_eq_true_2 in Hf.
  - intros Hall. destruct (List.find _ data) as [r|] eqn:E; [|done].
    apply List.find_some in E as [Hin Heq]. apply list_elem_of_In in Hin.
    rewrite Forall_forall in Hall. unfold strict_eq in Heq.
    apply bool_decide_eq_true_1 in Heq. by destruct (Hall r Hin).
Qed.

(** X15. The edit keeps the number of rows and every row of another id,
    and sends one PATCH. Every row with the edited id becomes the first
    such row with the column set to the new value. When no row has the id,
    the rows stay as they are, yet the PATCH is still sent and the row that
    is built holds the edited column alone, without an id. *)
Theorem updateData_patches (data : list Row) (rowId : jsval) (columnId : string)
    (value : jsval) :
  let out := TableEdit.updateData_begin data data rowId columnId value in
  length out.1 = length data
  /\ out.2 = [PatchRow rowId columnId value]
  /\ (forall (i : nat) (row : Row),
        data !! i = Some row -> row_id row <> rowId -> out.1 !! i = Some row)
  /\ (forall (i : nat) (row : Row),
        data !! i = Some row -> row_id row = rowId ->
        exists first : Row,
          TableEdit.find_row rowId data = Some first
          /\ out.1 !! i = Some (with_prop first columnId value)
          /\ prop (with_prop first columnId value) columnId = value)
  /\ (Forall (fun r => row_id r <> rowId) data ->
      out.1 = data
      /\ TableEdit.updatedRow data rowId columnId value = {[ columnId := value ]}).
Proof.
  simpl. change (List.map ?f data) with (f <$> data).
  split; [by rewrite length_fmap|]. split; [done|]. split; [|split].
  - intros i row Hi Hne. rewrite list_lookup_fmap, Hi. simpl.
    unfold strict_eq. by rewrite bool_decide_eq_false_2.
  - intros i row Hi Heq.
    destruct (TableEdit.find_row rowId data) as [first|] eqn:Hfind.
    + exists first. split; [done|]. split; [|apply prop_with_prop].
      rewrite list_lookup_fmap, Hi. simpl. unfold strict_eq.
      rewrite bool_decide_eq_true_2 by done.
      unfold TableEdit.updatedRow. by rewrite Hfind.
    + apply find_row_None in Hfind. rewrite Forall_forall in Hfind.
      destruct (Hfind row); [|done]. apply list_elem_of_lookup. by exists i.
  - intros Hall. split.
    + apply list_eq. intros i. rewrite list_lookup_fmap.
      destruct (data !! i) as [row|] eqn:Hi; [|done]. simpl.
      rewrite Forall_forall in Hall. unfold strict_eq.
      rewrite bool_decide_eq_false_2; [done|].
      apply Hall. apply list_elem_of_lookup. by exists i.
    + unfold TableEdit.updatedRow. apply find_row_None in Hall. rewrite Hall.
      simpl. unfold with_prop. by rewrite insert_empty.
Qed.

Lemma updateData_patches_witness :
  (TableEdit.updateData_begin Samples.table_rows Samples.table_rows
     (VNum 4711) "status" (VStr "Done")).1 = Samples.table_rows
  /\ TableEdit.updatedRow Samples.table_rows (VNum 4711) "status" (VStr "Done")
     = {[ "status" := VStr "Done" ]}.
Proof.
  assert (Hall : Forall (fun r => row_id r <> VNum 4711) Samples.table_rows).
  { unfold Samples.table_rows. repeat (apply Forall_cons; split);
      try apply Forall_nil_2; by vm_compute. }
  exact (proj2 (proj2 (proj2 (proj2
           (updateData_patches Samples.table_rows (VNum 4711) "status" (VStr "Done")))))
           Hall).
Defined.

(** X16. In [Table] the server's echo wins over the optimistic value: for
    an edit of a column other than [id], applying the relayed row of the
    edited id after the edit gives the rows that the relayed row alone
    gives. *)
Theorem table_echo_wins (data : list Row) (rowId : jsval) (columnId : string)
    (value : jsval) (echo : Row) :
  columnId <> "id" -> row_id echo = rowId ->
  Table.on_cell_updated
    (TableEdit.updateData_begin data data rowId columnId value).1 echo
  = Table.on_cell_updated data echo.
Proof.
  intros Hcol Hecho. simpl. unfold Table.on_cell_updated.
  rewrite List.map_map. apply List.map_ext_in. intros row Hin.
  apply list_elem_of_In in Hin. unfold strict_eq. rewrite Hecho.
  destruct (decide (row_id row = rowId)) as [Heq|Hne].
  - rewrite (bool_decide_eq_true_2 _ Heq).
    destruct (TableEdit.find_row rowId data) as [first|] eqn:Hfind.
    + apply find_row_Some in Hfind as Hfirst. destruct Hfirst as [Hid _].
      unfold TableEdit.updatedRow. rewrite Hfind. simpl.
      rewrite bool_decide_eq_true_2; [done|].
      unfold row_id. rewrite prop_with_prop_ne by done. exact Hid.
    + apply find_row_None in Hfind. rewrite Forall_forall in Hfind.
      by destruct (Hfind row Hin).
  - by rewrite !(bool_decide_eq_false_2 _ Hne).
Qed.

Lemma table_echo_wins_witness :
  Table.on_cell_updated
    (TableEdit.updateData_begin Samples.table_rows Samples.table_rows
       (VNum 1) "status" (VStr "Doing")).1 Examples.row_a_done
  = Table.on_cell_updated Samples.table_rows Examples.row_a_done.
Proof.
  assert (Hcol : "status" <> "id") by done.
  assert (Hecho : row_id Examples.row_a_done = VNum 1) by reflexivity.
  exact (table_echo_wins Samples.table_rows (VNum 1) "status" (VStr "Doing")
           Examples.row_a_done Hcol Hecho).
Defined.

(** * The BFF and the client together *)

Lemma digit_cases (c : ascii) :
  Text.is_digit c = true ->
  c ∈ ["0"; "1"; "2"; "3"; "4"; "5"; "6"; "7"; "8"; "9"]%char.
Proof.
  intros H. destruct c as [[] [] [] [] [] [] [] []]; try discriminate H;
    repeat first [left | right].
Qed.

Lemma pretty_N_char_digit (d : N) :
  (d < 10)%N ->
  Text.is_digit (pretty_N_char d) = true
  /\ Bff.digit_value (pretty_N_char d) = Some (Z.of_N d).
Proof.
  intros H.
  assert (d = 0 \/ d = 1 \/ d = 2 \/ d = 3 \/ d = 4 \/ d = 5 \/ d = 6 \/ d = 7
          \/ d = 8 \/ d = 9)%N as Hd by lia.
  repeat (destruct Hd as [->|Hd]); try subst d; by vm_compute.
Qed.

Lemma pretty_N_go_digits (x : N) (s : string) :
  Text.all_chars Text.is_digit s = true ->
  Text.all_chars Text.is_digit (pretty_N_go x s) = true.
Proof.
  revert s. induction (N.lt_wf_0 x) as [x _ IH]; intros s Hs.
  destruct (decide (x = 0)%N) as [->|Hx]; [by rewrite pretty_N_go_0|].
  rewrite pretty_N_go_step by lia. apply IH.
  - apply N.div_lt; lia.
  - simpl. rewrite Hs.
    by destruct (pretty_N_char_digit (x `mod` 10)) as [-> _];
      [apply N.mod_lt|].
Qed.

Lemma leading_digits_pretty (x : N) :
  (0 < x)%N ->
  exists k : Z, 0 <= k /\ forall (s : string) (acc : option Z),
    Bff.leading_digits 10 (pretty_N_go x s) acc
    = Bff.leading_digits 10 s (Some (default 0 acc * 10 ^ k + Z.of_N x)).
Proof.
  induction (N.lt_wf_0 x) as [x _ IH]. intros Hx.
  assert (Hstep : forall s acc,
             Bff.leading_digits 10 (String (pretty_N_char (x `mod` 10)) s) acc
             = Bff.leading_digits 10 s
                 (Some (default 0 acc * 10 + Z.of_N (x `mod` 10)))).
  { intros s acc. simpl.
    destruct (pretty_N_char_digit (x `mod` 10)) as [_ ->]; [by apply N.mod_lt|].
    rewrite bool_decide_eq_true_2; [done|].
    pose proof (N.mod_lt x 10). lia. }
  destruct (decide (x `div` 10 = 0)%N) as [H0|H0].
  - exists 1. split; [lia|]. intros s acc.
    rewrite pretty_N_go_step, H0, pretty_N_go_0, Hstep by done.
    rewrite N.mod_small; [do 2 f_equal; lia|].
    apply N.div_small_iff in H0; lia.
  - destruct (IH (x `div` 10)%N) as (k & Hk & Hgo);
      [apply N.div_lt; lia|by apply N.neq_0_lt_0|].
    exists (k + 1). split; [lia|]. intros s acc.
    rewrite pretty_N_go_step, Hgo, Hstep by done. simpl default.
    do 2 f_equal. rewrite Z.pow_add_r by lia.
    pose proof (N.div_mod x 10 ltac:(lia)) as Hdm.
    apply (f_equal Z.of_N) in Hdm. rewrite N2Z.inj_add, N2Z.inj_mul in Hdm.
    change (Z.of_N 10) with 10 in Hdm. lia.
Qed.

Lemma parseInt_digit_string (c : ascii) (r : string) :
  Text.all_chars Text.is_digit (String c r) = true ->
  Bff.parseInt (String c r)
  = match Bff.leading_digits 10 (String c r) None with
    | None => Bff.NaN
    | Some m => Bff.to_number m
    end.
Proof.
  intros H. simpl in H. apply andb_true_iff in H as [Hc Hr].
  apply digit_cases in Hc.
  repeat (apply elem_of_cons in Hc as [->|Hc]); try (by apply not_elem_of_nil in Hc);
    try reflexivity.
  destruct r as [|c' r']; [reflexivity|].
  simpl in Hr. apply andb_true_iff in Hr as [Hc' _].
  apply digit_cases in Hc'.
  repeat (apply elem_of_cons in Hc' as [->|Hc']); try (by apply not_elem_of_nil in Hc');
    reflexivity.
Qed.

(** [parseInt] reads back what the template literal wrote. *)
Lemma parseInt_pretty (z : Z) :
  0 <= z -> Bff.parseInt (pretty z) = Bff.to_number z.
Proof.
  intros Hz. destruct z as [|p|p]; [reflexivity| |lia].
  unfold pretty, pretty_Z, pretty, pretty_positive, pretty, pretty_N.
  rewrite decide_False by done.
  pose proof (pretty_N_go_digits (N.pos p) "" eq_refl) as Hd.
  destruct (leading_digits_pretty (N.pos p)) as (k & Hk & Hgo); [lia|].
  pose proof (Hgo "" None) as Hl. simpl in Hl.
  destruct (pretty_N_go (N.pos p) "") as [|c r] eqn:E.
  - simpl in Hl. discriminate.
  - rewrite (parseInt_digit_string c r Hd), Hl. reflexivity.
Qed.

Lemma bounding_keeps_valid (limit offset : Z) :
  1 <= limit <= 500 -> 0 <= offset < 2 ^ 53 ->
  Bff.effective_limit (Text.query_of limit offset).1 = Bff.Fin limit
  /\ Bff.effective_offset (Text.query_of limit offset).2 = Bff.Fin offset.
Proof.
  intros Hl Ho. unfold Bff.effective_limit, Bff.effective_offset. simpl.
  rewrite !parseInt_pretty by lia. unfold Bff.to_number.
  rewrite !bool_decide_eq_true_2 by lia.
  split.
  - destruct limit as [|p|p]; try lia. simpl. f_equal. lia.
  - destruct offset as [|p|p]; try lia; simpl; [done|f_equal; lia].
Qed.

(** X17. The bounding leaves valid requests alone: a limit from 1 to 500
    and an offset from 0 up to the largest exactly representable integer,
    written in decimal as the client's URL template writes them, are the
    limit and the offset the handler passes to the query. *)
Theorem valid_query_passes_through (limit offset : Z) :
  1 <= limit <= 500 -> 0 <= offset < 2 ^ 53 ->
  Bff.effective_limit (Text.query_of limit offset).1 = Bff.Fin limit
  /\ Bff.effective_offset (Text.query_of limit offset).2 = Bff.Fin offset.
Proof. exact (bounding_keeps_valid limit offset). Qed.

Lemma valid_query_passes_through_witness :
  Bff.effective_limit (Text.query_of 150 45000).1 = Bff.Fin 150
  /\ Bff.effective_offset (Text.query_of 150 45000).2 = Bff.Fin 45000.
Proof.
  assert (Hl : 1 <= 150 <= 500) by lia.
  assert (Ho : 0 <= 45000 < 2 ^ 53) by lia.
  exact (valid_query_passes_through 150 45000 Hl Ho).
Defined.

(** X18. What the BFF answers to the client's request for a page is what
    the client's consistency argument assumes of a response. For a table
    whose row at rank [i] by ascending id has identity [ident i], and a
    page whose offset is an exact Number, the handler answers 200, the body
    lists at index [i] the row of position [page * PAGE_SIZE + i], holds at
    most [PAGE_SIZE] rows, and carries the number of rows of the table as
    total. *)
Theorem bff_page_is_faithful (table : list Row) (ident : Z -> Z) (page : Z) :
  0 <= page -> page * PAGE_SIZE < 2 ^ 53 ->
  (forall (i : nat) (row : Row),
      merge_sort Bff.id_le table !! i = Some row ->
      row_id row = VNum (ident (Z.of_nat i))) ->
  let q := Text.query_of PAGE_SIZE (page * PAGE_SIZE) in
  let resp := Bff.get_rows (Bff.postgres table) q.1 q.2 in
  let e := FetchSettled page (Parsed (wire (Bff.payload resp))) in
  Bff.status resp = 200
  /\ faithful ident e
  /\ Events.page_sized e
  /\ j_total (wire (Bff.payload resp)) = Some (Z.of_nat (length table)).
Proof.
  intros Hpage Hmax Hident q resp e.
  assert (Hq : Bff.effective_limit q.1 = Bff.Fin PAGE_SIZE
               /\ Bff.effective_offset q.2 = Bff.Fin (page * PAGE_SIZE)).
  { apply bounding_keeps_valid; unfold PAGE_SIZE in *; lia. }
  destruct Hq as [Hl Ho].
  destruct (get_rows_page table q.1 q.2 (page * PAGE_SIZE) Ho ltac:(lia))
    as (l & data & Hl' & _ & _ & Hresp & Hdata & Hlen & _).
  assert (l = PAGE_SIZE) as -> by congruence.
  unfold e, resp. rewrite Hresp. simpl.
  split; [done|]. split; [|split; [done|done]].
  intros i row Hi. rewrite Hdata in Hi.
  apply lookup_take_Some in Hi as [Hi _]. rewrite lookup_drop in Hi.
  rewrite (Hident _ _ Hi). do 2 f_equal. unfold PAGE_SIZE in *. lia.
Qed.

Lemma bff_page_is_faithful_witness :
  Bff.status
    (Bff.get_rows (Bff.postgres Examples.table3)
       (Text.query_of PAGE_SIZE (0 * PAGE_SIZE)).1
       (Text.query_of PAGE_SIZE (0 * PAGE_SIZE)).2) = 200
  /\ faithful Examples.serial
       (FetchSettled 0
          (Parsed (wire (Bff.payload
             (Bff.get_rows (Bff.postgres Examples.table3)
                (Text.query_of PAGE_SIZE (0 * PAGE_SIZE)).1
                (Text.query_of PAGE_SIZE (0 * PAGE_SIZE)).2)))))
  /\ Events.page_sized
       (FetchSettled 0
          (Parsed (wire (Bff.payload
             (Bff.get_rows (Bff.postgres Examples.table3)
                (Text.query_of PAGE_SIZE (0 * PAGE_SIZE)).1
                (Text.query_of PAGE_SIZE (0 * PAGE_SIZE)).2)))))
  /\ j_total (wire (Bff.payload
       (Bff.get_rows (Bff.postgres Examples.table3)
          (Text.query_of PAGE_SIZE (0 * PAGE_SIZE)).1
          (Text.query_of PAGE_SIZE (0 * PAGE_SIZE)).2)))
     = Some (Z.of_nat (length Examples.table3)).
Proof.
  assert (H0 : 0 <= 0) by lia.
  assert (Hmax : 0 * PAGE_SIZE < 2 ^ 53) by done.
  assert (Hid : forall (i : nat) (row : Row),
             merge_sort Bff.id_le Examples.table3 !! i = Some row ->
             row_id row = VNum (Examples.serial (Z.of_nat i))).
  { intros i row. replace (merge_sort Bff.id_le Examples.table3)
      with [Examples.row_a; Examples.row_b;
            ({[ "id" := VNum 3; "status" := VStr "Done" ]} : Row)]
      by (vm_compute; reflexivity).
    destruct i as [|[|[|i]]]; simpl; intros H; try discriminate;
      injection H as <-; vm_compute; reflexivity. }
  exact (bff_page_is_faithful Examples.table3 Examples.serial 0 H0 Hmax Hid).
Defined.

(** * Field names *)

(** X19. For a field name of ASCII characters, the normal form used for
    the SET clause and for CSV headers alike is again of ASCII characters
    and holds no white space and no upper-case letter; normalizing twice
    is normalizing once; and a name made of lower-case letters, digits and
    underscores is its own normal form. *)
Theorem column_of_normal_form (f : string) :
  Bff.ascii_only f = true ->
  Bff.ascii_only (Bff.column_of f) = true
  /\ Text.all_chars (fun c => negb (Bff.is_space c)) (Bff.column_of f) = true
  /\ Text.all_chars (fun c => negb (Text.is_upper c)) (Bff.column_of f) = true
  /\ Bff.column_of (Bff.column_of f) = Bff.column_of f
  /\ (Bff.all_ident f = true -> Bff.column_of f = f).
Proof.
  intros Hascii.
  assert (H1 : Text.all_chars (fun c => negb (Bff.is_space c)) (Bff.column_of f) = true)
    by apply replace_spaces_no_space.
  assert (H2 : Text.all_chars (fun c => negb (Text.is_upper c)) (Bff.column_of f) = true)
    by (apply replace_spaces_no_upper, toLowerCase_no_upper).
  split; [by apply column_of_ascii|].
  split; [done|]. split; [done|]. split.
  - by apply column_of_plain.
  - apply column_of_ident.
Qed.

Lemma column_of_normal_form_witness :
  Bff.ascii_only (Bff.column_of Examples.spaced_name) = true
  /\ Bff.column_of (Bff.column_of Examples.spaced_name)
     = Bff.column_of Examples.spaced_name.
Proof.
  assert (Hascii : Bff.ascii_only Examples.spaced_name = true) by reflexivity.
  pose proof (column_of_normal_form Examples.spaced_name Hascii) as H.
  exact (conj (proj1 H) (proj1 (proj2 (proj2 (proj2 H))))).
Defined.

Lemma setClause_plain (fields : list string) :
  Forall (fun f => Bff.all_ident f = true) fields ->
  imap (fun i f => Bff.column_of f +:+ " = $" +:+ pretty (Z.of_nat i + 1)) fields
  = imap (fun i c => c +:+ " = $" +:+ pretty (Z.of_nat i + 1)) fields.
Proof.
  intros Hall. apply imap_ext. intros i f Hi. simpl.
  rewrite Forall_forall in Hall.
  assert (Hf : Bff.all_ident f = true)
    by (apply Hall, list_elem_of_lookup; by exists i).
  by rewrite (column_of_ident f Hf).
Qed.

(** X20. For field names made of lower-case letters, digits and
    underscores the statement text is the fixed template of a
    parameterized update, with the names as they were sent; every column
    the grid renders cells for has such a name, so an edit made in the grid
    is sent to the database as
    [UPDATE creative_tasks SET <column> = $1 WHERE id = $2 RETURNING *]. *)
Theorem plain_names_give_template :
  (forall fields : list string,
      Forall (fun f => Bff.all_ident f = true) fields ->
      Bff.update_text fields (S (length fields)) = Bff.parameterized_update fields)
  /\ (forall field : string,
        field ∈ COLUMN_LABELS ->
        Bff.all_ident field = true
        /\ Bff.update_text [field] 2
           = "UPDATE creative_tasks SET " +:+ field +:+ " = $1 WHERE id = $2 RETURNING *").
Proof.
  assert (Hgen : forall fields : list string,
             Forall (fun f => Bff.all_ident f = true) fields ->
             Bff.update_text fields (S (length fields)) = Bff.parameterized_update fields).
  { intros fields Hall. unfold Bff.update_text, Bff.parameterized_update, Bff.setClause.
    by rewrite (setClause_plain fields Hall). }
  split; [done|]. intros field Hin.
  assert (Hall : Forall (fun f => Bff.all_ident f = true) COLUMN_LABELS)
    by (apply (bool_decide_unpack _); vm_compute; exact I).
  rewrite Forall_forall in Hall. pose proof (Hall field Hin) as Hid.
  split; [done|].
  assert (Hone : Forall (fun f => Bff.all_ident f = true) [field])
    by (by apply Forall_singleton).
  change (Bff.update_text [field] 2) with (Bff.update_text [field] (S (length [field]))).
  rewrite (Hgen [field] Hone).
  unfold Bff.parameterized_update. cbn [imap String.concat length].
  change (pretty (Z.of_nat 0 + 1)) with "1". change (pretty (Z.of_nat 2)) with "2".
  by rewrite !string_app_assoc.
Qed.

Lemma plain_names_give_template_witness :
  Bff.all_ident "status" = true
  /\ Bff.update_text ["status"] 2
     = "UPDATE creative_tasks SET " +:+ "status" +:+ " = $1 WHERE id = $2 RETURNING *".
Proof.
  assert (Hin : "status" ∈ COLUMN_LABELS)
    by (apply (bool_decide_unpack _); vm_compute; exact I).
  exact (proj2 plain_names_give_template "status" Hin).
Defined.


(** * The CSV import *)

Lemma plain_char_cases (c : ascii) :
  Text.plain_char c = true ->
  Ascii.eqb c Csv.dquote = false /\ Ascii.eqb c "," = false
  /\ Csv.is_newline c = false /\ Ascii.eqb c (ascii_of_nat 10) = false.
Proof. destruct c as [[] [] [] [] [] [] [] []]; vm_compute; intros; by repeat split. Qed.

Lemma scan_plain_char (c : ascii) (rest : string) (st : Csv.scan_state) :
  Text.plain_char c = true ->
  Csv.scan (String c rest) st = Csv.scan rest (Csv.add_char c st).
Proof.
  intros H. destruct (plain_char_cases c H) as (H1 & H2 & H3 & _).
  cbn [Csv.scan]. by rewrite H1, H2, H3.
Qed.

Lemma scan_comma (rest : string) (st : Csv.scan_state) :
  Csv.inQuotes st = false ->
  Csv.scan (String "," rest) st = Csv.scan rest (Csv.end_field st).
Proof.
  intros Hq. cbn [Csv.scan].
  change (Ascii.eqb "," Csv.dquote) with false. cbn [Ascii.eqb Bool.eqb andb].
  by rewrite Hq.
Qed.

Lemma scan_break (nl rest : string) (st : Csv.scan_state) :
  nl ∈ Text.line_breaks ->
  Csv.inQuotes st = false ->
  Text.starts_with_lf rest = false ->
  Csv.scan (nl +:+ rest) st = Csv.scan rest (Csv.end_line st).
Proof.
  intros Hnl Hq Hrest.
  assert (Hq' : Csv.inQuotes (Csv.end_line st) = Csv.inQuotes st).
  { unfold Csv.end_line. repeat case_match; done. }
  unfold Text.line_breaks in Hnl.
  rewrite !elem_of_cons, elem_of_nil in Hnl.
  destruct Hnl as [->|[->|[->|[]]]]; unfold Text.LF, Text.CR, Text.CRLF; repeat app_step.
  - cbn [Csv.scan].
    change (Ascii.eqb (ascii_of_nat 10) Csv.dquote) with false.
    change (Ascii.eqb (ascii_of_nat 10) ",") with false.
    change (Csv.is_newline (ascii_of_nat 10)) with true.
    change (Ascii.eqb (ascii_of_nat 10) (ascii_of_nat 13)) with false.
    rewrite Hq. cbn [andb negb]. by destruct rest.
  - cbn [Csv.scan].
    change (Ascii.eqb (ascii_of_nat 13) Csv.dquote) with false.
    change (Ascii.eqb (ascii_of_nat 13) ",") with false.
    change (Csv.is_newline (ascii_of_nat 13)) with true.
    change (Ascii.eqb (ascii_of_nat 13) (ascii_of_nat 13)) with true.
    rewrite Hq. cbn [andb negb]. destruct rest as [|c' rest']; [done|].
    simpl in Hrest. by rewrite Hrest.
  - cbn [Csv.scan].
    change (Ascii.eqb (ascii_of_nat 13) Csv.dquote) with false.
    change (Ascii.eqb (ascii_of_nat 13) ",") with false.
    change (Csv.is_newline (ascii_of_nat 13)) with true.
    change (Ascii.eqb (ascii_of_nat 13) (ascii_of_nat 13)) with true.
    change (Ascii.eqb (ascii_of_nat 10) (ascii_of_nat 10)) with true.
    rewrite Hq. by cbn [andb negb].
Qed.


Lemma scan_plain_field (f rest : string) (st : Csv.scan_state) :
  Text.all_chars Text.plain_char f = true ->
  Csv.scan (f +:+ rest) st
  = Csv.scan rest (Csv.mkScan (Csv.rows st) (Csv.currentRow st)
                              (Csv.currentField st +:+ f) (Csv.inQuotes st)).
Proof.
  revert st. induction f as [|c f IH]; intros st Hall.
  - app_step. rewrite string_app_nil_r. by destruct st.
  - simpl in Hall. apply andb_true_iff in Hall as [Hc Hf].
    app_step. rewrite (scan_plain_char _ _ _ Hc), (IH _ Hf).
    unfold Csv.add_char. cbn [Csv.rows Csv.currentRow Csv.currentField Csv.inQuotes].
    rewrite string_app_assoc. by repeat app_step.
Qed.

Lemma plain_field (f : string) :
  Text.plain f = true ->
  Text.all_chars Text.plain_char f = true /\ Csv.trim f = f.
Proof.
  unfold Text.plain. intros H. apply andb_true_iff in H as [H1 H2].
  split; [done|]. by apply bool_decide_eq_true in H2.
Qed.

Lemma scan_line (row : list string) (f rest : string) (st : Csv.scan_state) :
  Forall (fun f => Text.plain f = true) (f :: row) ->
  Csv.inQuotes st = false ->
  Csv.currentField st = "" ->
  Csv.scan (String.concat "," (f :: row) +:+ rest) st
  = Csv.scan rest (Csv.mkScan (Csv.rows st)
                              (Csv.currentRow st ++ List.removelast (f :: row))
                              (List.last (f :: row) "") false).
Proof.
  revert f st. induction row as [|g row IH]; intros f st Hall Hq Hf.
  - apply Forall_cons in Hall as [Hp _]. destruct (plain_field f Hp) as [Hc _].
    cbn [String.concat List.removelast last].
    rewrite (scan_plain_field _ _ _ Hc), Hq, Hf, app_nil_r. by app_step.
  - apply Forall_cons in Hall as [Hp Hall]. destruct (plain_field f Hp) as [Hc Ht].
    change (String.concat "," (f :: g :: row))
      with (f +:+ "," +:+ String.concat "," (g :: row)).
    rewrite !string_app_assoc. repeat app_step.
    rewrite (scan_plain_field _ _ _ Hc), scan_comma by done.
    unfold Csv.end_field. cbn [Csv.rows Csv.currentRow Csv.currentField Csv.inQuotes].
    rewrite Hf, Hq. app_step. rewrite Ht.
    rewrite (IH g _ Hall) by done.
    cbn [Csv.rows Csv.currentRow Csv.currentField Csv.inQuotes].
    change (List.removelast (f :: g :: row)) with (f :: List.removelast (g :: row)).
    change (List.last (f :: g :: row) "") with (List.last (g :: row) "").
    by rewrite <- app_assoc.
Qed.

Lemma end_line_clean (rs : list (list string)) :
  Csv.end_line (Csv.mkScan rs [] "" false) = Csv.mkScan rs [] "" false.
Proof. reflexivity. Qed.

Lemma end_line_row (rs : list (list string)) (r : list string) :
  Text.kept_line r ->
  Csv.end_line (Csv.mkScan rs (List.removelast r) (List.last r "") false)
  = Csv.mkScan (rs ++ [r]) [] "" false.
Proof.
  intros (Hne & Hone & Hall).
  pose proof (app_removelast_last "" Hne) as Hr.
  assert (Hlast : Csv.trim (List.last r "") = List.last r "").
  { rewrite Forall_forall in Hall. apply plain_field, Hall.
    rewrite Hr at 2. apply elem_of_app. right. apply list_elem_of_singleton. done. }
  unfold Csv.end_line. cbn [Csv.rows Csv.currentRow Csv.currentField Csv.inQuotes].
  assert (Hcond : (negb (bool_decide (List.last r "" = "")) || negb (bool_decide (List.removelast r = [])))%bool = true).
  { apply orb_true_iff. destruct (decide (List.last r "" = "")) as [He|He].
    - right. apply negb_true_iff, bool_decide_eq_false. intros Hn.
      apply Hone. by rewrite Hr, He, Hn.
    - left. by apply negb_true_iff, bool_decide_eq_false. }
  rewrite Hcond. unfold Csv.end_field.
  cbn [Csv.rows Csv.currentRow Csv.currentField Csv.inQuotes].
  rewrite Hlast, <- Hr.
  by rewrite bool_decide_eq_false_2.
Qed.

Lemma render_cons (nl : string) (r r2 : list string) (rows : list (list string)) :
  Text.render nl (r :: r2 :: rows)
  = String.concat "," r +:+ nl +:+ Text.render nl (r2 :: rows).
Proof. reflexivity. Qed.

Lemma line_head (r : list string) (rest : string) :
  Text.kept_line r ->
  Text.starts_with_lf (String.concat "," r +:+ rest) = false.
Proof.
  intros (Hne & Hone & Hall).
  destruct r as [|f row]; [done|]. apply Forall_cons in Hall as [Hp Hall].
  destruct f as [|c f].
  - destruct row as [|g row]; [done|].
    change (String.concat "," ("" :: g :: row))
      with ("" +:+ "," +:+ String.concat "," (g :: row)).
    by repeat app_step.
  - destruct (plain_field _ Hp) as [Hc _]. simpl in Hc.
    apply andb_true_iff in Hc as [Hc _].
    destruct (plain_char_cases c Hc) as (_ & _ & _ & Hlf).
    destruct row as [|g row].
    + cbn [String.concat]. by app_step.
    + change (String.concat "," (String c f :: g :: row))
        with (String c f +:+ "," +:+ String.concat "," (g :: row)).
      by app_step.
Qed.

Lemma render_head (nl : string) (r : list string) (rows : list (list string)) :
  Text.kept_line r ->
  Text.starts_with_lf (Text.render nl (r :: rows)) = false.
Proof.
  intros Hr. destruct rows as [|r2 rows].
  - unfold Text.render. cbn [fmap list_fmap String.concat].
    rewrite <- (string_app_nil_r (String.concat "," r)). by apply line_head.
  - rewrite render_cons. by apply line_head.
Qed.

Lemma scan_render (nl : string) (rows : list (list string)) (r : list string)
    (rs : list (list string)) :
  nl ∈ Text.line_breaks ->
  Forall Text.kept_line (r :: rows) ->
  Csv.end_line (Csv.scan (Text.render nl (r :: rows)) (Csv.mkScan rs [] "" false))
  = Csv.mkScan (rs ++ r :: rows) [] "" false.
Proof.
  intros Hnl. revert r rs. induction rows as [|r2 rows IH]; intros r rs Hall.
  - apply Forall_cons in Hall as [Hr _].
    pose proof Hr as (Hne & _ & Hp). destruct r as [|f row]; [done|].
    unfold Text.render. cbn [fmap list_fmap]. change (String.concat nl [?x]) with x.
    rewrite <- (string_app_nil_r (String.concat "," (f :: row))).
    rewrite (scan_line row f "" _ Hp) by done.
    cbn [Csv.scan Csv.rows Csv.currentRow].
    change ([] ++ List.removelast (f :: row)) with (List.removelast (f :: row)).
    by apply end_line_row.
  - apply Forall_cons in Hall as [Hr Hall].
    pose proof Hr as (Hne & _ & Hp). destruct r as [|f row]; [done|].
    pose proof Hall as Hall'. apply Forall_cons in Hall' as [Hr2 _].
    rewrite render_cons.
    rewrite (scan_line row f _ _ Hp) by done.
    cbn [Csv.rows Csv.currentRow app].
    rewrite (scan_break nl _ _ Hnl) by (done || by apply render_head).
    change ([] ++ List.removelast (f :: row)) with (List.removelast (f :: row)).
    rewrite (end_line_row rs (f :: row) Hr).
    rewrite (IH r2 _ Hall). by rewrite <- app_assoc.
Qed.

(** X21. A text of unquoted fields, joined by commas into lines and by
    line feeds, carriage returns or both into a file, is parsed back into
    the same lines of the same fields, whichever of the three line breaks
    the file uses; the first line gives the keys, normalized as field names
    are, and every further line a row. *)
Theorem csv_round_trip (nl : string) (rows : list (list string)) :
  nl ∈ Text.line_breaks ->
  Forall Text.kept_line rows ->
  Csv.parse_rows (Text.render nl rows) = rows
  /\ Csv.parseCSV (Text.render nl rows)
     = match rows with
       | header :: (_ :: _) as body => Csv.make_row (Bff.column_of <$> header) <$> body
       | _ => []
       end.
Proof.
  intros Hnl Hall.
  assert (Hrows : Csv.parse_rows (Text.render nl rows) = rows).
  { unfold Csv.parse_rows, Csv.scan_start. destruct rows as [|r rows]; [done|].
    by rewrite (scan_render nl rows r [] Hnl Hall). }
  split; [done|]. unfold Csv.parseCSV. rewrite Hrows.
  destruct rows as [|header [|r rows]]; [done..|].
  apply Forall_cons in Hall as [(_ & _ & Hp) _].
  f_equal. f_equal. apply list_fmap_ext. intros i h Hi.
  rewrite Forall_forall in Hp.
  assert (Hh : Text.plain h = true) by (apply Hp, list_elem_of_lookup; by exists i).
  by destruct (plain_field h Hh) as [_ ->].
Qed.



Lemma csv_round_trip_witness :
  Csv.parse_rows (Text.render Text.CRLF Samples.csv_lines) = Samples.csv_lines
  /\ Csv.parseCSV (Text.render Text.CRLF Samples.csv_lines)
     = Csv.make_row ["tasks_name"; "status"]
       <$> [["Task_1"; "Done"]; ["Task_2"; "In Progress"]].
Proof.
  assert (Hnl : Text.CRLF ∈ Text.line_breaks)
    by (apply (bool_decide_unpack _); vm_compute; exact I).
  assert (Hall : Forall (fun r => r <> [] /\ r <> [EmptyString]
                                  /\ Forall (fun f => Text.plain f = true) r) Samples.csv_lines)
    by (apply (bool_decide_unpack _); vm_compute; exact I).
  exact (csv_round_trip Text.CRLF Samples.csv_lines Hnl Hall).
Defined.

(** ** Texts with no line break *)

Lemma end_line_rows (st : Csv.scan_state) :
  (length (Csv.rows (Csv.end_line st)) <= S (length (Csv.rows st)))%nat.
Proof.
  unfold Csv.end_line. repeat case_match; simpl; rewrite ?length_app; simpl; lia.
Qed.

Lemma scan_no_break (n : nat) (s : string) (st : Csv.scan_state) :
  (String.length s <= n)%nat ->
  Text.all_chars (fun c => negb (Csv.is_newline c)) s = true ->
  Csv.rows (Csv.scan s st) = Csv.rows st.
Proof.
  revert s st. induction n as [|n IH]; intros s st Hlen Hall.
  - destruct s; [done|simpl in Hlen; lia].
  - destruct s as [|c rest]; [done|]. simpl in Hlen, Hall.
    apply andb_true_iff in Hall as [Hc Hrest]. apply negb_true_iff in Hc.
    cbn [Csv.scan]. rewrite Hc. cbn [andb].
    destruct (Ascii.eqb c Csv.dquote).
    + destruct rest as [|c' rest'].
      * by rewrite IH by (simpl; lia || done).
      * destruct (Csv.inQuotes st && Ascii.eqb c' Csv.dquote)%bool.
        -- simpl in Hlen, Hrest. apply andb_true_iff in Hrest as [_ Hrest].
           by rewrite IH by (lia || done).
        -- by rewrite IH by (simpl in *; lia || done).
    + destruct (Ascii.eqb c "," && negb (Csv.inQuotes st))%bool;
        by rewrite IH by (lia || done).
Qed.

(** X22. A text with no line feed and no carriage return imports nothing,
    whatever else it holds: its only line, if it has one, is taken as the
    header line, and fewer than two lines give no rows. *)
Theorem one_line_imports_nothing (csvContent : string) :
  Text.all_chars (fun c => negb (Csv.is_newline c)) csvContent = true ->
  Csv.parseCSV csvContent = [].
Proof.
  intros Hall. unfold Csv.parseCSV.
  pose proof (end_line_rows (Csv.scan csvContent Csv.scan_start)) as Hle.
  rewrite (scan_no_break _ csvContent Csv.scan_start (le_n _) Hall) in Hle.
  unfold Csv.parse_rows. simpl in Hle.
  destruct (Csv.rows (Csv.end_line _)) as [|h [|r rs]]; [done..|simpl in Hle; lia].
Qed.

Lemma one_line_imports_nothing_witness :
  Csv.parseCSV "Tasks Name,Status" = [].
Proof.
  assert (Hall : Text.all_chars (fun c => negb (Csv.is_newline c)) "Tasks Name,Status" = true)
    by reflexivity.
  exact (one_line_imports_nothing "Tasks Name,Status" Hall).
Defined.

(** ** The rows of the import *)

Lemma put_other (fields : list string) (l : list (nat * string)) (row : Row) (h : string) :
  Forall (fun hi => hi.2 <> h) l ->
  foldl (fun row hi => Csv.set_key row hi.2 (VStr (Csv.cell_or_empty fields hi.1))) row l !! h
  = row !! h.
Proof.
  revert row. induction l as [|[i k] l IH]; intros row Hall; [done|].
  apply Forall_cons in Hall as [Hk Hall]. cbn [foldl]. rewrite (IH _ Hall).
  unfold Csv.set_key. simpl in *. case_bool_decide; [done|].
  by rewrite lookup_insert_ne.
Qed.

Lemma put_from (fields : list string) (l : list (nat * string)) (row : Row)
    (h : string) (v : jsval) :
  foldl (fun row hi => Csv.set_key row hi.2 (VStr (Csv.cell_or_empty fields hi.1))) row l !! h
  = Some v ->
  row !! h = Some v
  \/ (h <> "__proto__"
      /\ exists i, (i, h) ∈ l /\ v = VStr (Csv.cell_or_empty fields i)).
Proof.
  revert row. induction l as [|[i k] l IH]; intros row Hv; [by left|].
  cbn [foldl] in Hv. destruct (IH _ Hv) as [Hrow|(Hp & j & Hj & ->)].
  - unfold Csv.set_key in Hrow. simpl in Hrow. case_bool_decide; [by left|].
    destruct (decide (k = h)) as [->|Hne].
    + rewrite lookup_insert_eq in Hrow. injection Hrow as <-.
      right. split; [done|]. exists i. split; [apply elem_of_cons; by left|done].
    + rewrite lookup_insert_ne in Hrow by done. by left.
  - right. split; [done|]. exists j. split; [apply elem_of_cons; by right|done].
Qed.

Lemma make_row_from (headers fields : list string) (h : string) (v : jsval) :
  Csv.make_row headers fields !! h = Some v ->
  h <> "__proto__"
  /\ exists i : nat, headers !! i = Some h /\ v = VStr (Csv.cell_or_empty fields i).
Proof.
  intros Hv. unfold Csv.make_row in Hv.
  destruct (put_from _ _ _ _ _ Hv) as [He|(Hp & i & Hi & ->)]; [done|].
  split; [done|]. exists i. split; [|done].
  apply elem_of_lookup_imap in Hi as (j & k & Heq & Hj).
  by injection Heq as -> ->.
Qed.

Lemma make_row_last (fields pre post : list string) (h : string) :
  h ∉ post -> h <> "__proto__" ->
  Csv.make_row (pre ++ h :: post) fields !! h
  = Some (VStr (Csv.cell_or_empty fields (length pre))).
Proof.
  intros Hpost Hp. unfold Csv.make_row.
  rewrite imap_app, foldl_app. cbn [imap foldl].
  rewrite put_other.
  - unfold Csv.set_key. simpl. rewrite bool_decide_eq_false_2 by done.
    rewrite lookup_insert_eq. do 3 f_equal. lia.
  - apply Forall_forall. intros [j k] Hin.
    apply elem_of_lookup_imap in Hin as (j' & k' & Heq & Hj).
    injection Heq as -> ->. simpl. intros ->.
    apply Hpost, list_elem_of_lookup. by exists j'.
Qed.

(** X23. The object built for a line of the file has string values only;
    each of its keys is a header other than [__proto__], and its value is
    the field of the line at the position of that header, or the empty
    string when the line is shorter. Where a header occurs more than once
    its last occurrence gives the value. *)
Theorem make_row_entries (headers fields : list string) :
  (forall (h : string) (v : jsval),
      Csv.make_row headers fields !! h = Some v ->
      h <> "__proto__"
      /\ exists i : nat, headers !! i = Some h /\ v = VStr (Csv.cell_or_empty fields i))
  /\ (forall (pre post : list string) (h : string),
        headers = pre ++ h :: post -> h ∉ post -> h <> "__proto__" ->
        Csv.make_row headers fields !! h
        = Some (VStr (Csv.cell_or_empty fields (length pre)))).
Proof.
  split.
  - apply make_row_from.
  - intros pre post h -> Hpost Hp. by apply make_row_last.
Qed.

Lemma make_row_entries_witness :
  Csv.make_row ["status"; "team"; "status"] ["Done"; "Agency"] !! "status"
  = Some (VStr "").
Proof.
  assert (Hpost : "status" ∉ @nil string) by apply not_elem_of_nil.
  assert (Hp : "status" <> "__proto__") by done.
  exact (proj2 (make_row_entries ["status"; "team"; "status"] ["Done"; "Agency"])
           ["status"; "team"] [] "status" eq_refl Hpost Hp).
Defined.

(** X24. The twenty values bound to the INSERT for an imported line are
    all strings, never [NULL]; a column of the table that is no header of
    the file gets the empty string. *)
Theorem insert_values_strings (headers fields : list string) :
  length (Csv.insert_values (Csv.make_row headers fields)) = 20%nat
  /\ Forall (fun v => exists s : string, v = VStr s)
            (Csv.insert_values (Csv.make_row headers fields))
  /\ (forall (i : nat) (c : string),
        Csv.INSERT_COLUMNS !! i = Some c -> c ∉ headers ->
        Csv.insert_values (Csv.make_row headers fields) !! i = Some (VStr "")).
Proof.
  split; [done|]. split.
  - unfold Csv.insert_values. apply Forall_fmap, Forall_forall. intros c _. simpl.
    unfold prop. destruct (Csv.make_row headers fields !! c) as [v|] eqn:Hv.
    + destruct (make_row_from _ _ _ _ Hv) as (_ & i & _ & ->). simpl.
      case_bool_decide; by eexists.
    + simpl. by eexists.
  - intros i c Hi Hc. unfold Csv.insert_values. rewrite list_lookup_fmap, Hi. simpl.
    unfold prop.
    destruct (Csv.make_row headers fields !! c) as [v|] eqn:Hv; [|done].
    destruct (make_row_from _ _ _ _ Hv) as (_ & j & Hj & _).
    exfalso. apply Hc, list_elem_of_lookup. by exists j.
Qed.

Lemma insert_values_strings_witness :
  Csv.insert_values (Csv.make_row ["status"] ["Done"]) !! 0%nat = Some (VStr "").
Proof.
  assert (Hc : "tasks_name" ∉ ["status"])
    by (apply (bool_decide_unpack _); vm_compute; exact I).
  exact (proj2 (proj2 (insert_values_strings ["status"] ["Done"]))
           0%nat "tasks_name" eq_refl Hc).
Defined.


(** ** Quoted fields *)

Lemma scan_inside_quotes (q rest : string) (st : Csv.scan_state) :
  Csv.inQuotes st = true ->
  Text.starts_with_dquote rest = false ->
  Csv.scan (Text.escape q +:+ String Csv.dquote rest) st
  = Csv.scan rest (Csv.mkScan (Csv.rows st) (Csv.currentRow st)
                              (Csv.currentField st +:+ q) false).
Proof.
  intros Hq Hrest. revert st Hq. induction q as [|c q IH]; intros st Hq.
  - cbn [Text.escape]. app_step. cbn [Csv.scan].
    rewrite Ascii.eqb_refl, string_app_nil_r.
    unfold Csv.toggle. rewrite Hq.
    destruct rest as [|c' rest']; [done|]. simpl in Hrest. by rewrite Hrest.
  - cbn [Text.escape]. destruct (Ascii.eqb c Csv.dquote) eqn:Hc.
    + apply Ascii.eqb_eq in Hc as ->. repeat app_step. cbn [Csv.scan].
      rewrite Ascii.eqb_refl, Hq. cbn [andb].
      rewrite IH by done. unfold Csv.add_char.
      cbn [Csv.rows Csv.currentRow Csv.currentField].
      rewrite string_app_assoc. by repeat app_step.
    + app_step. cbn [Csv.scan]. rewrite Hc, Hq. cbn [negb andb].
      rewrite !andb_false_r.
      rewrite IH by done. unfold Csv.add_char.
      cbn [Csv.rows Csv.currentRow Csv.currentField].
      rewrite string_app_assoc. by repeat app_step.
Qed.

(** X25. Outside quotes, a quoted field adds its content to the current
    field as it is: commas and line breaks in it end nothing, and each
    doubled quote gives one quote. The closing quote is the first one not
    followed by another. *)
Theorem quoted_field_is_literal (q rest : string) (st : Csv.scan_state) :
  Csv.inQuotes st = false ->
  Text.starts_with_dquote rest = false ->
  Csv.scan (Text.quoted q +:+ rest) st
  = Csv.scan rest (Csv.mkScan (Csv.rows st) (Csv.currentRow st)
                              (Csv.currentField st +:+ q) false).
Proof.
  intros Hq Hrest. unfold Text.quoted. app_step.
  rewrite string_app_assoc. repeat app_step.
  cbn [Csv.scan]. rewrite Ascii.eqb_refl, Hq. cbn [andb].
  assert (Hopen : Csv.scan (Text.escape q +:+ String Csv.dquote rest) (Csv.toggle st)
                  = Csv.scan rest (Csv.mkScan (Csv.rows st) (Csv.currentRow st)
                                              (Csv.currentField st +:+ q) false)).
  { rewrite scan_inside_quotes; [done| |done]. unfold Csv.toggle. simpl. by rewrite Hq. }
  by destruct (Text.escape q +:+ String Csv.dquote rest).
Qed.


Lemma quoted_field_is_literal_witness :
  Csv.scan (Text.quoted "a,b" +:+ ",c") Csv.scan_start
  = Csv.scan ",c" (Csv.mkScan [] [] ("" +:+ "a,b") false).
Proof.
  assert (Hq : Csv.inQuotes Csv.scan_start = false) by reflexivity.
  assert (Hrest : Text.starts_with_dquote ",c" = false) by reflexivity.
  exact (quoted_field_is_literal "a,b" ",c" Csv.scan_start Hq Hrest).
Defined.

(** * An edit, from the grid to the database and back *)

Lemma column_labels_plain (field : string) :
  field ∈ COLUMN_LABELS -> Bff.all_ident field = true /\ field <> "id".
Proof.
  intros Hin.
  assert (Hall : Forall (fun f => Bff.all_ident f = true /\ f <> "id") COLUMN_LABELS)
    by (apply (bool_decide_unpack _); vm_compute; exact I).
  rewrite Forall_forall in Hall. by apply Hall.
Qed.

(** X26. An edit of a loaded row made in the grid: the component patches
    its copy of the row and sends one PATCH; for that request the BFF runs
    the one-column update on the edited column with the new value as [$1]
    and the row's id as [$2]; it broadcasts the row the database returns,
    and nothing when the database returns no row or fails; and when the
    returned row is the component's patched copy, the broadcast leaves the
    sender's store as the edit made it. *)
Theorem grid_edit_round_trip (s : state) (pool : Bff.pool_t) (id idx : Z)
    (field v : string) (cur : Row) :
  0 <= id < 2 ^ 53 ->
  field ∈ COLUMN_LABELS ->
  idToIdxRef s !! VNum id = Some idx ->
  rowsMapRef s !! idx = Some cur ->
  row_id cur = VNum id ->
  let sent := updateCell_begin s (VNum id) field (VStr v) in
  let text := "UPDATE creative_tasks SET " +:+ field +:+ " = $1 WHERE id = $2 RETURNING *" in
  let values := [Bff.PVal (VStr v); Bff.PNum (Bff.Fin id)] in
  let out := Bff.patch_row pool (pretty id) [(field, VStr v)] in
  sent.2 = [PatchRow (VNum id) field (VStr v)]
  /\ rowsMapRef sent.1 !! idx = Some (with_prop cur field (VStr v))
  /\ (forall (row : Row) (rest : list Row),
        pool text values = Bff.QRows (row :: rest) ->
        out = (Bff.mkResponse 200 (Bff.BRow row), [("cell-updated", row)]))
  /\ (pool text values = Bff.QRows [] -> out.2 = [])
  /\ (pool text values = Bff.QThrow -> out.2 = [])
  /\ store (on_cell_updated sent.1 (with_prop cur field (VStr v))) = store sent.1.
Proof.
  intros Hid Hfield Hidx Hcur Hrow. cbv zeta.
  destruct (column_labels_plain field Hfield) as [Hplain Hne].
  assert (Hbegin : (updateCell_begin s (VNum id) field (VStr v)).1
                   = close_editors (set_rows (<[idx:=with_prop cur field (VStr v)]> (rowsMapRef s)) s)).
  { unfold updateCell_begin. by rewrite Hidx, Hcur. }
  assert (Hout : Bff.patch_row pool (pretty id) [(field, VStr v)]
                 = match pool ("UPDATE creative_tasks SET " +:+ field +:+ " = $1 WHERE id = $2 RETURNING *")
                              [Bff.PVal (VStr v); Bff.PNum (Bff.Fin id)] with
                   | Bff.QThrow => (Bff.mkResponse 500 (Bff.BError "Database error"), [])
                   | Bff.QRows [] => (Bff.mkResponse 404 (Bff.BError "Row not found"), [])
                   | Bff.QRows (updatedRow :: _) =>
                       (Bff.mkResponse 200 (Bff.BRow updatedRow), [("cell-updated", updatedRow)])
                   end).
  { unfold Bff.patch_row. cbn [fmap list_fmap fst length]. rewrite bool_decide_eq_false_2 by done.
    assert (Hv : Bff.update_values [(field, VStr v)] (Bff.parseInt (pretty id))
                 = [Bff.PVal (VStr v); Bff.PNum (Bff.Fin id)]).
    { unfold Bff.update_values, Bff.body_get. cbn [fmap list_fmap fst List.find app].
      rewrite String.eqb_refl. cbn [fmap option_fmap option_map snd default].
      rewrite parseInt_pretty by lia. unfold Bff.to_number.
      by rewrite bool_decide_eq_true_2 by lia. }
    rewrite Hv. cbn [length].
    assert (Ht : Bff.update_text [field] 2
                 = "UPDATE creative_tasks SET " +:+ field +:+ " = $1 WHERE id = $2 RETURNING *").
    { unfold Bff.update_text, Bff.setClause. cbn [imap String.concat].
      rewrite (column_of_ident field Hplain).
      change (pretty (Z.of_nat 0 + 1)) with "1". change (pretty (Z.of_nat 2)) with "2".
      by rewrite !string_app_assoc. }
    by rewrite Ht. }
  split; [reflexivity|]. split.
  { rewrite Hbegin. simpl. apply lookup_insert_eq. }
  split.
  { intros row rest Hq. by rewrite Hout, Hq. }
  split.
  { intros Hq. by rewrite Hout, Hq. }
  split.
  { intros Hq. by rewrite Hout, Hq. }
  rewrite Hbegin. unfold on_cell_updated.
  assert (Hkey : row_id (with_prop cur field (VStr v)) = VNum id).
  { unfold row_id in *. rewrite prop_with_prop_ne by done. exact Hrow. }
  rewrite Hkey. cbn [idToIdxRef close_editors set_rows]. rewrite Hidx.
  unfold store. simpl. by rewrite insert_insert_eq.
Qed.

Lemma grid_edit_round_trip_witness :
  Bff.patch_row Examples.done_pool (pretty 1) [("status", VStr "Done")]
  = (Bff.mkResponse 200 (Bff.BRow Examples.row_a_done),
     [("cell-updated", Examples.row_a_done)]).
Proof.
  assert (Hid : 0 <= 1 < 2 ^ 53) by lia.
  assert (Hfield : "status" ∈ COLUMN_LABELS)
    by (apply (bool_decide_unpack _); vm_compute; exact I).
  assert (Hidx : idToIdxRef (app Examples.loaded) !! VNum 1 = Some 0)
    by (vm_compute; reflexivity).
  assert (Hcur : rowsMapRef (app Examples.loaded) !! 0 = Some Examples.row_a)
    by (vm_compute; reflexivity).
  assert (Hrow : row_id Examples.row_a = VNum 1) by (vm_compute; reflexivity).
  exact (proj1 (proj2 (proj2
           (grid_edit_round_trip (app Examples.loaded) Examples.done_pool 1 0
              "status" "Done" Examples.row_a Hid Hfield Hidx Hcur Hrow)))
           Examples.row_a_done [] eq_refl).
Defined.
